(** * Hybrid retrieval and multi-step reasoning pipeline

    A shallow embedding of the core of the research-paper knowledge base:
    the local embedding generator and the hybrid search merge of
    [Neo4jService] (neo4jService.js), the single-question pipeline of
    [GraphRAGService] (graphRagService.js) and the confidence scores of
    [AdvancedRAGService] (AdvancedRAGService.js); around them the
    investigation helpers of [AdvancedRAGService], the JSON extraction
    of the Groq client (groqService.js), the response cache of the
    research routes (research.js), the paper search with its synthetic
    papers (paperSearchService.js) and the citation, author and
    duplicate handling of [RelationshipService]
    (relationshipService.js).

    Conventions of the embedding.
    - A JavaScript string is the list of its UTF-16 code units.
    - Integers that the code handles as numbers are exact integers ([Z]);
      32-bit operators ([<<], [>>>], [^], [Math.imul]) wrap explicitly.
    - Scores and confidences are exact rationals ([Q]); the entries of an
      embedding vector are exact reals ([R]) because the code takes square
      roots.  Rounding error of IEEE doubles is not modelled: where the
      code rounds a score ([Math.round], [Math.floor]) or compares two
      scores that are equal in exact arithmetic, its doubles can give the
      neighbouring integer or the other order.
    - A call that can throw returns a [Result]; [try]/[catch]/[finally] are
      combinators on it.
    - Host built-ins whose tables are not part of the repository
      ([String.prototype.toLowerCase], [JSON.parse]) and the external
      collaborators (the Neo4j driver, the Groq completion API) are
      parameters. *)

From Stdlib Require Import String Ascii.
From Stdlib Require Import List ZArith QArith Qround Qminmax Reals Lia Lqa Lra Bool.
From Stdlib Require Import Permutation Sorted.
From Stdlib Require DecimalString.
Import ListNotations.

Set Warnings "-register-all".

(** ** JavaScript values shared by all services *)

Module JS.

Local Open Scope Z_scope.

(** A string as its UTF-16 code units. *)
Definition jsstring := list Z.

(** A source-code string literal (ASCII) as a [jsstring]. *)
Definition lit (s : string) : jsstring :=
  map (fun c => Z.of_N (N_of_ascii c)) (list_ascii_of_string s).

Definition jsstring_eqb (a b : jsstring) : bool :=
  if list_eq_dec Z.eq_dec a b then true else false.

(** Outcome of a call: a returned value or a thrown exception (the
    message is kept for readability only). *)
Inductive Result (A : Type) : Type :=
| Return (a : A)
| Throw (msg : string).
Arguments Return {A} a.
Arguments Throw {A} msg.

Definition bind {A B} (m : Result A) (k : A -> Result B) : Result B :=
  match m with
  | Return a => k a
  | Throw e => Throw e
  end.

(** [const x = await m; k]: the rest of the block runs when [m]
    returns. *)
Declare Scope result_scope.
Delimit Scope result_scope with result.
Notation "x <- m ;; k" := (bind m (fun x => k))
  (at level 61, m at next level, right associativity) : result_scope.
Notation "m ;; k" := (bind m (fun _ => k))
  (at level 61, right associativity) : result_scope.

(** [try { body } catch (error) { handler }] *)
Definition try_catch {A} (body : Result A) (handler : string -> Result A)
  : Result A :=
  match body with
  | Return a => Return a
  | Throw e => handler e
  end.

(** [... finally { cleanup }]: the clean-up runs on both paths and its
    own exception replaces the outcome of the block. *)
Definition finally {A} (block : Result A) (cleanup : Result unit)
  : Result A :=
  match cleanup with
  | Return _ => block
  | Throw e => Throw e
  end.

(** Host built-ins taken as parameters. *)
Inductive json : Type :=
| JNull
| JBool (b : bool)
| JNum (q : Q)
| JStr (s : jsstring)
| JArr (l : list json)
| JObj (fields : list (jsstring * json)).

(** A Node [Buffer]: its bytes. *)
Definition Buffer := list Z.

Class Host : Type := {
  (* String.prototype.toLowerCase *)
  toLowerCase : jsstring -> jsstring;
  (* JSON.parse: the parsed value, or a SyntaxError *)
  JSON_parse : jsstring -> Result json;
  (* Buffer.from(text, 'base64') *)
  Buffer_from_base64 : jsstring -> Buffer;
  (* buffer.toString('utf8') *)
  Buffer_toString_utf8 : Buffer -> jsstring
}.

(** ECMAScript WhiteSpace and LineTerminator code units: what [trim]
    strips and what [\s] matches. *)
Definition isWhiteSpace (c : Z) : bool :=
  (9 <=? c) && (c <=? 13) || (c =? 32) || (c =? 160) || (c =? 5760)
  || (8192 <=? c) && (c <=? 8202) || (c =? 8232) || (c =? 8233)
  || (c =? 8239) || (c =? 8287) || (c =? 12288) || (c =? 65279).

(** [\w] without the unicode flag: [A-Za-z0-9_]. *)
Definition isUpper (c : Z) : bool := (65 <=? c) && (c <=? 90).
Definition isLower (c : Z) : bool := (97 <=? c) && (c <=? 122).
Definition isDigit (c : Z) : bool := (48 <=? c) && (c <=? 57).
Definition isWordChar (c : Z) : bool :=
  isUpper c || isLower c || isDigit c || (c =? 95).

Fixpoint trimStart (s : jsstring) : jsstring :=
  match s with
  | c :: s' => if isWhiteSpace c then trimStart s' else s
  | [] => []
  end.

Definition trim (s : jsstring) : jsstring :=
  rev (trimStart (rev (trimStart s))).

(** [s.split(sep)] for a one-code-unit separator: every separator ends
    a piece, so the result is never empty and may hold empty pieces. *)
Fixpoint splitOn (sep : Z) (s : jsstring) : list jsstring :=
  match s with
  | [] => [[]]
  | c :: s' =>
      if c =? sep then [] :: splitOn sep s'
      else match splitOn sep s' with
           | w :: ws => (c :: w) :: ws
           | [] => [[c]]
           end
  end.

(** [s.split(/sep+/)] for a class [sep] of code units: a maximal run of
    separators is one separator.  [inRun] tells that the previous code
    unit was a separator. *)
Fixpoint splitRuns (sep : Z -> bool) (inRun : bool) (s : jsstring)
  : list jsstring :=
  match s with
  | [] => [[]]
  | c :: s' =>
      if sep c then
        if inRun then splitRuns sep true s' else [] :: splitRuns sep true s'
      else match splitRuns sep false s' with
           | w :: ws => (c :: w) :: ws
           | [] => [[c]]
           end
  end.

(** [s.split(/\s+/)] and [s.split(/\W+/)] *)
Definition splitWhitespace (s : jsstring) : list jsstring :=
  splitRuns isWhiteSpace false s.
Definition splitNonWord (s : jsstring) : list jsstring :=
  splitRuns (fun c => negb (isWordChar c)) false s.

(** [a[n] = v] inside the bounds of [a]. *)
Fixpoint setNth {A} (n : nat) (v : A) (l : list A) : list A :=
  match l, n with
  | [], _ => []
  | _ :: l', O => v :: l'
  | x :: l', S n' => x :: setNth n' v l'
  end.

(** [pieces.join(' ')] *)
Fixpoint joinSpace (l : list jsstring) : jsstring :=
  match l with
  | [] => []
  | [w] => w
  | w :: ws => w ++ 32 :: joinSpace ws
  end.

Fixpoint startsWith (p s : jsstring) : bool :=
  match p, s with
  | [], _ => true
  | _ :: _, [] => false
  | a :: p', b :: s' => (a =? b) && startsWith p' s'
  end.

(** [s.includes(p)] *)
Fixpoint includes (s p : jsstring) : bool :=
  startsWith p s ||
  match s with
  | [] => false
  | _ :: s' => includes s' p
  end.

(** 32-bit conversions and operators. *)
Definition ToUint32 (x : Z) : Z := x mod 2 ^ 32.
Definition ToInt32 (x : Z) : Z :=
  let u := ToUint32 x in if 2 ^ 31 <=? u then u - 2 ^ 32 else u.

Definition shl (x n : Z) : Z := ToInt32 (Z.shiftl (ToInt32 x) n).
Definition ushr (x n : Z) : Z := Z.shiftr (ToUint32 x) n.
Definition xor (x y : Z) : Z := ToInt32 (Z.lxor (ToInt32 x) (ToInt32 y)).
Definition imul (x y : Z) : Z := ToInt32 (ToUint32 x * ToUint32 y).

(** [a % b] keeps the sign of the dividend. *)
Definition jsrem (a b : Z) : Z := Z.rem a b.

(** [array.sort((a, b) => key(b) - key(a))]: descending by [key].  The
    sort is stable, so an element stays before the later elements of the
    same key. *)
Fixpoint insertDesc {A} (key : A -> Q) (x : A) (l : list A) : list A :=
  match l with
  | [] => [x]
  | y :: l' =>
      if Qle_bool (key y) (key x) then x :: y :: l'
      else y :: insertDesc key x l'
  end.

Definition sortDesc {A} (key : A -> Q) (l : list A) : list A :=
  fold_right (insertDesc key) [] l.

(** The order of a list sorted by [sortDesc]: no later element has a
    larger key. *)
Definition descending {A} (key : A -> Q) (a b : A) : Prop :=
  (key b <= key a)%Q.

(** [Math.round] on an exact rational: the nearest integer, halves
    towards plus infinity. *)
Definition Math_round (x : Q) : Z := Qfloor (x + (1 # 2)).

End JS.

(** ** Neo4jService: the local embedding generator *)

Module Embedding.
Import JS.

Local Open Scope Z_scope.

(** [enhancedHash]: the loop body [hash = ((hash << 5) + hash) +
    str.charCodeAt(i)].  Only the shift wraps to 32 bits, the two
    additions are number additions. *)
Definition hashStep (hash c : Z) : Z := (shl hash 5 + hash) + c.

Definition enhancedHash (str : jsstring) : Z :=
  let hash := fold_left hashStep str 5381 in
  let hash := xor hash (ushr hash 16) in
  let hash := imul hash 0x85ebca6b in
  let hash := xor hash (ushr hash 13) in
  let hash := imul hash 0xc2b2ae35 in
  let hash := xor hash (ushr hash 16) in
  Z.abs hash.

(** [simpleHash]: [hash = ((hash << 5) - hash) + char; hash = hash & hash]. *)
Definition simpleHashStep (hash c : Z) : Z :=
  let hash := (shl hash 5 - hash) + c in
  ToInt32 (Z.land (ToInt32 hash) (ToInt32 hash)).

Definition simpleHash (str : jsstring) : Z :=
  Z.abs (fold_left simpleHashStep str 0).

(** [generateNGrams]: [for (i = 0; i <= words.length - n; i++)
    ngrams.push(words.slice(i, i + n).join(' '))]. *)
Definition generateNGrams (words : list jsstring) (n : nat) : list jsstring :=
  map (fun i => joinSpace (firstn n (skipn i words)))
      (seq 0 (length words + 1 - n)).

(** [.replace(/[^\\w\\s]/g, ' ')]: in the source the class is written with
    doubled backslashes, so it holds the three characters backslash, [w]
    and [s]; every other code unit becomes a space. *)
Definition inClass (c : Z) : bool := (c =? 92) || (c =? 119) || (c =? 115).

Definition replaceOutsideClass (s : jsstring) : jsstring :=
  map (fun c => if inClass c then c else 32) s.

(** [.replace(/\\s+/g, ' ')]: a backslash followed by one or more [s]
    becomes one space.  [inMatch] tells that the run of [s] of a match is
    being consumed. *)
Fixpoint replaceBackslashS (inMatch : bool) (s : jsstring) : jsstring :=
  match s with
  | [] => []
  | c :: s' =>
      if inMatch && (c =? 115) then replaceBackslashS true s'
      else if (c =? 92) && match s' with d :: _ => d =? 115 | [] => false end
           then 32 :: replaceBackslashS true s'
           else c :: replaceBackslashS false s'
  end.

Section WithHost.
Context {host : Host}.

Definition cleanText (text : jsstring) : jsstring :=
  trim (replaceBackslashS false (replaceOutsideClass (toLowerCase text))).

(** [cleanText.split(' ').filter(w => w.length > 2)] *)
Definition tokenize (text : jsstring) : list jsstring :=
  filter (fun w => (2 <? length w)%nat) (splitOn 32 (cleanText text)).

End WithHost.

(** [wordFreq]: a [Map] keeps its keys in insertion order. *)
Fixpoint mapGet (m : list (jsstring * Z)) (k : jsstring) : option Z :=
  match m with
  | [] => None
  | (k', v) :: m' => if jsstring_eqb k' k then Some v else mapGet m' k
  end.

Fixpoint mapSet (m : list (jsstring * Z)) (k : jsstring) (v : Z)
  : list (jsstring * Z) :=
  match m with
  | [] => [(k, v)]
  | (k', v') :: m' =>
      if jsstring_eqb k' k then (k', v) :: m' else (k', v') :: mapSet m' k v
  end.

(** [wordFreq.get(word) || 0] *)
Definition getOrZero (m : list (jsstring * Z)) (k : jsstring) : Z :=
  match mapGet m k with
  | Some v => v
  | None => 0
  end.

Definition countWords (words : list jsstring) : list (jsstring * Z) :=
  fold_left (fun m word => mapSet m word (getOrZero m word + 1)) words [].

(** [Math.max(...wordFreq.values())]; the spread is never empty where the
    code calls it, the empty case (minus infinity) is given as 0. *)
Definition maxFreq (m : list (jsstring * Z)) : Z :=
  match map snd m with
  | [] => 0
  | v :: vs => fold_left Z.max vs v
  end.

(** A write into the embedding array. *)
Inductive Write : Type :=
| AddAt (index : Z) (v : R)     (* embedding[index] += v *)
| SetAt (index : Z) (v : R).    (* embedding[index] = v *)

Definition writeIndex (w : Write) : Z :=
  match w with
  | AddAt i _ => i
  | SetAt i _ => i
  end.

(** 1. word frequency features: the loop over [wordFreq.entries()] with
    its [break] at [dimIndex >= 256]. *)
Fixpoint tfLoop (maxF : Z) (dimIndex : Z) (entries : list (jsstring * Z))
  : list Write :=
  match entries with
  | [] => []
  | (word, freq) :: rest =>
      if 256 <=? dimIndex then []
      else
        let normalizedFreq := (IZR freq / IZR maxF)%R in
        let hash := enhancedHash word in
        AddAt (jsrem dimIndex 256) normalizedFreq
          :: AddAt (jsrem hash 256) (normalizedFreq * (1 / 2))%R
          :: tfLoop maxF (dimIndex + 1) rest
  end.

Definition tfWrites (words : list jsstring) : list Write :=
  let wordFreq := countWords words in
  tfLoop (maxFreq wordFreq) 0 wordFreq.

(** 2. n-gram features: [forEach((ngram, index) => ...)] with its early
    [return] for [index >= 128]. *)
Fixpoint ngramLoop (index : Z) (ngrams : list jsstring) : list Write :=
  match ngrams with
  | [] => []
  | ngram :: rest =>
      if 128 <=? index then ngramLoop (index + 1) rest
      else
        let hash := enhancedHash ngram in
        AddAt (256 + jsrem hash 128)
              (1 / sqrt (INR (length (splitOn 32 ngram))))%R
          :: ngramLoop (index + 1) rest
  end.

Definition ngramWrites (words : list jsstring) : list Write :=
  ngramLoop 0 (generateNGrams words 2 ++ generateNGrams words 3).

(** 3. semantic features: [forEach((value, index) => { if (index < 128)
    embedding[384 + index] = value })]. *)
Fixpoint semanticLoop (index : Z) (features : list R) : list Write :=
  match features with
  | [] => []
  | value :: rest =>
      if index <? 128 then SetAt (384 + index) value :: semanticLoop (index + 1) rest
      else semanticLoop (index + 1) rest
  end.


Definition semanticWrites (features : list R) : list Write :=
  semanticLoop 0 features.

(** [extractSemanticFeatures]: the keyword tables. *)
Definition domains : list (list jsstring) :=
  map (map lit)
    [ ["learning"; "neural"; "network"; "algorithm"; "model"; "training"];
      ["language"; "text"; "word"; "semantic"; "parsing"; "embedding"];
      ["image"; "visual"; "pixel"; "detection"; "recognition"; "convolution"];
      ["robot"; "control"; "motion"; "sensor"; "autonomous"; "manipulation"];
      ["theorem"; "proof"; "complexity"; "analysis"; "mathematical";
       "optimization"] ]%string.

Definition methodWords : list jsstring :=
  map lit ["method"; "approach"; "technique"; "framework"; "system"]%string.
Definition resultWords : list jsstring :=
  map lit ["result"; "performance"; "accuracy"; "evaluation"; "experiment"]%string.
Definition noveltyWords : list jsstring :=
  map lit ["novel"; "new"; "improved"; "enhanced"; "proposed"]%string.

(** [keywords.reduce((score, keyword) => score +
    words.filter(w => w.includes(keyword)).length, 0)] *)
Definition keywordHits (words keywords : list jsstring) : Z :=
  fold_left
    (fun score keyword =>
       score + Z.of_nat (length (filter (fun w => includes w keyword) words)))
    keywords 0.

(** [Math.max(words.length, 1)] *)
Definition wordCount (words : list jsstring) : Z :=
  Z.max (Z.of_nat (length words)) 1.

Definition keywordScore (words keywords : list jsstring) : R :=
  (IZR (keywordHits words keywords) / IZR (wordCount words))%R.

(** [(text.match(/[A-Z][a-z]+/g) || []).length]: the matches do not
    overlap, and the lower-case letters a match consumes cannot start
    another one, so the matches are the positions where an upper-case
    letter is followed by a lower-case letter. *)
Fixpoint capitalizedWords (text : jsstring) : Z :=
  match text with
  | c :: ((d :: _) as text') =>
      (if isUpper c && isLower d then 1 else 0) + capitalizedWords text'
  | _ => 0
  end.

(** [words.reduce((sum, w) => sum + w.length, 0)] *)
Definition totalLength (words : list jsstring) : Z :=
  fold_left (fun sum w => sum + Z.of_nat (length w)) words 0.

(** [new Set(words).size] *)
Definition setSize (words : list jsstring) : Z :=
  Z.of_nat (length (nodup (list_eq_dec Z.eq_dec) words)).

(** [if (featureIndex < features.length) features[featureIndex++] = v] *)
Definition storeNext (st : list R * nat) (v : R) : list R * nat :=
  let '(features, featureIndex) := st in
  if (featureIndex <? length features)%nat
  then (setNth featureIndex v features, S featureIndex)
  else st.

Definition extractSemanticFeatures (text : jsstring) (words : list jsstring)
  : list R :=
  let features := repeat 0%R 128 in
  let st := fold_left storeNext (map (keywordScore words) domains) (features, 0%nat) in
  let avgWordLength := (IZR (totalLength words) / IZR (wordCount words))%R in
  let uniqueWordRatio := (IZR (setSize words) / IZR (wordCount words))%R in
  let st := storeNext st (avgWordLength / 10)%R in
  let st := storeNext st uniqueWordRatio in
  let st := storeNext st (IZR (capitalizedWords text) / IZR (wordCount words))%R in
  let st := storeNext st (keywordScore words methodWords) in
  let st := storeNext st (keywordScore words resultWords) in
  let st := storeNext st (keywordScore words noveltyWords) in
  fst st.

(** The embedding array.  The code only ever holds a dense array of
    numbers; a write outside the bounds would leave that domain (in
    JavaScript it creates a hole or a [NaN] entry), which is [None]. *)
Definition applyWrite (embedding : list R) (w : Write) : option (list R) :=
  let i := writeIndex w in
  if (0 <=? i) && (i <? Z.of_nat (length embedding)) then
    Some match w with
         | AddAt _ v =>
             setNth (Z.to_nat i) (nth (Z.to_nat i) embedding 0 + v)%R embedding
         | SetAt _ v => setNth (Z.to_nat i) v embedding
         end
  else None.

Fixpoint applyWrites (embedding : list R) (ws : list Write)
  : option (list R) :=
  match ws with
  | [] => Some embedding
  | w :: ws' =>
      match applyWrite embedding w with
      | Some embedding' => applyWrites embedding' ws'
      | None => None
      end
  end.

(** [embedding.reduce((sum, val) => sum + val * val, 0)] *)
Definition sumSquares (embedding : list R) : R :=
  fold_left (fun sum val => sum + val * val)%R embedding 0%R.

(** [embedding.map(val => magnitude > 0 ? val / magnitude : 0)] *)
Definition normalize (embedding : list R) : list R :=
  let magnitude := sqrt (sumSquares embedding) in
  map (fun val => if Rgt_dec magnitude 0 then (val / magnitude)%R else 0%R)
      embedding.

Definition isEmpty {A} (l : list A) : bool :=
  match l with [] => true | _ => false end.

Section Generators.
Context {host : Host}.

(** All writes of one call, in program order. *)
Definition embeddingWrites (text : jsstring) (words : list jsstring)
  : list Write :=
  tfWrites words ++ ngramWrites words
    ++ semanticWrites (extractSemanticFeatures text words).

Definition generateEnhancedEmbedding (text : jsstring) : option (list R) :=
  let embedding := repeat 0%R 512 in
  if isEmpty text || isEmpty (trim text) then Some embedding
  else
    let words := tokenize text in
    if isEmpty words then Some embedding
    else
      match applyWrites embedding (embeddingWrites text words) with
      | Some embedding => Some (normalize embedding)
      | None => None
      end.

(** [words.forEach((word, index) => { embedding[hash % 384] += 1.0 /
    (index + 1.0) })] *)
Fixpoint simpleLoop (index : Z) (words : list jsstring) : list Write :=
  match words with
  | [] => []
  | word :: rest =>
      AddAt (jsrem (simpleHash word) 384) (1 / (IZR index + 1))%R
        :: simpleLoop (index + 1) rest
  end.

Definition generateSimpleEmbedding (text : jsstring) : option (list R) :=
  let words :=
    filter (fun w => (2 <? length w)%nat) (splitNonWord (toLowerCase text)) in
  let embedding := repeat 0%R 384 in
  if isEmpty words then Some embedding
  else
    match applyWrites embedding (simpleLoop 0 words) with
    | Some embedding => Some (normalize embedding)
    | None => None
    end.

End Generators.

End Embedding.

(** ** Neo4jService: searches and the hybrid merge *)

Module Neo4j.
Import JS.

(** A paper as the searches return it: the stored properties the core
    reads, and the score of the strategy that found it ([undefined] is
    [None]). *)
Record Paper : Type := mkPaper {
  id : jsstring;
  title : jsstring;
  abstract : option jsstring;
  citationCount : option Z;
  similarity : option Q;
  relevance : option Q;
  connectionStrength : option Q
}.

Inductive Strategy : Type := semantic | keyword | graph.

(** [{ ...paper, combinedScore, sources }] *)
Record CombinedResult : Type := mkCombined {
  paper : Paper;
  combinedScore : Q;
  sources : list Strategy
}.

Definition paperId (e : CombinedResult) : jsstring := id (paper e).

(** [x || 0] on an optional number. *)
Definition orZero (x : option Q) : Q :=
  match x with
  | Some q => q
  | None => 0
  end.

(** [const weights = { semantic: 0.5, keyword: 0.3, graph: 0.2 }] *)
Definition weight (s : Strategy) : Q :=
  match s with
  | semantic => 5 # 10
  | keyword => 3 # 10
  | graph => 2 # 10
  end.

(** The score field each strategy reads. *)
Definition strategyScore (s : Strategy) (p : Paper) : option Q :=
  match s with
  | semantic => similarity p
  | keyword => relevance p
  | graph => connectionStrength p
  end.

(** [resultMap]: a [Map] from paper id to entry, in insertion order. *)
Fixpoint mapGet (m : list CombinedResult) (k : jsstring)
  : option CombinedResult :=
  match m with
  | [] => None
  | e :: m' => if jsstring_eqb (paperId e) k then Some e else mapGet m' k
  end.

(** [resultMap.set(key, entry)]: an existing key keeps its place. *)
Fixpoint mapSet (m : list CombinedResult) (k : jsstring) (v : CombinedResult)
  : list CombinedResult :=
  match m with
  | [] => [v]
  | e :: m' =>
      if jsstring_eqb (paperId e) k then v :: m' else e :: mapSet m' k v
  end.

(** [semanticResults.forEach]: the entry is set without a look-up. *)
Definition addSemantic (m : list CombinedResult) (p : Paper)
  : list CombinedResult :=
  let score := orZero (similarity p) * weight semantic in
  mapSet m (id p) (mkCombined p score [semantic]).

(** [keywordResults.forEach] and [graphResults.forEach]: an existing
    entry is updated in place ([existing.combinedScore += score;
    existing.sources.push(...)]), otherwise a new one is set. *)
Definition addOther (s : Strategy) (m : list CombinedResult) (p : Paper)
  : list CombinedResult :=
  let score := orZero (strategyScore s p) * weight s in
  match mapGet m (id p) with
  | Some existing =>
      mapSet m (id p)
        (mkCombined (paper existing) (combinedScore existing + score)
                    (sources existing ++ [s]))
  | None => mapSet m (id p) (mkCombined p score [s])
  end.

(** [if (paper.sources.length > 1) paper.combinedScore += 0.1 *
    (paper.sources.length - 1)] *)
Definition addBonus (e : CombinedResult) : CombinedResult :=
  if (1 <? length (sources e))%nat
  then mkCombined (paper e)
         (combinedScore e + (1 # 10) * inject_Z (Z.of_nat (length (sources e)) - 1))
         (sources e)
  else e.

Definition combineSearchResults (semanticResults keywordResults graphResults
                                 : list Paper) : list CombinedResult :=
  let resultMap := fold_left addSemantic semanticResults [] in
  let resultMap := fold_left (addOther keyword) keywordResults resultMap in
  let resultMap := fold_left (addOther graph) graphResults resultMap in
  sortDesc combinedScore (map addBonus resultMap).

(** The Neo4j driver.  [run] stands for [session.run] on one of the three
    Cypher queries together with the conversion of its records, which
    happen inside one [try] block: it gives the converted papers or
    throws. *)
Inductive Query : Type :=
| SemanticQuery (queryEmbedding : option (list R)) (limit : nat)
                (topic : option jsstring)
| KeywordQuery (queryText : jsstring) (limit : nat) (topic : option jsstring)
| GraphQuery (seedIds : list jsstring) (limit : nat) (topic : option jsstring).

(** A stored integer as [record.get] hands it over: [null], a driver
    [Integer], which has a [toNumber] method, or a plain number, which
    has none (what a driver configured with [disableLosslessIntegers]
    returns). *)
Inductive StoredInteger : Type :=
| NullInteger
| DriverInteger (value : Z)
| PlainNumber (value : Q).

(** [value?.toNumber() || 0]: calling the missing [toNumber] of a plain
    number is a TypeError. *)
Definition toNumberOrZero (value : StoredInteger) : Result Z :=
  match value with
  | NullInteger => Return 0%Z
  | DriverInteger n => Return n
  | PlainNumber _ => Throw "TypeError: toNumber is not a function"
  end.

(** The record of the content query of [getPaperFullContent]:
    [p.fileContent], [p.contentType], [p.hasFullContent] ([true] when
    the stored value is truthy) and [p.originalSize]. *)
Record ContentRecord : Type := mkContentRecord {
  fileContent : option jsstring;
  recContentType : option jsstring;
  recHasFullContent : bool;
  recOriginalSize : StoredInteger
}.

Record Session : Type := mkSession {
  run : Query -> Result (list Paper);
  runContent : jsstring -> Result (list ContentRecord);
  close : Result unit
}.

Record Driver : Type := mkDriver {
  session : Result Session
}.

(** The service object: [this.driver] and [this.connected]. *)
Record Neo4jService : Type := mkService {
  driver : option Driver;
  connected : bool
}.

(** [limit = 10]: a missing argument takes the default. *)
Definition orDefault (limit : option nat) : nat :=
  match limit with
  | Some n => n
  | None => 10%nat
  end.

Section WithHost.
Context {host : Host}.
Local Open Scope result_scope.

(** [generateEmbeddings]: the enhanced embedding, with the simple one as
    the fall-back of the [catch].  The body reads no field of [this]. *)
Definition generateEmbeddings (this : Neo4jService) (text : jsstring)
  : Result (option (list R)) :=
  try_catch (Return (Embedding.generateEnhancedEmbedding text))
            (fun _ => Return (Embedding.generateSimpleEmbedding text)).

(** [if (!this.connected || !this.driver) return []; const session =
    this.driver.session(); try { body } catch { return [] } finally {
    await session.close() }] *)
Definition guarded (this : Neo4jService)
           (body : Session -> Result (list Paper)) : Result (list Paper) :=
  match connected this, driver this with
  | true, Some d =>
      s <- session d ;;
      finally (try_catch (body s) (fun _ => Return [])) (close s)
  | _, _ => Return []
  end.

Definition semanticSearch (this : Neo4jService) (queryText : jsstring)
           (limit : option nat) (topic : option jsstring)
  : Result (list Paper) :=
  guarded this (fun s =>
    queryEmbedding <- generateEmbeddings this queryText ;;
    run s (SemanticQuery queryEmbedding (orDefault limit) topic)).

Definition keywordSearch (this : Neo4jService) (queryText : jsstring)
           (limit : option nat) (topic : option jsstring)
  : Result (list Paper) :=
  guarded this (fun s =>
    run s (KeywordQuery queryText (orDefault limit) topic)).

Definition graphSearch (this : Neo4jService) (queryText : jsstring)
           (limit : option nat) (topic : option jsstring)
  : Result (list Paper) :=
  guarded this (fun s =>
    seedPapers <- keywordSearch this queryText (Some 3%nat) topic ;;
    if Embedding.isEmpty seedPapers then Return []
    else run s (GraphQuery (map id seedPapers) (orDefault limit) topic)).

(** What [getPaperFullContent] returns in [content]: [null], a [Buffer]
    (PDF) or a string. *)
Inductive Content : Type :=
| NoContent
| Binary (b : Buffer)
| Text (s : jsstring).

Record FullContent : Type := mkFullContent {
  content : Content;
  contentType : option jsstring;
  hasFullContent : bool;
  originalSize : Z
}.

Definition applicationPdf : jsstring := lit "application/pdf".
Definition textPlain : jsstring := lit "text/plain".

Definition isTypeOf (expected : jsstring) (t : option jsstring) : bool :=
  match t with
  | Some t => jsstring_eqb t expected
  | None => false
  end.

(** [getPaperFullContent]: throws when the connection is down, when the
    paper is unknown or when [originalSize] is stored as a plain
    number; its [catch] rethrows. *)
Definition getPaperFullContent (this : Neo4jService) (paperId : jsstring)
  : Result FullContent :=
  match connected this, driver this with
  | true, Some d =>
      s <- session d ;;
      finally
        (try_catch
           (records <- runContent s paperId ;;
            match records with
            | [] => Throw "Paper not found"
            | record :: _ =>
                originalSize <- toNumberOrZero (recOriginalSize record) ;;
                let content :=
                  match fileContent record with
                  | Some (c :: rest) =>
                      if recHasFullContent record then
                        let buffer := Buffer_from_base64 (c :: rest) in
                        if isTypeOf applicationPdf (recContentType record)
                        then Binary buffer
                        else Text (Buffer_toString_utf8 buffer)
                      else NoContent
                  | _ => NoContent
                  end in
                Return (mkFullContent content (recContentType record)
                                      (recHasFullContent record)
                                      originalSize)
            end)
           (fun error => Throw error))
        (close s)
  | _, _ => Throw "Neo4j not connected"
  end.

Record HybridResults : Type := mkHybrid {
  semanticResults : list Paper;
  keywordResults : list Paper;
  graphResults : list Paper;
  combinedResults : list CombinedResult
}.

(** [hybridSearch]: [Promise.all] over the three searches (it rejects as
    soon as one of them does), then the merge and [slice(0, limit)]. *)
Definition hybridSearch (this : Neo4jService) (queryText : jsstring)
           (limit : option nat) (topic : option jsstring)
  : Result HybridResults :=
  let limit := orDefault limit in
  semanticResults <- semanticSearch this queryText (Some limit) topic ;;
  keywordResults <- keywordSearch this queryText (Some limit) topic ;;
  graphResults <- graphSearch this queryText (Some limit) topic ;;
  let combinedResults :=
    combineSearchResults semanticResults keywordResults graphResults in
  Return (mkHybrid semanticResults keywordResults graphResults
                   (firstn limit combinedResults)).

End WithHost.

End Neo4j.

(** ** The merge policy in the words of the specification *)

Module HybridSpec.
Import JS Neo4j.

(** The occurrence of a paper in one strategy's result list. *)
Definition findPaper (results : list Paper) (pid : jsstring) : option Paper :=
  find (fun p => jsstring_eqb (id p) pid) results.

Definition appearsIn (results : list Paper) (pid : jsstring) : bool :=
  existsb (fun p => jsstring_eqb (id p) pid) results.

(** (strategy score) x weight, for a strategy the paper appeared in. *)
Definition contribution (s : Strategy) (results : list Paper) (pid : jsstring)
  : Q :=
  match findPaper results pid with
  | Some p => orZero (strategyScore s p) * weight s
  | None => 0
  end.

(** The number of strategies the paper appeared in. *)
Definition sourceCount (sem kw gr : list Paper) (pid : jsstring) : Z :=
  (Z.b2z (appearsIn sem pid) + Z.b2z (appearsIn kw pid)
   + Z.b2z (appearsIn gr pid))%Z.

(** The flat bonus of [0.1 x (sourceCount - 1)] for more than one
    strategy. *)
Definition bonus (n : Z) : Q :=
  if (1 <? n)%Z then (1 # 10) * inject_Z (n - 1) else 0.

Definition expectedScore (sem kw gr : list Paper) (pid : jsstring) : Q :=
  contribution semantic sem pid + contribution keyword kw pid
  + contribution graph gr pid + bonus (sourceCount sem kw gr pid).

(** The result list of one strategy among the three. *)
Definition resultsOf (s : Strategy) (sem kw gr : list Paper) : list Paper :=
  match s with
  | semantic => sem
  | keyword => kw
  | graph => gr
  end.

(** The combined score a paper receives when strategy [s] is the only
    one that returns results. *)
Definition scoreAlone (s : Strategy) (sem kw gr : list Paper) (pid : jsstring)
  : option Q :=
  let merged :=
    match s with
    | semantic => combineSearchResults sem [] []
    | keyword => combineSearchResults [] kw []
    | graph => combineSearchResults [] [] gr
    end in
  option_map combinedScore (mapGet merged pid).

(** Every strategy score that the merge reads is non-negative. *)
Definition scoresNonNegative (sem kw gr : list Paper) : Prop :=
  forall s p, In p (resultsOf s sem kw gr) -> 0 <= orZero (strategyScore s p).

End HybridSpec.

(** ** One paper followed through the three loops of the merge *)

Module MergeTrace.
Import JS Neo4j.

(** What one round of [semanticResults.forEach] does to the entry of
    [pid] ([None] while the map has no such key). *)
Definition semStep (pid : jsstring) (st : option CombinedResult) (p : Paper)
  : option CombinedResult :=
  if jsstring_eqb (id p) pid
  then Some (mkCombined p (orZero (similarity p) * weight semantic) [semantic])
  else st.

(** The same for the keyword and graph loops. *)
Definition otherStep (s : Strategy) (pid : jsstring)
           (st : option CombinedResult) (p : Paper) : option CombinedResult :=
  if jsstring_eqb (id p) pid
  then
    let score := orZero (strategyScore s p) * weight s in
    Some match st with
         | Some existing =>
             mkCombined (paper existing) (combinedScore existing + score)
                        (sources existing ++ [s])
         | None => mkCombined p score [s]
         end
  else st.

(** The entry of [pid] when the three loops are done. *)
Definition track (pid : jsstring) (sem kw gr : list Paper)
  : option CombinedResult :=
  fold_left (otherStep graph pid) gr
    (fold_left (otherStep keyword pid) kw
       (fold_left (semStep pid) sem None)).

(** Score and number of sources of an entry that may be missing. *)
Definition scoreOf (st : option CombinedResult) : Q :=
  match st with
  | Some e => combinedScore e
  | None => 0
  end.

Definition countOf (st : option CombinedResult) : nat :=
  match st with
  | Some e => length (sources e)
  | None => 0%nat
  end.

(** The weighted scores and the number of the occurrences of [pid] in a
    result list. *)
Fixpoint total (s : Strategy) (pid : jsstring) (l : list Paper) : Q :=
  match l with
  | [] => 0
  | p :: l' =>
      (if jsstring_eqb (id p) pid
       then orZero (strategyScore s p) * weight s else 0)
      + total s pid l'
  end.

Fixpoint occurrences (pid : jsstring) (l : list Paper) : nat :=
  match l with
  | [] => 0%nat
  | p :: l' =>
      ((if jsstring_eqb (id p) pid then 1 else 0) + occurrences pid l')%nat
  end.

(** The map of the three loops, before the bonus and the sort. *)
Definition resultMapOf (sem kw gr : list Paper) : list CombinedResult :=
  fold_left (addOther graph) gr
    (fold_left (addOther keyword) kw (fold_left addSemantic sem [])).

(** The bonus as [addBonus] computes it from the number of sources. *)
Definition bonusOf (n : nat) : Q :=
  if (1 <? n)%nat then (1 # 10) * inject_Z (Z.of_nat n - 1) else 0.

End MergeTrace.

(** ** GraphRAGService: the single-question pipeline *)

Module GraphRAG.
Import JS.
Local Open Scope result_scope.

(** [{ ...paper, fullContent, contentType, hasFullContent }] *)
Record PaperWithContent : Type := mkWithContent {
  base : Neo4j.CombinedResult;
  fullContent : Neo4j.Content;
  contentType : option jsstring;
  hasFullContent : bool
}.

Inductive PassageSource : Type := full_text | from_abstract.

Record Passage : Type := mkPassage {
  paperId : jsstring;
  paperTitle : jsstring;
  content : jsstring;
  relevance : Q;
  source : PassageSource
}.

(** The result of [analyzeQuestion]; on the primary path every field is
    whatever JSON value the generator sent. *)
Record QuestionAnalysis : Type := mkAnalysis {
  qtype : json;
  entities : json;
  searchTerms : json;
  intent : json
}.

Record Turn : Type := mkTurn {
  turnQuestion : jsstring;
  turnAnswer : jsstring
}.

(** A prompt, by the values its template interpolates. *)
Inductive Prompt : Type :=
| AnalysisPrompt (question : jsstring)
| AnswerPrompt (question : jsstring) (passages : list Passage)
               (analysisType : json) (entityList : list json) (analysisIntent : json)
               (conversation : list Turn)
| ReasoningPrompt (question response : jsstring)
| FollowUpPrompt (question answer : jsstring) (paperTitles : list jsstring)
| StepAnalysisPrompt (question reasoning : jsstring)
                     (previousContext : list (jsstring * list jsstring))
                     (passages : list Passage).

(** The Groq client: whether [GROQ_API_KEY] is set, and the content of
    the first choice of [chat.completions.create] ([None] when absent). *)
Record Groq : Type := mkGroq {
  hasApiKey : bool;
  create : Prompt -> Result (option jsstring)
}.

(** [groqService.generateCompletion]: an empty or missing content is an
    error, and the [catch] rethrows. *)
Definition generateCompletion (groq : Groq) (prompt : Prompt)
  : Result jsstring :=
  try_catch
    (if hasApiKey groq then
       (content <- create groq prompt ;;
        match content with
        | Some (c :: rest) => Return (c :: rest)
        | _ => Throw "No response from Groq"
        end)
     else Throw "GROQ_API_KEY environment variable is missing")
    (fun error => Throw error).

(** Truthiness and property access on a parsed JSON value. *)
Definition truthy (v : json) : bool :=
  match v with
  | JNull => false
  | JBool b => b
  | JNum q => negb (Qeq_bool q 0)
  | JStr s => negb (Embedding.isEmpty s)
  | JArr _ => true
  | JObj _ => true
  end.

Fixpoint lookupField (fields : list (jsstring * json)) (k : jsstring)
  : option json :=
  match fields with
  | [] => None
  | (k', v) :: rest => if jsstring_eqb k' k then Some v else lookupField rest k
  end.

(** [value.key]: a TypeError on [null], [undefined] on a value without
    that property. *)
Definition getProp (v : json) (k : string) : Result (option json) :=
  match v with
  | JNull => Throw "TypeError: cannot read properties of null"
  | JObj fields => Return (lookupField fields (lit k))
  | _ => Return None
  end.

(** [x || fallback] *)
Definition orElse (x : option json) (fallback : json) : json :=
  match x with
  | Some v => if truthy v then v else fallback
  | None => fallback
  end.

(** [value.join(', ')]: only an array has the method. *)
Definition arrayJoin (v : json) : Result (list json) :=
  match v with
  | JArr l => Return l
  | _ => Throw "TypeError: join is not a function"
  end.

Definition stopWords : list jsstring :=
  map lit ["what"; "how"; "where"; "when"; "why"; "who"; "the"; "a"; "an";
           "and"; "or"; "but"; "in"; "on"; "at"; "to"; "for"; "of"; "with";
           "by"]%string.

Definition isStopWord (w : jsstring) : bool :=
  existsb (jsstring_eqb w) stopWords.

(** [.replace(/[^\w\s]/g, ' ')] *)
Definition replacePunctuation (s : jsstring) : jsstring :=
  map (fun c => if isWordChar c || isWhiteSpace c then c else 32%Z) s.

Definition fallbackAnswer : jsstring :=
  lit "I apologize, but I encountered an error while searching through the research papers. Please try rephrasing your question or check if the research database is available.".

Definition fallbackSuggestions : list jsstring :=
  map lit ["Can you help me find papers on machine learning?";
           "What research topics are available in the database?";
           "Show me highly cited papers in the system"]%string.

Definition genericFollowUps : list jsstring :=
  map lit ["Can you tell me more about the methodologies used in these studies?";
           "What are the practical applications of these research findings?";
           "Are there any recent developments in this research area?"]%string.

Definition answerFailure : jsstring :=
  lit "I found relevant research papers but encountered an error while generating a comprehensive answer. The papers in your database contain information about your question, but I'm unable to process it fully at the moment.".

(** [line.replace(/^\d+\.\s*/, '')] *)
Fixpoint dropDigits (s : jsstring) : jsstring :=
  match s with
  | c :: s' => if isDigit c then dropDigits s' else s
  | [] => []
  end.

Definition stripEnumeration (line : jsstring) : jsstring :=
  match line with
  | c :: _ =>
      if isDigit c then
        match dropDigits line with
        | d :: rest => if (d =? 46)%Z then trimStart rest else line
        | [] => line
        end
      else line
  | [] => line
  end.

(** [response.split('\n').filter(line => line.trim().length > 10)
    .map(line => line.replace(/^\d+\.\s*/, '').trim()).slice(0, 3)] *)
Definition parseFollowUps (response : jsstring) : list jsstring :=
  firstn 3
    (map (fun line => trim (stripEnumeration line))
       (filter (fun line => (10 <? length (trim line))%nat)
          (splitOn 10 response))).

(** A reply with a line that the filter of [parseFollowUps] keeps. *)
Definition hasLongLine (response : jsstring) : bool :=
  existsb (fun line => (10 <? length (trim line))%nat) (splitOn 10 response).

(** [p.similarity || p.relevance || p.combinedScore]: the first non-zero
    score, else the last operand. *)
Definition firstScore (p : PaperWithContent) : Q :=
  let nonZero (x : option Q) :=
    match x with
    | Some q => if Qeq_bool q 0 then None else Some q
    | None => None
    end in
  match nonZero (Neo4j.similarity (Neo4j.paper (base p))) with
  | Some q => q
  | None =>
      match nonZero (Neo4j.relevance (Neo4j.paper (base p))) with
      | Some q => q
      | None => Neo4j.combinedScore (base p)
      end
  end.

Definition sumQ {A} (f : A -> Q) (l : list A) : Q :=
  fold_left (fun sum x => sum + f x) l 0.

Definition lengthQ {A} (l : list A) : Q := inject_Z (Z.of_nat (length l)).

(** [calculateConfidence] *)
Definition calculateConfidence (papers : list PaperWithContent)
           (passages : list Passage) : Z :=
  if Embedding.isEmpty papers then 0%Z
  else
    let paperCount := Qmin (lengthQ papers / 5) 1 * (3 # 10) in
    let averageRelevance :=
      sumQ (fun p => firstScore p) papers / lengthQ papers * (4 # 10) in
    let passageCount := Qmin (lengthQ passages / 5) 1 * (2 # 10) in
    let contentAvailability :=
      lengthQ (filter hasFullContent papers) / lengthQ papers * (1 # 10) in
    let confidence :=
      0 + paperCount + averageRelevance + passageCount + contentAvailability in
    Math_round (confidence * 100).

(** [chunkText]: [for (i = 0; i < words.length; i += maxWords)], keeping
    the chunks of more than 50 characters after trimming. *)
Definition chunkText (text : jsstring) (maxWords : nat) : list jsstring :=
  let words := splitWhitespace text in
  filter (fun chunk => (50 <? length (trim chunk))%nat)
    (map (fun k => joinSpace (firstn maxWords (skipn (k * maxWords) words)))
         (seq 0 ((length words + maxWords - 1) / maxWords))).

Record Source : Type := mkSource {
  sourceId : jsstring;
  sourceTitle : jsstring;
  sourceCitationCount : option Z;
  sourceRelevance : Q
}.

Record Context : Type := mkContext {
  relevantPapers : list PaperWithContent;
  searchQuery : jsstring;
  searchType : jsstring;
  totalPapersFound : nat;
  confidence : Z
}.

Record RAGResponse : Type := mkResponse {
  answer : jsstring;
  sources : list Source;
  context : Context;
  suggestedQuestions : list jsstring;
  reasoning : jsstring
}.

Definition fallbackResponse (question : jsstring) : RAGResponse :=
  mkResponse fallbackAnswer []
    (mkContext [] question (lit "error") 0 0%Z)
    fallbackSuggestions
    (lit "Error in processing - using fallback response").

Section Pipeline.
Context {host : Host}.
Variable neo4jService : Neo4j.Neo4jService.
Variable groqService : Groq.

(** The replies of the generator all hold a line of more than ten
    characters. *)
Definition repliesUsable : Prop :=
  forall prompt response,
    generateCompletion groqService prompt = Return response ->
    hasLongLine response = true.

(** No call of the generator succeeds. *)
Definition generatorDown : Prop :=
  forall prompt, exists e, generateCompletion groqService prompt = Throw e.

(** [extractSimpleEntities] *)
Definition extractSimpleEntities (question : jsstring) : list jsstring :=
  firstn 5
    (filter (fun word => (3 <? length word)%nat && negb (isStopWord word))
       (splitWhitespace (replacePunctuation (toLowerCase question)))).

Definition heuristicAnalysis (question : jsstring) : QuestionAnalysis :=
  mkAnalysis (JStr (lit "factual"))
             (JArr (map JStr (extractSimpleEntities question)))
             (JArr [JStr question])
             (JStr (lit "research query")).

(** [analyzeQuestion]: the inner [try] guards the parse and the reading
    of the parsed value, the outer one the generator call. *)
Definition analyzeQuestion (question : jsstring) : Result QuestionAnalysis :=
  try_catch
    (response <- generateCompletion groqService (AnalysisPrompt question) ;;
     try_catch
       (analysis <- JSON_parse response ;;
        type <- getProp analysis "type" ;;
        ents <- getProp analysis "entities" ;;
        terms <- getProp analysis "searchTerms" ;;
        int <- getProp analysis "intent" ;;
        Return (mkAnalysis
                  (orElse type (JStr (lit "factual")))
                  (orElse ents (JArr []))
                  (orElse terms (JArr [JStr question]))
                  (orElse int (JStr (lit "general research query")))))
       (fun parseError => Return (heuristicAnalysis question)))
    (fun error => Return (heuristicAnalysis question)).

(** [getPapersFullContent]: a paper whose content cannot be read keeps
    its abstract. *)
Definition withContent (p : Neo4j.CombinedResult) : PaperWithContent :=
  match Neo4j.getPaperFullContent neo4jService (Neo4j.paperId p) with
  | Return c =>
      mkWithContent p (Neo4j.content c) (Neo4j.contentType c)
                    (Neo4j.hasFullContent c)
  | Throw _ =>
      mkWithContent p
        (Neo4j.Text match Neo4j.abstract (Neo4j.paper p) with
                    | Some (c :: rest) => c :: rest
                    | _ => []
                    end)
        (Some Neo4j.textPlain) false
  end.

Definition getPapersFullContent (papers : list Neo4j.CombinedResult)
  : list PaperWithContent :=
  map withContent papers.

(** [calculateTextRelevance] *)
Definition calculateTextRelevance (text question : jsstring) : Q :=
  let questionTerms :=
    filter (fun w => (3 <? length w)%nat)
           (splitWhitespace (toLowerCase question)) in
  let textLower := toLowerCase text in
  let matches := filter (fun term => includes textLower term) questionTerms in
  if (0 <? length questionTerms)%nat
  then lengthQ matches / lengthQ questionTerms
  else 0.

(** [paper.abstract || fallback] *)
Definition abstractOr (p : PaperWithContent) (fallback : string) : jsstring :=
  match Neo4j.abstract (Neo4j.paper (base p)) with
  | Some (c :: rest) => c :: rest
  | _ => lit fallback
  end.

Definition passagesOf (question : jsstring) (p : PaperWithContent)
  : list Passage :=
  let pid := Neo4j.paperId (base p) in
  let ptitle := Neo4j.title (Neo4j.paper (base p)) in
  let usable :=
    match fullContent p with
    | Neo4j.NoContent => false
    | Neo4j.Binary _ => true
    | Neo4j.Text s => negb (Embedding.isEmpty s)
    end in
  if usable && hasFullContent p then
    match fullContent p with
    | Neo4j.Text s =>
        if Neo4j.isTypeOf Neo4j.textPlain (contentType p) then
          map (fun chunk =>
                 mkPassage pid ptitle chunk
                           (calculateTextRelevance chunk question) full_text)
              (filter (fun chunk =>
                         negb (Qle_bool (calculateTextRelevance chunk question)
                                        (3 # 10)))
                      (chunkText s 500))
        else [mkPassage pid ptitle (abstractOr p "Abstract not available")
                        (8 # 10) from_abstract]
    | _ => [mkPassage pid ptitle (abstractOr p "Abstract not available")
                      (8 # 10) from_abstract]
    end
  else [mkPassage pid ptitle (abstractOr p "Content not available")
                  (5 # 10) from_abstract].

(** [extractRelevantPassages] *)
Definition extractRelevantPassages (papers : list PaperWithContent)
           (question : jsstring) : list Passage :=
  firstn 10 (sortDesc relevance (flat_map (passagesOf question) papers)).

(** [conversationHistory?.slice(-3)] *)
Definition lastThree (history : option (list Turn)) : list Turn :=
  match history with
  | Some turns => skipn (length turns - 3) turns
  | None => []
  end.

(** [generateAnswer]: the prompt is built outside the [try], so a
    non-array [entities] throws to the caller. *)
Definition generateAnswer (question : jsstring) (passages : list Passage)
           (questionAnalysis : QuestionAnalysis)
           (conversationHistory : option (list Turn))
  : Result (jsstring * jsstring) :=
  entityList <- arrayJoin (entities questionAnalysis) ;;
  let prompt :=
    AnswerPrompt question passages (qtype questionAnalysis) entityList
                 (intent questionAnalysis) (lastThree conversationHistory) in
  try_catch
    (response <- generateCompletion groqService prompt ;;
     reasoning <-
       generateCompletion groqService (ReasoningPrompt question response) ;;
     Return (trim response, trim reasoning))
    (fun error =>
       Return (answerFailure,
               lit "Answer generation failed due to LLM service error")).

(** [generateFollowUpQuestions] *)
Definition generateFollowUpQuestions (question answer : jsstring)
           (papers : list PaperWithContent) : Result (list jsstring) :=
  try_catch
    (let paperTitles :=
       map (fun p => Neo4j.title (Neo4j.paper (base p))) (firstn 3 papers) in
     response <- generateCompletion groqService
                   (FollowUpPrompt question answer paperTitles) ;;
     Return (parseFollowUps response))
    (fun error => Return genericFollowUps).

Definition toSource (p : PaperWithContent) : Source :=
  mkSource (Neo4j.paperId (base p)) (Neo4j.title (Neo4j.paper (base p)))
           (Neo4j.citationCount (Neo4j.paper (base p))) (firstScore p).

(** The [try] block of [askQuestion]. *)
Definition askQuestionBody (question : jsstring) (topic : option jsstring)
           (conversationHistory : option (list Turn)) : Result RAGResponse :=
  questionAnalysis <- analyzeQuestion question ;;
  arrayJoin (entities questionAnalysis) ;;
  searchResults <-
    Neo4j.hybridSearch neo4jService question (Some 10%nat) topic ;;
  let papersWithContent :=
    getPapersFullContent (firstn 5 (Neo4j.combinedResults searchResults)) in
  let relevantPassages := extractRelevantPassages papersWithContent question in
  answer <- generateAnswer question relevantPassages questionAnalysis
                           conversationHistory ;;
  suggestedQuestions <-
    generateFollowUpQuestions question (fst answer) papersWithContent ;;
  Return (mkResponse (fst answer)
            (map toSource papersWithContent)
            (mkContext papersWithContent question (lit "hybrid")
               (length (Neo4j.combinedResults searchResults))
               (calculateConfidence papersWithContent relevantPassages))
            suggestedQuestions
            (snd answer)).

(** [askQuestion]: the whole pipeline inside one [try], the fixed
    response in its [catch]. *)
Definition askQuestion (question : jsstring) (topic : option jsstring)
           (conversationHistory : option (list Turn)) : Result RAGResponse :=
  try_catch (askQuestionBody question topic conversationHistory)
            (fun error => Return (fallbackResponse question)).

End Pipeline.

End GraphRAG.

(** ** AdvancedRAGService: research steps and their confidence *)

Module AdvancedRAG.
Import JS.
Local Open Scope result_scope.

Record PlanStep : Type := mkPlanStep {
  planQuestion : jsstring;
  planReasoning : jsstring
}.

Record ResearchStep : Type := mkStep {
  stepId : Z;                                  (* [Date.now()] of the id *)
  question : jsstring;
  reasoning : jsstring;
  findings : list GraphRAG.PaperWithContent;
  confidence : Z;
  nextSteps : json
}.

(** [p.citationCount || 0] *)
Definition citations (p : GraphRAG.PaperWithContent) : Q :=
  match Neo4j.citationCount (Neo4j.paper (GraphRAG.base p)) with
  | Some n => inject_Z n
  | None => 0
  end.

(** [calculateStepConfidence] *)
Definition calculateStepConfidence (papers : list GraphRAG.PaperWithContent)
           (passages : list GraphRAG.Passage) : Z :=
  if Embedding.isEmpty papers then 0%Z
  else
    let paperCount := Qmin (GraphRAG.lengthQ papers / 5) 1 * 30 in
    let contentQuality :=
      GraphRAG.lengthQ (filter GraphRAG.hasFullContent papers)
      / GraphRAG.lengthQ papers * 25 in
    let passageRelevance :=
      if (0 <? length passages)%nat
      then GraphRAG.sumQ GraphRAG.relevance passages
           / GraphRAG.lengthQ passages * 30
      else 0 in
    let citationStrength :=
      GraphRAG.sumQ citations papers / GraphRAG.lengthQ papers / 100 * 15 in
    Math_round
      (0 + paperCount + contentQuality + passageRelevance + citationStrength).

(** [calculateOverallConfidence] *)
Definition calculateOverallConfidence (steps : list ResearchStep) : Z :=
  if Embedding.isEmpty steps then 0%Z
  else
    let avgStepConfidence :=
      GraphRAG.sumQ (fun step => inject_Z (confidence step)) steps
      / GraphRAG.lengthQ steps in
    let consistencyBonus := if (1 <? length steps)%nat then 10 else 0 in
    Z.min 100 (Math_round (avgStepConfidence + consistencyBonus)).

Section Steps.
Context {host : Host}.
Variable neo4jService : Neo4j.Neo4jService.
Variable groqService : GraphRAG.Groq.

(** [analyzeStepFindings]: the parsed reply, or the templated analysis. *)
Definition analyzeStepFindings (step : PlanStep)
           (passages : list GraphRAG.Passage)
           (previousContext : list (jsstring * list jsstring)) : json :=
  let prompt :=
    GraphRAG.StepAnalysisPrompt (planQuestion step) (planReasoning step)
                                previousContext passages in
  match bind (GraphRAG.generateCompletion groqService prompt) JSON_parse with
  | Return findings => findings
  | Throw _ =>
      JObj [(lit "analysis",
             JStr (lit "Analysis of findings related to: " ++ planQuestion step));
            (lit "nextSteps",
             JArr [JStr (lit "Continue investigation with additional sources")])]
  end.

(** [executeResearchStep]; [now] is the clock reading of the step id. *)
Definition executeResearchStep (now : Z) (step : PlanStep)
           (previousSteps : list ResearchStep) (topic : option jsstring)
  : Result ResearchStep :=
  let previousContext :=
    map (fun s =>
           (question s,
            map (fun f => Neo4j.title (Neo4j.paper (GraphRAG.base f)))
                (firstn 2 (findings s))))
        previousSteps in
  searchResults <-
    Neo4j.hybridSearch neo4jService (planQuestion step) (Some 8%nat) topic ;;
  let papersWithContent :=
    GraphRAG.getPapersFullContent neo4jService
      (firstn 5 (Neo4j.combinedResults searchResults)) in
  let relevantPassages :=
    GraphRAG.extractRelevantPassages papersWithContent (planQuestion step) in
  let findings := analyzeStepFindings step relevantPassages previousContext in
  next <- GraphRAG.getProp findings "nextSteps" ;;
  Return (mkStep now (planQuestion step) (planReasoning step)
                 papersWithContent
                 (calculateStepConfidence papersWithContent relevantPassages)
                 (GraphRAG.orElse next (JArr []))).

End Steps.

End AdvancedRAG.

(** ** The overall confidence in the words of the specification *)

Module ConfidenceSpec.
Import JS AdvancedRAG.

(** mean(step confidences) *)
Definition meanConfidence (steps : list ResearchStep) : Q :=
  GraphRAG.sumQ (fun step => inject_Z (confidence step)) steps
  / GraphRAG.lengthQ steps.

(** 10 if steps > 1 else 0 *)
Definition multiStepBonus (steps : list ResearchStep) : Q :=
  if (1 <? length steps)%nat then 10 else 0.

End ConfidenceSpec.

(** ** AdvancedRAGService: sources, topic intersections, plans and trends *)

Module Investigation.
Import JS.
Local Open Scope result_scope.

(** [deduplicateSources]: [allSources.filter(source => { if
    (seen.has(source.id)) return false; seen.add(source.id); return true
    })]; [seen] is the set of the ids met so far. *)
Fixpoint keepUnseen (seen : list jsstring)
         (allSources : list GraphRAG.PaperWithContent)
  : list GraphRAG.PaperWithContent :=
  match allSources with
  | [] => []
  | source :: rest =>
      let sid := Neo4j.paperId (GraphRAG.base source) in
      if existsb (jsstring_eqb sid) seen then keepUnseen seen rest
      else source :: keepUnseen (sid :: seen) rest
  end.

Definition deduplicateSources (allSources : list GraphRAG.PaperWithContent)
  : list GraphRAG.PaperWithContent :=
  keepUnseen [] allSources.

(** [findTopicIntersections].  An entry of [paperCounts]: the paper as
    first met, and the topics of the searches that returned it;
    [topics[topicIndex]] is [undefined] ([None]) past the end of
    [topics]. *)
Record TopicCount : Type := mkTopicCount {
  countedPaper : Neo4j.CombinedResult;
  countedTopics : list (option jsstring)
}.

Definition countedId (item : TopicCount) : jsstring :=
  Neo4j.paperId (countedPaper item).

(** [if (paperCounts.has(paper.id)) paperCounts.get(paper.id).topics
    .push(topic) else paperCounts.set(paper.id, { paper, topics: [topic]
    })]: the map keeps its keys in insertion order. *)
Fixpoint countPaper (topic : option jsstring) (paperCounts : list TopicCount)
         (paper : Neo4j.CombinedResult) : list TopicCount :=
  match paperCounts with
  | [] => [mkTopicCount paper [topic]]
  | item :: rest =>
      if jsstring_eqb (countedId item) (Neo4j.paperId paper)
      then mkTopicCount (countedPaper item) (countedTopics item ++ [topic])
             :: rest
      else item :: countPaper topic rest paper
  end.

(** [topicResults.forEach((results, topicIndex) => ...)] from index
    [topicIndex] on. *)
Fixpoint countTopics (topics : list jsstring) (topicIndex : nat)
         (paperCounts : list TopicCount)
         (topicResults : list Neo4j.HybridResults) : list TopicCount :=
  match topicResults with
  | [] => paperCounts
  | results :: rest =>
      countTopics topics (S topicIndex)
        (fold_left (countPaper (nth_error topics topicIndex))
                   (Neo4j.combinedResults results) paperCounts)
        rest
  end.

(** [{ ...item.paper, topicsFound, intersectionScore }] *)
Record Intersection : Type := mkIntersection {
  intersectionPaper : Neo4j.CombinedResult;
  topicsFound : list (option jsstring);
  intersectionScore : nat
}.

Definition topicTotal (item : TopicCount) : Q :=
  inject_Z (Z.of_nat (length (countedTopics item))).

Definition findTopicIntersections (topicResults : list Neo4j.HybridResults)
           (topics : list jsstring) : list Intersection :=
  map (fun item =>
         mkIntersection (countedPaper item) (countedTopics item)
                        (length (countedTopics item)))
    (sortDesc topicTotal
       (filter (fun item => (1 <? length (countedTopics item))%nat)
          (countTopics topics 0 [] topicResults))).

(** [createResearchPlan].  [planningReply] stands for
    [groqService.generateCompletion] on the planning prompt, as a
    function of the question that the prompt interpolates. *)
Record Planner : Type := mkPlanner {
  planningReply : jsstring -> Result jsstring
}.

(** The [steps] of a plan: an array, or, when the reply carried a string
    under [steps], its first code units ([String.prototype.slice]). *)
Inductive PlanSteps : Type :=
| StepArray (steps : list json)
| StepString (steps : jsstring).

Definition directStep (question : jsstring) : PlanSteps :=
  StepArray
    [JObj [(lit "question", JStr question);
           (lit "reasoning",
            JStr (lit "Direct investigation of the main question"))]].

(** [plan.steps?.slice(0, 5)]: [undefined] ([None]) for a missing or
    [null] value, a TypeError for a value without [slice]. *)
Definition sliceSteps (steps : option json) : Result (option PlanSteps) :=
  match steps with
  | None => Return None
  | Some JNull => Return None
  | Some (JArr l) => Return (Some (StepArray (firstn 5 l)))
  | Some (JStr s) => Return (Some (StepString (firstn 5 s)))
  | Some _ => Throw "TypeError: plan.steps.slice is not a function"
  end.

(** [sliced || fallback]: an array is truthy even when empty, a string
    only when it is not empty. *)
Definition stepsOr (sliced : option PlanSteps) (fallback : PlanSteps)
  : PlanSteps :=
  match sliced with
  | Some (StepArray l) => StepArray l
  | Some (StepString []) => fallback
  | Some (StepString s) => StepString s
  | None => fallback
  end.

Section Plans.
Context {host : Host}.
Variable planner : Planner.

Definition createResearchPlan (question : jsstring) : Result PlanSteps :=
  try_catch
    (response <- planningReply planner question ;;
     plan <- JSON_parse response ;;
     steps <- GraphRAG.getProp plan "steps" ;;
     sliced <- sliceSteps steps ;;
     Return (stepsOr sliced (directStep question)))
    (fun error => Return (directStep question)).

End Plans.

(** [getPapersByYear].  A paper as [getPapersByTopic] returns it: [year]
    and [citationCount] went through [safeToNumber] and are numbers. *)
Record TopicPaper : Type := mkTopicPaper {
  tpTitle : jsstring;
  tpYear : Z;
  tpCitationCount : Q;
  tpAuthors : option (list jsstring)
}.

(** [neo4jService.getPapersByTopic(topic)] with no limit, as a
    collaborator: the papers of the topic, or an exception. *)
Record TopicStore : Type := mkTopicStore {
  getPapersByTopic : jsstring -> Result (list TopicPaper)
}.

(** An entry [acc[year]]. *)
Record YearData : Type := mkYearData {
  year : Z;
  paperCount : Z;
  sampleTitles : list jsstring;
  avgCitations : Q;
  topAuthors : list jsstring
}.

(** The body of the reducer once [acc[year]] exists.  [avgCitations] is
    the running mean as the code computes it, but in exact arithmetic:
    the doubles of the code round at every step, so their value can
    differ from this one in the last place, and no statement below
    speaks of the field. *)
Definition addToYear (entry : YearData) (paper : TopicPaper) : YearData :=
  let paperCount := (paperCount entry + 1)%Z in
  let sampleTitles :=
    if (length (sampleTitles entry) <? 3)%nat
    then sampleTitles entry ++ [tpTitle paper]
    else sampleTitles entry in
  let avgCitations :=
    (avgCitations entry * inject_Z (paperCount - 1) + tpCitationCount paper)
    / inject_Z paperCount in
  let topAuthors :=
    match tpAuthors paper with
    | Some (author :: _) =>
        if (length (topAuthors entry) <? 5)%nat
        then topAuthors entry ++ [author]
        else topAuthors entry
    | _ => topAuthors entry
    end in
  mkYearData (year entry) paperCount sampleTitles avgCitations topAuthors.

(** One round of the reducer on [acc], an object keyed by the year. *)
Fixpoint groupPaper (acc : list YearData) (paper : TopicPaper)
  : list YearData :=
  match acc with
  | [] => [addToYear (mkYearData (tpYear paper) 0 [] 0 []) paper]
  | entry :: rest =>
      if (year entry =? tpYear paper)%Z then addToYear entry paper :: rest
      else entry :: groupPaper rest paper
  end.

(** [array.sort((a, b) => a.year - b.year)]: ascending, stable. *)
Fixpoint insertByYear (entry : YearData) (sorted : list YearData)
  : list YearData :=
  match sorted with
  | [] => [entry]
  | other :: rest =>
      if (year entry <=? year other)%Z then entry :: other :: rest
      else other :: insertByYear entry rest
  end.

Definition sortByYear (entries : list YearData) : list YearData :=
  fold_right insertByYear [] entries.

Definition inRange (fromYear toYear : Z) (paper : TopicPaper) : bool :=
  (fromYear <=? tpYear paper)%Z && (tpYear paper <=? toYear)%Z.

(** [getPapersByYear].  The entries of [acc] have distinct years and the
    result is sorted by year, so the order in which [Object.values]
    lists them does not show in the result; [acc] is kept in insertion
    order here. *)
Definition getPapersByYear (store : TopicStore) (topic : jsstring)
           (fromYear toYear : Z) : Result (list YearData) :=
  try_catch
    (papers <- getPapersByTopic store topic ;;
     let yearlyData :=
       fold_left groupPaper (filter (inRange fromYear toYear) papers) [] in
     Return (sortByYear yearlyData))
    (fun error => Return []).

End Investigation.

(** ** What a year's entry says about the papers of that year *)

Module TrendSpec.
Import JS Investigation.

Definition papersOfYear (y : Z) (papers : list TopicPaper) : list TopicPaper :=
  filter (fun paper => (tpYear paper =? y)%Z) papers.

(** The entry counts the papers of its year, samples the first three
    titles and holds at most five authors. *)
Definition summarizes (papers : list TopicPaper) (entry : YearData) : Prop :=
  let ofYear := papersOfYear (year entry) papers in
  ofYear <> [] /\
  paperCount entry = Z.of_nat (length ofYear) /\
  sampleTitles entry = firstn 3 (map tpTitle ofYear) /\
  (length (topAuthors entry) <= 5)%nat.

End TrendSpec.

(** ** How often the topic searches returned a paper *)

Module IntersectionSpec.
Import JS.

Definition timesIn (pid : jsstring) (papers : list Neo4j.CombinedResult)
  : nat :=
  length (filter (fun paper => jsstring_eqb (Neo4j.paperId paper) pid) papers).

(** The number of entries with id [pid] in the combined results of all
    the searches. *)
Definition timesFound (pid : jsstring)
           (topicResults : list Neo4j.HybridResults) : nat :=
  timesIn pid (flat_map Neo4j.combinedResults topicResults).

End IntersectionSpec.

(** ** groqService: JSON out of a reply *)

Module GroqJson.
Import JS.
Local Open Scope Z_scope.

(** The longest prefix of [s] that ends with a closing brace. *)
Fixpoint uptoLastBrace (s : jsstring) : option jsstring :=
  match s with
  | [] => None
  | c :: s' =>
      match uptoLastBrace s' with
      | Some m => Some (c :: m)
      | None => if c =? 125 then Some [c] else None
      end
  end.

(** [content.match(/\{[\s\S]*\}/)]: the match starts at the leftmost
    opening brace that has a closing brace after it, and the greedy
    [[\s\S]*] takes it up to the last closing brace. *)
Fixpoint matchBraces (content : jsstring) : option jsstring :=
  match content with
  | [] => None
  | c :: rest =>
      if c =? 123 then
        match uptoLastBrace rest with
        | Some m => Some (c :: m)
        | None => matchBraces rest
        end
      else matchBraces rest
  end.

Section WithHost.
Context {host : Host}.

(** [extractJSON] *)
Definition extractJSON (content : jsstring) : Result json :=
  try_catch (JSON_parse content)
    (fun error =>
       try_catch
         match matchBraces content with
         | Some jsonMatch => JSON_parse jsonMatch
         | None => Throw "No JSON found in response"
         end
         (fun parseError => Throw "Invalid JSON response from AI")).

End WithHost.

End GroqJson.

(** ** routes/research: the in-memory cache *)

Module Cache.
Import JS.

Section WithData.
Variable Data : Type.

(** [{ data, timestamp, ttl }]; the times are milliseconds. *)
Record Item : Type := mkItem {
  data : Data;
  timestamp : Z;
  ttl : Q
}.

(** [InstantCache]: [this.cache], a [Map] in insertion order, and
    [this.maxSize]. *)
Record InstantCache : Type := mkCache {
  cache : list (jsstring * Item);
  maxSize : nat
}.

(** [new InstantCache()] *)
Local Set Warnings "-abstract-large-number".
Definition create : InstantCache := mkCache [] 10000.

Fixpoint lookup (entries : list (jsstring * Item)) (key : jsstring)
  : option Item :=
  match entries with
  | [] => None
  | (k, item) :: rest => if jsstring_eqb k key then Some item else lookup rest key
  end.

(** [Map.prototype.set]: an existing key keeps its place. *)
Fixpoint store (entries : list (jsstring * Item)) (key : jsstring) (item : Item)
  : list (jsstring * Item) :=
  match entries with
  | [] => [(key, item)]
  | (k, old) :: rest =>
      if jsstring_eqb k key then (k, item) :: rest
      else (k, old) :: store rest key item
  end.

(** [Map.prototype.delete] *)
Definition remove (entries : list (jsstring * Item)) (key : jsstring)
  : list (jsstring * Item) :=
  filter (fun entry => negb (jsstring_eqb (fst entry) key)) entries.

(** [now - item.timestamp > item.ttl] *)
Definition expired (now : Z) (item : Item) : bool :=
  negb (Qle_bool (inject_Z (now - timestamp item)) (ttl item)).

(** [entries.sort((a, b) => a[1].timestamp - b[1].timestamp)]:
    ascending, stable. *)
Fixpoint insertByAge (entry : jsstring * Item)
         (sorted : list (jsstring * Item)) : list (jsstring * Item) :=
  match sorted with
  | [] => [entry]
  | other :: rest =>
      if (timestamp (snd entry) <=? timestamp (snd other))%Z
      then entry :: other :: rest
      else other :: insertByAge entry rest
  end.

Definition sortByAge (entries : list (jsstring * Item))
  : list (jsstring * Item) :=
  fold_right insertByAge [] entries.

(** [for (let i = 0; i < (this.cache.size - this.maxSize); i++)
    this.cache.delete(entriesToDelete[i][0])]: the bound is read again
    in every round.  [entriesToDelete] is the part of the sorted array
    from index [i] on; the loop ends before the array does, because
    every round removes one entry. *)
Fixpoint evictOldest (i : nat) (entriesToDelete : list (jsstring * Item))
         (entries : list (jsstring * Item)) (maxSize : nat)
  : list (jsstring * Item) :=
  match entriesToDelete with
  | [] => entries
  | oldest :: rest =>
      if (i <? length entries - maxSize)%nat
      then evictOldest (S i) rest (remove entries (fst oldest)) maxSize
      else entries
  end.

(** [cleanup()]; [now] is the reading of [Date.now()]. *)
Definition cleanup (this : InstantCache) (now : Z) : InstantCache :=
  let live := filter (fun entry => negb (expired now (snd entry))) (cache this) in
  if (maxSize this <? length live)%nat
  then mkCache (evictOldest 0 (sortByAge live) live (maxSize this))
               (maxSize this)
  else mkCache live (maxSize this).

(** [set(key, data, ttlMinutes = 60)]; [cleanupTime] and [now] are the
    readings of [Date.now()] in [cleanup] and for the time stamp. *)
Definition set (this : InstantCache) (key : jsstring) (data : Data)
           (ttlMinutes : option Q) (cleanupTime now : Z) : InstantCache :=
  let ttlMinutes := match ttlMinutes with Some m => m | None => 60 end in
  let this :=
    if (maxSize this <=? length (cache this))%nat
    then cleanup this cleanupTime else this in
  mkCache (store (cache this) key (mkItem data now (ttlMinutes * 60 * 1000)))
          (maxSize this).

(** [get(key)]: the data ([null] is [None]) and the cache afterwards. *)
Definition get (this : InstantCache) (key : jsstring) (now : Z)
  : option Data * InstantCache :=
  match lookup (cache this) key with
  | None => (None, this)
  | Some item =>
      if expired now item
      then (None, mkCache (remove (cache this) key) (maxSize this))
      else (Some (data item), this)
  end.

(** [getStats()]: [{ size, maxSize }] and the cache afterwards. *)
Definition getStats (this : InstantCache) (now : Z)
  : (nat * nat) * InstantCache :=
  let this := cleanup this now in
  ((length (cache this), maxSize this), this).

End WithData.

Arguments mkItem {Data} data timestamp ttl.
Arguments data {Data} i.
Arguments timestamp {Data} i.
Arguments ttl {Data} i.
Arguments mkCache {Data} cache maxSize.
Arguments cache {Data} i.
Arguments maxSize {Data} i.
Arguments create {Data}.
Arguments lookup {Data} entries key.
Arguments store {Data} entries key item.
Arguments remove {Data} entries key.
Arguments expired {Data} now item.
Arguments insertByAge {Data} entry sorted.
Arguments sortByAge {Data} entries.
Arguments evictOldest {Data} i entriesToDelete entries maxSize.
Arguments cleanup {Data} this now.
Arguments set {Data} this key data ttlMinutes cleanupTime now.
Arguments get {Data} this key now.
Arguments getStats {Data} this now.

End Cache.

(** ** paperSearchService: similarity, synthetic papers and duplicates *)

Module PaperSearch.
Import JS.

(** A paper as the search functions build it. *)
Record RealPaper : Type := mkRealPaper {
  id : jsstring;
  title : jsstring;
  authors : list jsstring;
  abstract : option jsstring;
  year : Z;
  citationCount : Z;
  venue : jsstring;
  url : jsstring;
  keywords : list jsstring
}.

(** [str.split(' ').filter(w => w.length > 3)] *)
Definition longWords (str : jsstring) : list jsstring :=
  filter (fun w => (3 <? length w)%nat) (splitOn 32 str).

(** [calculateSimilarity]: [intersection.length / union.size]; [None]
    is the [NaN] of 0 / 0. *)
Definition calculateSimilarity (str1 str2 : jsstring) : option Q :=
  let words1 := longWords str1 in
  let words2 := longWords str2 in
  let intersection :=
    filter (fun word => existsb (jsstring_eqb word) words2) words1 in
  let union := nodup (list_eq_dec Z.eq_dec) (words1 ++ words2) in
  if Embedding.isEmpty union then None
  else Some (GraphRAG.lengthQ intersection / GraphRAG.lengthQ union).

(** The interpolation of a non-negative integer in a template
    literal. *)
Definition decimal (n : nat) : jsstring :=
  lit (DecimalString.NilZero.string_of_uint (Nat.to_uint n)).

(** [topic.replace(/\s+/g, '-')]: [inRun] tells that the previous code
    unit was white space. *)
Fixpoint dashWhitespace (inRun : bool) (s : jsstring) : jsstring :=
  match s with
  | [] => []
  | c :: s' =>
      if isWhiteSpace c then
        if inRun then dashWhitespace true s' else 45%Z :: dashWhitespace true s'
      else c :: dashWhitespace false s'
  end.

Definition paperTemplates (topic : jsstring) : list jsstring :=
  [ lit "A Comprehensive Survey of " ++ topic;
    lit "Recent Advances in " ++ topic;
    lit "Deep Learning Approaches to " ++ topic;
    lit "Scalable " ++ topic ++ lit " Systems";
    lit "Neural Networks for " ++ topic;
    lit "Optimization Methods in " ++ topic;
    lit "Machine Learning Applications in " ++ topic;
    lit "Statistical Analysis of " ++ topic;
    lit "Novel Algorithms for " ++ topic;
    lit "Empirical Studies on " ++ topic;
    lit "Theoretical Foundations of " ++ topic;
    lit "Practical Implementation of " ++ topic;
    lit "Comparative Analysis of " ++ topic ++ lit " Methods";
    lit "Real-world Applications of " ++ topic;
    lit "Future Directions in " ++ topic ++ lit " Research";
    topic ++ lit ": A Systematic Review";
    lit "Advanced Techniques in " ++ topic;
    topic ++ lit " for Real-Time Systems";
    lit "Distributed " ++ topic ++ lit " Architectures";
    topic ++ lit " in Healthcare Applications";
    lit "Reinforcement Learning for " ++ topic;
    lit "Transformer Models in " ++ topic;
    lit "Federated " ++ topic ++ lit " Systems";
    topic ++ lit " with Limited Data";
    lit "Explainable " ++ topic ++ lit " Methods" ].

Definition venues : list jsstring :=
  map lit
    [ "Nature"; "Science"; "Nature Machine Intelligence";
      "Nature Communications";
      "IEEE Transactions on Pattern Analysis and Machine Intelligence";
      "Journal of Machine Learning Research";
      "Neural Information Processing Systems";
      "International Conference on Machine Learning";
      "AAAI Conference on Artificial Intelligence";
      "Computer Vision and Pattern Recognition";
      "Association for Computational Linguistics";
      "International Conference on Computer Vision";
      "European Conference on Computer Vision";
      "IEEE Transactions on Neural Networks and Learning Systems";
      "Artificial Intelligence"; "Machine Learning"; "Pattern Recognition";
      "IEEE Transactions on Image Processing"; "ACM Computing Surveys";
      "Proceedings of the National Academy of Sciences";
      "arXiv Preprint" ]%string.

Definition authorPool : list jsstring :=
  map lit
    [ "Dr. Alex Johnson"; "Prof. Maria Garcia"; "Dr. David Chen";
      "Prof. Sarah Williams"; "Dr. Michael Brown"; "Prof. Lisa Wang";
      "Dr. James Rodriguez"; "Prof. Emily Davis"; "Dr. Robert Kumar";
      "Prof. Anna Martinez"; "Dr. Thomas Lee"; "Prof. Jennifer Zhang";
      "Dr. Christopher Taylor"; "Prof. Amanda Wilson"; "Dr. Daniel Kim";
      "Prof. Rachel Thompson"; "Dr. Mohammed Al-Hassan"; "Prof. Yuki Tanaka";
      "Dr. Elena Petrov"; "Prof. Jean Dubois"; "Dr. Priya Sharma";
      "Prof. Hans Mueller"; "Dr. Carmen Silva"; "Prof. Olaf Andersen" ]%string.

Definition syntheticAbstract (topic : jsstring) : jsstring :=
  lit "This paper presents a comprehensive study on " ++ topic
  ++ lit ", examining various approaches and methodologies. Our research contributes to the field by providing novel insights and practical applications. We evaluate our methods on standard benchmarks and demonstrate significant improvements over existing approaches.".

Section Synthetic.

(** [random n] is the reading of the [n]-th call of [Math.random()]
    since [generateFallbackPapers] was entered, a number in [0, 1). *)
Variable random : nat -> Q.

(** [Math.floor(Math.random() * k)] at reading [n]. *)
Definition randomBelow (n : nat) (k : Z) : Z :=
  Qfloor (random n * inject_Z k).

(** [for (let j = 0; j < authorCount; j++) { const author =
    authorPool[...]; if (!authors.includes(author))
    authors.push(author) }]; [n] counts the readings of the random
    source. *)
Fixpoint pickAuthors (rounds : nat) (n : nat) (authors : list jsstring)
  : list jsstring * nat :=
  match rounds with
  | O => (authors, n)
  | S rounds' =>
      let author := nth (Z.to_nat (randomBelow n 24)) authorPool [] in
      let authors :=
        if existsb (jsstring_eqb author) authors then authors
        else authors ++ [author] in
      pickAuthors rounds' (S n) authors
  end.

(** One round of the loop of [generateFallbackPapers]: the paper of
    index [i], and the number of readings after it. *)
Definition syntheticPaper (topic : jsstring) (i : nat) (n : nat)
  : RealPaper * nat :=
  let template := nth (i mod 25) (paperTemplates topic) [] in
  let year := (2018 + randomBelow n 7)%Z in
  let authorCount := (randomBelow (n + 1) 5 + 1)%Z in
  let '(authors, n) := pickAuthors (Z.to_nat authorCount) (n + 2) [] in
  let citationCount := (randomBelow n 300 + 5)%Z in
  let citationCount :=
    if (2022 <=? year)%Z then Qfloor (inject_Z citationCount * (3 # 10))
    else citationCount in
  let venueOfIndex := nth (i mod 21) venues [] in
  let citationCount :=
    if includes venueOfIndex (lit "Nature")
       || includes venueOfIndex (lit "Science")
    then Qfloor (inject_Z citationCount * (25 # 10))
    else citationCount in
  (mkRealPaper
     (lit "synthetic-" ++ dashWhitespace false topic ++ lit "-" ++ decimal i)
     template authors (Some (syntheticAbstract topic)) year citationCount
     (nth (Z.to_nat (randomBelow (n + 1) 21)) venues [])
     (lit "https://example.com/paper/" ++ decimal i)
     (topic :: map lit ["research"; "analysis"; "machine learning";
                        "artificial intelligence"]%string),
   (n + 2)%nat).

(** [for (let i = 0; i < count; i++)] from index [i] on, with [todo]
    rounds left. *)
Fixpoint syntheticFrom (topic : jsstring) (todo : nat) (i : nat) (n : nat)
  : list RealPaper :=
  match todo with
  | O => []
  | S todo' =>
      let '(paper, n) := syntheticPaper topic i n in
      paper :: syntheticFrom topic todo' (S i) n
  end.

Definition generateFallbackPapers (topic : jsstring) (count : nat)
  : list RealPaper :=
  syntheticFrom topic count 0 0.

End Synthetic.

(** [seen], a [Map] from title key to paper, in insertion order. *)
Fixpoint seenGet (seen : list (jsstring * RealPaper)) (key : jsstring)
  : option RealPaper :=
  match seen with
  | [] => None
  | (k, paper) :: rest =>
      if jsstring_eqb k key then Some paper else seenGet rest key
  end.

Fixpoint seenSet (seen : list (jsstring * RealPaper)) (key : jsstring)
         (paper : RealPaper) : list (jsstring * RealPaper) :=
  match seen with
  | [] => [(key, paper)]
  | (k, old) :: rest =>
      if jsstring_eqb k key then (k, paper) :: rest
      else (k, old) :: seenSet rest key paper
  end.

(** [paper.abstract && paper.abstract.length >
    (existingPaper.abstract?.length || 0)] *)
Definition longerAbstract (paper existingPaper : RealPaper) : bool :=
  match abstract paper with
  | Some (c :: rest) =>
      (match abstract existingPaper with
       | Some text => length text
       | None => 0%nat
       end <? length (c :: rest))%nat
  | _ => false
  end.

Section WithHost.
Context {host : Host}.

(** [title.toLowerCase().replace(/[^\\w\\s]/g, '').replace(/\\s+/g, ' ')
    .trim().substring(0, 60)]: as in the embedding's tokenizer the two
    patterns are written with doubled backslashes, so the first one
    deletes every character but [w], [s] and the backslash. *)
Definition titleKey (title : jsstring) : jsstring :=
  firstn 60
    (trim (Embedding.replaceBackslashS false
             (filter Embedding.inClass (toLowerCase title)))).

(** The body of the loop of [removeDuplicatePapers]. *)
Definition keepBetter (seen : list (jsstring * RealPaper)) (paper : RealPaper)
  : list (jsstring * RealPaper) :=
  let key := titleKey (title paper) in
  match seenGet seen key with
  | None => seenSet seen key paper
  | Some existingPaper =>
      if (citationCount existingPaper <? citationCount paper)%Z
         || longerAbstract paper existingPaper
      then seenSet seen key paper
      else seen
  end.

Definition removeDuplicatePapers (papers : list RealPaper) : list RealPaper :=
  map snd (fold_left keepBetter papers []).

(** The two network searches, as collaborators. *)
Record PaperSources : Type := mkSources {
  searchArxivEnhanced : jsstring -> Z -> Result (list RealPaper);
  searchSemanticScholar : jsstring -> Z -> Result (list RealPaper)
}.

(** The values that the summary sentence interpolates. *)
Record Summary : Type := mkSummary {
  summaryPapers : nat;
  summaryTopic : jsstring;
  summaryCitations : Z;
  summaryResearchers : nat;
  summaryRecent : nat
}.

Record SearchResults : Type := mkResults {
  papers : list RealPaper;
  totalFound : nat;
  authorsAnalyzed : nat;
  connectionsDiscovered : Z;
  summary : Summary
}.

(** [searchRealPapers]: its two inner [try] blocks turn a failed search
    into no papers; with papers of the shape above nothing else in the
    outer [try] block throws, so its [catch] is not reached.
    [connectionsDiscovered] is the floor of the exact product; the
    code multiplies by the double 0.35 and can give one less, and no
    statement below speaks of the field. *)
Definition searchRealPapers (sources : PaperSources) (random : nat -> Q)
           (topic : jsstring) : SearchResults :=
  let arxivPapers :=
    match searchArxivEnhanced sources topic 400 with
    | Return found => found
    | Throw _ => []
    end in
  let semanticPapers :=
    match searchSemanticScholar sources topic 200 with
    | Return found => found
    | Throw _ => []
    end in
  let allPapers := arxivPapers ++ semanticPapers in
  let targetCount := 500%nat in
  let allPapers :=
    if (length allPapers <? targetCount)%nat
    then allPapers
         ++ generateFallbackPapers random topic (targetCount - length allPapers)
    else allPapers in
  let uniquePapers := removeDuplicatePapers allPapers in
  let authorsSet :=
    nodup (list_eq_dec Z.eq_dec) (flat_map authors uniquePapers) in
  let totalCitations :=
    fold_left (fun sum paper => (sum + citationCount paper)%Z) uniquePapers 0%Z in
  let connectionsCount :=
    Qfloor (inject_Z (Z.of_nat (length uniquePapers)) * (35 # 100)) in
  let recentPapers :=
    length (filter (fun p => (2022 <=? year p)%Z) uniquePapers) in
  mkResults uniquePapers (length uniquePapers) (length authorsSet)
            connectionsCount
            (mkSummary (length uniquePapers) topic totalCitations
                       (length authorsSet) recentPapers).

End WithHost.

End PaperSearch.

(** ** RelationshipService (relationshipService.js) *)

Module Relationships.
Import JS.

(** ['citation' | 'content' | 'author' | 'temporal' | 'venue'] *)
Inductive RelationshipType : Type :=
| Citation
| Content
| Author
| Temporal
| Venue.

(** The string of a type, as a template literal interpolates it. *)
Definition typeName (t : RelationshipType) : jsstring :=
  match t with
  | Citation => lit "citation"
  | Content => lit "content"
  | Author => lit "author"
  | Temporal => lit "temporal"
  | Venue => lit "venue"
  end.

(** [metadata]: each strategy fills one field. *)
Inductive Metadata : Type :=
| SharedKeywords (keywords : list jsstring)
| AuthorOverlap (sharedAuthors : list jsstring)
| CitationCount (count : option Z)
| YearDifference (difference : Z)
| VenueMatch.

Record PaperRelationship : Type := mkRelationship {
  sourceId : jsstring;
  targetId : jsstring;
  relationshipType : RelationshipType;
  strength : Q;
  metadata : Metadata
}.

(** A paper as the relationship analysis reads it; the optional fields
    are [None] when [undefined]. *)
Record Paper : Type := mkPaper {
  id : jsstring;
  title : jsstring;
  authors : list jsstring;
  abstract : option jsstring;
  year : option Z;
  venue : option jsstring;
  citationCount : option Z;
  references : option (list jsstring);
  citations : option (list jsstring)
}.

(** An index, a [Map] from a normalized name to the papers pushed under
    it, in insertion order. *)
Definition Index : Type := list (jsstring * list Paper).

Fixpoint indexGet (index : Index) (key : jsstring) : option (list Paper) :=
  match index with
  | [] => None
  | (k, found) :: rest =>
      if jsstring_eqb k key then Some found else indexGet rest key
  end.

(** [if (!index.has(key)) index.set(key, []); index.get(key).push(paper)] *)
Fixpoint indexPush (index : Index) (key : jsstring) (paper : Paper) : Index :=
  match index with
  | [] => [(key, [paper])]
  | (k, found) :: rest =>
      if jsstring_eqb k key then (k, found ++ [paper]) :: rest
      else (k, found) :: indexPush rest key paper
  end.

(** [paperIdMap.has(refId)] for [new Map(papers.map(p => [p.id, p]))] *)
Definition hasId (papers : list Paper) (refId : jsstring) : bool :=
  existsb (fun p => jsstring_eqb (id p) refId) papers.

(** [list?.forEach(...)] visits nothing when the list is [undefined]. *)
Definition listed (l : option (list jsstring)) : list jsstring :=
  match l with
  | Some ids => ids
  | None => []
  end.

(** The body of the outer loop of [findCitationRelationships]: the
    references of [paper], then its citations. *)
Definition citationLinks (papers : list Paper) (paper : Paper)
  : list PaperRelationship :=
  map (fun refId =>
         mkRelationship (id paper) refId Citation (9 # 10)
                        (CitationCount (citationCount paper)))
      (filter (hasId papers) (listed (references paper)))
  ++ map (fun citId =>
            mkRelationship citId (id paper) Citation (9 # 10)
                           (CitationCount (citationCount paper)))
         (filter (hasId papers) (listed (citations paper))).

Definition findCitationRelationships (papers : list Paper)
  : list PaperRelationship :=
  flat_map (citationLinks papers) papers.

(** [`${a}-${b}-${type}`] *)
Definition relationKey (a b : jsstring) (t : RelationshipType) : jsstring :=
  a ++ lit "-" ++ b ++ lit "-" ++ typeName t.

Definition key1 (rel : PaperRelationship) : jsstring :=
  relationKey (sourceId rel) (targetId rel) (relationshipType rel).

Definition key2 (rel : PaperRelationship) : jsstring :=
  relationKey (targetId rel) (sourceId rel) (relationshipType rel).

(** [seen.has(key)] *)
Definition seenHas (seen : list jsstring) (key : jsstring) : bool :=
  existsb (jsstring_eqb key) seen.

(** The body of the loop of [deduplicateRelationships] on the pair of
    [seen] and [unique]. *)
Definition keepUnseenLink (state : list jsstring * list PaperRelationship)
           (rel : PaperRelationship)
  : list jsstring * list PaperRelationship :=
  let '(seen, unique) := state in
  if negb (seenHas seen (key1 rel)) && negb (seenHas seen (key2 rel))
  then (seen ++ [key1 rel], unique ++ [rel])
  else (seen, unique).

Definition deduplicateRelationships (relationships : list PaperRelationship)
  : list PaperRelationship :=
  snd (fold_left keepUnseenLink relationships ([], [])).

Section WithHost.
Context {host : Host}.

(** [buildAuthorIndex]: the key is [author.toLowerCase().trim()]. *)
Definition buildAuthorIndex (papers : list Paper) : Index :=
  fold_left
    (fun authorIndex paper =>
       fold_left
         (fun authorIndex author =>
            indexPush authorIndex (trim (toLowerCase author)) paper)
         (authors paper) authorIndex)
    papers [].

(** [paper.authors.filter(a => otherPaper.authors.some(oa =>
    oa.toLowerCase() === a.toLowerCase()))] *)
Definition sharedAuthorsOf (paper otherPaper : Paper) : list jsstring :=
  filter (fun a =>
            existsb (fun oa => jsstring_eqb (toLowerCase oa) (toLowerCase a))
                    (authors otherPaper))
         (authors paper).

(** The body of the loop over the authors of [paper] in
    [findAuthorRelationships]: the index is read under
    [author.toLowerCase()], without [trim]. *)
Definition authorLinks (authorIndex : Index) (paper : Paper)
           (author : jsstring) : list PaperRelationship :=
  let authorPapers :=
    match indexGet authorIndex (toLowerCase author) with
    | Some found => found
    | None => []
    end in
  flat_map
    (fun otherPaper =>
       if negb (jsstring_eqb (id paper) (id otherPaper)) then
         let sharedAuthors := sharedAuthorsOf paper otherPaper in
         if (0 <? length sharedAuthors)%nat then
           [mkRelationship (id paper) (id otherPaper) Author
              (Qmin (9 # 10)
                    (inject_Z (Z.of_nat (length sharedAuthors)) * (3 # 10)))
              (AuthorOverlap sharedAuthors)]
         else []
       else [])
    authorPapers.

Definition findAuthorRelationships (papers : list Paper) (authorIndex : Index)
  : list PaperRelationship :=
  flat_map (fun paper => flat_map (authorLinks authorIndex paper)
                                  (authors paper))
           papers.

End WithHost.

End Relationships.

(** Notions used to state the properties of the relationship analysis:
    two relationships link the same two papers, in either direction,
    with the same type; an id is plain when it holds no hyphen. *)
Module RelationSpec.
Import JS Relationships.

Definition sameLink (rel other : PaperRelationship) : Prop :=
  relationshipType rel = relationshipType other /\
  ((sourceId rel = sourceId other /\ targetId rel = targetId other) \/
   (sourceId rel = targetId other /\ targetId rel = sourceId other)).

Definition plainId (paperId : jsstring) : Prop := ~ In 45%Z paperId.

Definition plainIds (rel : PaperRelationship) : Prop :=
  plainId (sourceId rel) /\ plainId (targetId rel).

(** The keys of an index are trimmed, and it holds only papers of
    [known]. *)
Definition indexed (known : list Paper) (index : Index) : Prop :=
  forall k found,
    In (k, found) index ->
    trim k = k /\ forall p, In p found -> In p known.

End RelationSpec.

(** ** Concrete hosts, services and inputs used by the examples *)

Module Fixtures.
Import JS.

(** Case mapping of the ASCII letters; it agrees with
    [String.prototype.toLowerCase] on ASCII text. *)
Definition asciiLower (s : jsstring) : jsstring :=
  map (fun c => if isUpper c then (c + 32)%Z else c) s.

(** A parser that knows the three JSON literals and rejects every other
    text; the examples only give it replies that are not JSON. *)
Definition literalJson (s : jsstring) : Result json :=
  if jsstring_eqb s (lit "null") then Return JNull
  else if jsstring_eqb s (lit "true") then Return (JBool true)
  else if jsstring_eqb s (lit "false") then Return (JBool false)
  else Throw "SyntaxError".

#[export] Instance asciiHost : Host := {|
  toLowerCase := asciiLower;
  JSON_parse := literalJson;
  Buffer_from_base64 := fun _ => [];
  Buffer_toString_utf8 := fun b => b
|}.

(** A service whose connection never came up. *)
Definition downService : Neo4j.Neo4jService := Neo4j.mkService None false.

(** A generator without API key, and one that answers every prompt with
    the two letters [ok]. *)
Definition noKeyGroq : GraphRAG.Groq :=
  GraphRAG.mkGroq false (fun _ => Throw "unreachable").
Definition shortReplyGroq : GraphRAG.Groq :=
  GraphRAG.mkGroq true (fun _ => Return (Some (lit "ok"))).

(** Papers for the merge examples. *)
Definition paperWith (name : string) (sim rel conn : option Q) : Neo4j.Paper :=
  Neo4j.mkPaper (lit name) (lit name) None None sim rel conn.

Definition paperA_semantic : Neo4j.Paper := paperWith "A" (Some 1) None None.
Definition paperA_keyword : Neo4j.Paper := paperWith "A" None (Some 1) None.
Definition paperB : Neo4j.Paper := paperWith "B" None (Some 2) None.
Definition paperC : Neo4j.Paper :=
  paperWith "C" (Some (9 # 10)) (Some 3) (Some 1).

(** A store where the semantic search finds A and C, the keyword search
    B and C, and the graph search C. *)
Definition threeStrategySession : Neo4j.Session :=
  Neo4j.mkSession
    (fun q =>
       match q with
       | Neo4j.SemanticQuery _ _ _ => Return [paperA_semantic; paperC]
       | Neo4j.KeywordQuery _ _ _ => Return [paperB; paperC]
       | Neo4j.GraphQuery _ _ _ => Return [paperC]
       end)
    (fun _ => Return [])
    (Return tt).

Definition threeStrategyService : Neo4j.Neo4jService :=
  Neo4j.mkService (Some (Neo4j.mkDriver (Return threeStrategySession))) true.

(** A store whose keyword query returns paper A in two rows, one for
    each topic the paper belongs to. *)
Definition twoTopicSession : Neo4j.Session :=
  Neo4j.mkSession
    (fun q =>
       match q with
       | Neo4j.KeywordQuery _ _ _ => Return [paperA_keyword; paperA_keyword]
       | _ => Return []
       end)
    (fun _ => Return [])
    (Return tt).

Definition twoTopicService : Neo4j.Neo4jService :=
  Neo4j.mkService (Some (Neo4j.mkDriver (Return twoTopicSession))) true.

(** What [hybridSearch] returns on that store. *)
Definition mergedTwice : Neo4j.CombinedResult :=
  Neo4j.mkCombined paperA_keyword
    (1 * (3 # 10) + 1 * (3 # 10) + (1 # 10) * inject_Z (2 - 1))
    [Neo4j.keyword; Neo4j.keyword].

Definition twoTopicResults : Neo4j.HybridResults :=
  Neo4j.mkHybrid [] [paperA_keyword; paperA_keyword] [] [mergedTwice].

(** The merged record of paper C when all three strategies found it. *)
Definition mergedC : Neo4j.CombinedResult :=
  Neo4j.mkCombined paperC
    ((9 # 10) * (5 # 10) + 3 * (3 # 10) + 1 * (2 # 10)
     + (1 # 10) * inject_Z (3 - 1))
    [Neo4j.semantic; Neo4j.keyword; Neo4j.graph].

(** A store that holds one paper with 1000 citations, found by its
    title; the paper has no stored content. *)
Definition citedPaper : Neo4j.Paper :=
  Neo4j.mkPaper (lit "P1") (lit "Attention is all you need") None
                (Some 1000%Z) None (Some 2) None.

Definition citedSession : Neo4j.Session :=
  Neo4j.mkSession
    (fun q =>
       match q with
       | Neo4j.KeywordQuery _ _ _ => Return [citedPaper]
       | _ => Return []
       end)
    (fun _ => Return [Neo4j.mkContentRecord None None false
                                            Neo4j.NullInteger])
    (Return tt).

Definition citedService : Neo4j.Neo4jService :=
  Neo4j.mkService (Some (Neo4j.mkDriver (Return citedSession))) true.

Definition attentionStep : AdvancedRAG.PlanStep :=
  AdvancedRAG.mkPlanStep (lit "attention") (lit "Direct investigation of the main question").

(** The finding and the passage that the step above works with. *)
Definition citedFinding : GraphRAG.PaperWithContent :=
  GraphRAG.mkWithContent
    (Neo4j.mkCombined citedPaper (2 * (3 # 10)) [Neo4j.keyword])
    Neo4j.NoContent None false.

Definition citedPassage : GraphRAG.Passage :=
  GraphRAG.mkPassage (lit "P1") (lit "Attention is all you need")
                     (lit "Content not available") (5 # 10)
                     GraphRAG.from_abstract.

(** Executed steps that differ only in their confidence. *)
Definition stepWith (c : Z) : AdvancedRAG.ResearchStep :=
  AdvancedRAG.mkStep 0 [] [] [] c (JArr []).

End Fixtures.

(** ** Further concrete inputs *)

Module Samples.
Import JS.

(** A paper stored with a plain text of 36 characters as its full
    content. *)
Definition shortTextFinding : GraphRAG.PaperWithContent :=
  GraphRAG.mkWithContent
    (Neo4j.mkCombined Fixtures.paperB (2 * (3 # 10)) [Neo4j.keyword])
    (Neo4j.Text (lit "Graph neural networks, a short note."))
    (Some Neo4j.textPlain) true.

(** A paper that only the semantic search found, with similarity 1 and
    no stored content. *)
Definition semanticFinding : GraphRAG.PaperWithContent :=
  GraphRAG.mkWithContent
    (Neo4j.mkCombined Fixtures.paperA_semantic (1 * (5 # 10)) [Neo4j.semantic])
    Neo4j.NoContent None false.

(** A host whose parser reads every reply as the object
    [{"entities": "graphs"}]: the entities are a string, not an array. *)
Definition textEntitiesHost : Host := {|
  toLowerCase := Fixtures.asciiLower;
  JSON_parse :=
    fun _ => Return (JObj [(lit "entities", JStr (lit "graphs"))]);
  Buffer_from_base64 := fun _ => [];
  Buffer_toString_utf8 := fun b => b
|}.

(** A generator that answers every prompt with the JSON text [null]. *)
Definition nullReplyGroq : GraphRAG.Groq :=
  GraphRAG.mkGroq true (fun _ => Return (Some (lit "null"))).

(** The research step that [executeResearchStep] returns for the
    question [attention] on the store whose keyword query yields paper A
    twice, with a generator that has no API key: one finding, whose
    content look-up fails, and the confidence 6 + 0 + 15 + 0. *)
Definition twoTopicFinding : GraphRAG.PaperWithContent :=
  GraphRAG.mkWithContent Fixtures.mergedTwice (Neo4j.Text [])
                         (Some Neo4j.textPlain) false.

Definition twoTopicStep : AdvancedRAG.ResearchStep :=
  AdvancedRAG.mkStep 0 (lit "attention")
    (lit "Direct investigation of the main question")
    [twoTopicFinding] 21
    (JArr [JStr (lit "Continue investigation with additional sources")]).

(** A cache for one entry that holds one unexpired entry. *)
Definition fullCache : Cache.InstantCache jsstring :=
  Cache.mkCache [(lit "a", Cache.mkItem (lit "1") 0 (60 * 60 * 1000))] 1.

(** Two papers on different subjects; neither title has a [w] or an
    [s]. *)
Definition deepLearningPaper : PaperSearch.RealPaper :=
  PaperSearch.mkRealPaper (lit "2101.00001") (lit "Deep Learning")
    [lit "Ada Author"] (Some (lit "On deep learning.")) 2021 12
    (lit "arXiv Preprint") (lit "http://arxiv.org/abs/2101.00001") [].

Definition graphTheoryPaper : PaperSearch.RealPaper :=
  PaperSearch.mkRealPaper (lit "2101.00002") (lit "Graph Theory")
    [lit "Bob Author"] (Some (lit "On graph theory.")) 2020 7
    (lit "arXiv Preprint") (lit "http://arxiv.org/abs/2101.00002") [].

End Samples.

(** ** Proof automation *)

(** Distinct ids of a list of concrete papers, once the ids are
    evaluated. *)
Ltac distinct_ids :=
  repeat (constructor; [cbn [In]; intuition discriminate|]); constructor.

(** * Verification *)

(** ** The embedding: indices and totality *)

Section EmbeddingBounds.
Import JS Embedding.
Local Open Scope Z_scope.

Lemma enhancedHash_nonneg (str : jsstring) : 0 <= enhancedHash str.
Proof. unfold enhancedHash. apply Z.abs_nonneg. Qed.

Lemma ToInt32_range (x : Z) : - 2 ^ 31 <= ToInt32 x < 2 ^ 31.
Proof.
  unfold ToInt32, ToUint32.
  pose proof (Z.mod_pos_bound x (2 ^ 32) ltac:(lia)).
  destruct (2 ^ 31 <=? x mod 2 ^ 32) eqn:E.
  - apply Z.leb_le in E. lia.
  - apply Z.leb_gt in E. lia.
Qed.

Lemma enhancedHash_le (str : jsstring) : enhancedHash str <= 2 ^ 31.
Proof.
  unfold enhancedHash.
  match goal with |- Z.abs (xor ?a ?b) <= _ => generalize a, b end.
  intros a b. unfold xor.
  pose proof (ToInt32_range (Z.lxor (ToInt32 a) (ToInt32 b))). lia.
Qed.

(** The running value of the hash loop is a number, not a 32-bit
    integer; it stays exactly representable (below 2^53 in magnitude)
    for every string shorter than 2^21 code units, so that the integer
    arithmetic of [hashStep] is the arithmetic of the code there. *)
Lemma hashLoop_bound (str : jsstring) :
  Forall (fun c => 0 <= c < 2 ^ 16) str ->
  forall h,
    Z.abs (fold_left hashStep str h)
    <= Z.abs h + Z.of_nat (length str) * (2 ^ 31 + 2 ^ 16).
Proof.
  induction 1 as [|c str Hc _ IH]; intros h; cbn [fold_left length].
  - lia.
  - specialize (IH (hashStep h c)).
    assert (Hstep : Z.abs (hashStep h c) <= Z.abs h + (2 ^ 31 + 2 ^ 16)).
    { unfold hashStep, shl.
      pose proof (ToInt32_range (Z.shiftl (ToInt32 h) 5)). lia. }
    lia.
Qed.

Lemma hashLoop_exact (str : jsstring) :
  Forall (fun c => 0 <= c < 2 ^ 16) str ->
  Z.of_nat (length str) < 2 ^ 21 ->
  Z.abs (fold_left hashStep str 5381) < 2 ^ 53.
Proof.
  intros Hunits Hlen. pose proof (hashLoop_bound str Hunits 5381). lia.
Qed.

Lemma jsrem_range (h m : Z) : 0 <= h -> 0 < m -> 0 <= jsrem h m < m.
Proof. intros. unfold jsrem. apply Z.rem_bound_pos; lia. Qed.

Lemma tfLoop_range (maxF : Z) (entries : list (jsstring * Z)) :
  forall dimIndex, 0 <= dimIndex ->
    Forall (fun w => 0 <= writeIndex w < 256) (tfLoop maxF dimIndex entries).
Proof.
  induction entries as [|[word freq] rest IH]; intros d Hd; cbn [tfLoop].
  - constructor.
  - destruct (256 <=? d) eqn:E; [constructor|].
    apply Z.leb_gt in E.
    constructor; [|constructor].
    + cbn [writeIndex]. apply jsrem_range; lia.
    + cbn [writeIndex]. apply jsrem_range; [apply enhancedHash_nonneg | lia].
    + apply IH. lia.
Qed.

Lemma ngramLoop_range (ngrams : list jsstring) :
  forall index,
    Forall (fun w => 256 <= writeIndex w < 384) (ngramLoop index ngrams).
Proof.
  induction ngrams as [|ngram rest IH]; intros i; cbn [ngramLoop].
  - constructor.
  - destruct (128 <=? i); [apply IH|].
    constructor; [|apply IH].
    cbn [writeIndex]. pose proof (jsrem_range (enhancedHash ngram) 128 (enhancedHash_nonneg ngram) ltac:(lia)).
    lia.
Qed.

Lemma semanticLoop_range (features : list R) :
  forall index, 0 <= index ->
    Forall (fun w => 384 + index <= writeIndex w < 512) (semanticLoop index features).
Proof.
  induction features as [|v rest IH]; intros i Hi; cbn [semanticLoop].
  - constructor.
  - assert (Hrest : Forall (fun w => 384 + i <= writeIndex w < 512)
                           (semanticLoop (i + 1) rest)).
    { eapply Forall_impl; [|apply IH; lia]. cbv beta. intros; lia. }
    destruct (i <? 128) eqn:E; [|exact Hrest].
    apply Z.ltb_lt in E. constructor; [cbn [writeIndex]; lia | exact Hrest].
Qed.

Lemma setNth_length {A} (n : nat) (v : A) (l : list A) :
  length (setNth n v l) = length l.
Proof.
  revert n. induction l as [|x l IH]; intros [|n]; simpl; auto.
Qed.

Lemma nth_setNth {A} (l : list A) :
  forall (i j : nat) (v d : A),
    nth j (setNth i v l) d =
      if (Nat.eqb i j && Nat.ltb i (length l))%bool then v else nth j l d.
Proof.
  induction l as [|x l IH]; intros i j v d.
  - destruct i, j; simpl; rewrite ?andb_false_r; reflexivity.
  - destruct i, j; simpl; auto.
Qed.

Lemma applyWrite_length (e e' : list R) (w : Write) :
  applyWrite e w = Some e' -> length e' = length e.
Proof.
  unfold applyWrite.
  destruct ((0 <=? writeIndex w) && (writeIndex w <? Z.of_nat (length e)));
    [|discriminate].
  intros H. injection H as <-. destruct w; apply setNth_length.
Qed.

Lemma applyWrite_in_bounds (e : list R) (w : Write) :
  0 <= writeIndex w < Z.of_nat (length e) ->
  exists e', applyWrite e w = Some e'.
Proof.
  intros [H1 H2]. unfold applyWrite.
  apply Z.leb_le in H1. apply Z.ltb_lt in H2. rewrite H1, H2. simpl.
  eexists; reflexivity.
Qed.

Lemma applyWrites_length (ws : list Write) :
  forall e e', applyWrites e ws = Some e' -> length e' = length e.
Proof.
  induction ws as [|w ws IH]; simpl; intros e e' H.
  - now injection H as <-.
  - destruct (applyWrite e w) as [e1|] eqn:E; [|discriminate].
    rewrite (IH _ _ H). eapply applyWrite_length; eauto.
Qed.

Lemma applyWrites_total (ws : list Write) :
  forall e,
    Forall (fun w => 0 <= writeIndex w < Z.of_nat (length e)) ws ->
    exists e', applyWrites e ws = Some e'.
Proof.
  induction ws as [|w ws IH]; simpl; intros e H.
  - eexists; reflexivity.
  - inversion H as [|? ? Hw Hws]; subst.
    destruct (applyWrite_in_bounds e w Hw) as [e1 E]. rewrite E.
    apply IH. rewrite (applyWrite_length _ _ _ E). exact Hws.
Qed.

Lemma applyWrites_app (ws1 ws2 : list Write) :
  forall e,
    applyWrites e (ws1 ++ ws2) =
      match applyWrites e ws1 with
      | Some e1 => applyWrites e1 ws2
      | None => None
      end.
Proof.
  induction ws1 as [|w ws1 IH]; simpl; intros e; [reflexivity|].
  destruct (applyWrite e w); [apply IH | reflexivity].
Qed.

Context {host : Host}.

Lemma embeddingWrites_range (text : jsstring) (words : list jsstring) :
  Forall (fun w => 0 <= writeIndex w < 512) (embeddingWrites text words).
Proof.
  unfold embeddingWrites. rewrite !Forall_app. repeat split.
  - eapply Forall_impl; [|apply tfLoop_range; lia]. cbv beta; intros; lia.
  - eapply Forall_impl; [|apply ngramLoop_range]. cbv beta; intros; lia.
  - eapply Forall_impl; [|apply semanticLoop_range; lia]. cbv beta; intros; lia.
Qed.

Lemma repeat_length512 : length (repeat 0%R 512) = 512%nat.
Proof. apply repeat_length. Qed.

Lemma generateEnhancedEmbedding_total (text : jsstring) :
  exists v, generateEnhancedEmbedding text = Some v /\ length v = 512%nat.
Proof.
  unfold generateEnhancedEmbedding.
  destruct (isEmpty text || isEmpty (trim text)).
  { eexists; split; [reflexivity | apply repeat_length]. }
  destruct (isEmpty (tokenize text)).
  { eexists; split; [reflexivity | apply repeat_length]. }
  destruct (applyWrites_total (embeddingWrites text (tokenize text)) (repeat 0%R 512))
    as [e E].
  { rewrite repeat_length. apply embeddingWrites_range. }
  rewrite E. eexists; split; [reflexivity|].
  unfold normalize. rewrite length_map.
  rewrite (applyWrites_length _ _ _ E). apply repeat_length.
Qed.

(** C10.  [enhancedHash] is non-negative on every string, so every write
    of [generateEnhancedEmbedding] lands inside the 512-entry vector:
    the term-frequency writes in [0,256), the n-gram writes in [256,384)
    and the semantic-feature writes in [384,512); the computation never
    leaves the dense array and returns a vector of 512 entries. *)
Theorem embedding_writes_in_bounds (text : jsstring) :
  (forall str, 0 <= enhancedHash str) /\
  Forall (fun w => 0 <= writeIndex w < 256) (tfWrites (tokenize text)) /\
  Forall (fun w => 256 <= writeIndex w < 384) (ngramWrites (tokenize text)) /\
  Forall (fun w => 384 <= writeIndex w < 512)
         (semanticWrites (extractSemanticFeatures text (tokenize text))) /\
  exists v, generateEnhancedEmbedding text = Some v /\ length v = 512%nat.
Proof.
  split; [exact enhancedHash_nonneg|].
  split; [apply tfLoop_range; lia|].
  split; [apply ngramLoop_range|].
  split; [|apply generateEnhancedEmbedding_total].
  eapply Forall_impl; [|apply semanticLoop_range; lia]. cbv beta; intros; lia.
Qed.

End EmbeddingBounds.

(** ** The embedding: sums of squares *)

Section EmbeddingNorm.
Import JS Embedding.
Local Open Scope R_scope.

Lemma fold_squares_acc (l : list R) :
  forall a, fold_left (fun sum val => sum + val * val) l a = a + sumSquares l.
Proof.
  unfold sumSquares.
  induction l as [|x l IH]; intros a; simpl.
  - lra.
  - rewrite IH, (IH (0 + x * x)). lra.
Qed.

Lemma sumSquares_cons (x : R) (l : list R) :
  sumSquares (x :: l) = x * x + sumSquares l.
Proof.
  unfold sumSquares at 1. simpl. rewrite fold_squares_acc. lra.
Qed.

Lemma sumSquares_nonneg (l : list R) : 0 <= sumSquares l.
Proof.
  induction l as [|x l IH].
  - unfold sumSquares; simpl; lra.
  - rewrite sumSquares_cons. pose proof (Rle_0_sqr x). unfold Rsqr in *. lra.
Qed.

Lemma sumSquares_ge_nth (l : list R) :
  forall i, nth i l 0 * nth i l 0 <= sumSquares l.
Proof.
  induction l as [|x l IH]; intros [|i]; simpl.
  - unfold sumSquares; simpl; lra.
  - unfold sumSquares; simpl; lra.
  - rewrite sumSquares_cons. pose proof (sumSquares_nonneg l). lra.
  - rewrite sumSquares_cons. specialize (IH i).
    pose proof (Rle_0_sqr x). unfold Rsqr in *. lra.
Qed.

Lemma sumSquares_zeros (n : nat) : sumSquares (repeat 0 n) = 0.
Proof.
  induction n as [|n IH]; simpl.
  - reflexivity.
  - rewrite sumSquares_cons, IH. lra.
Qed.

Lemma sumSquares_scaled (m : R) (l : list R) :
  m <> 0 ->
  sumSquares (map (fun val => val / m) l) = sumSquares l / (m * m).
Proof.
  intros Hm. induction l as [|x l IH]; simpl.
  - unfold sumSquares; simpl. field. exact Hm.
  - rewrite !sumSquares_cons, IH. field. exact Hm.
Qed.

(** A vector of positive magnitude is normalized to a unit vector. *)
Lemma normalize_unit (e : list R) :
  0 < sumSquares e -> sqrt (sumSquares (normalize e)) = 1.
Proof.
  intros Hpos. unfold normalize.
  assert (Hm : 0 < sqrt (sumSquares e)) by now apply sqrt_lt_R0.
  destruct (Rgt_dec (sqrt (sumSquares e)) 0) as [_|Hn]; [|exfalso; apply Hn; lra].
  rewrite sumSquares_scaled by lra.
  rewrite sqrt_sqrt by lra.
  replace (sumSquares e / sumSquares e) with 1 by (field; lra).
  apply sqrt_1.
Qed.

(** A vector of zero magnitude is mapped to zeros, without a division. *)
Lemma normalize_zero (e : list R) :
  sumSquares e = 0 -> normalize e = repeat 0 (length e).
Proof.
  intros H0. unfold normalize. rewrite H0, sqrt_0.
  destruct (Rgt_dec 0 0) as [H|_]; [lra|].
  induction e as [|x e IH]; simpl; [reflexivity|]. f_equal.
  clear. induction e; simpl; congruence.
Qed.

End EmbeddingNorm.

(** ** The embedding: the semantic block *)

Section EmbeddingValue.
Import JS Embedding.

Lemma applyWrite_untouched (e e' : list R) (w : Write) (i : Z) :
  applyWrite e w = Some e' -> (0 <= i)%Z -> writeIndex w <> i ->
  nth (Z.to_nat i) e' 0%R = nth (Z.to_nat i) e 0%R.
Proof.
  unfold applyWrite. intros H Hi Hne.
  destruct ((0 <=? writeIndex w)%Z && (writeIndex w <? Z.of_nat (length e))%Z)
    eqn:Hb; [|discriminate].
  apply andb_true_iff in Hb. destruct Hb as [Hb _]. apply Z.leb_le in Hb.
  assert (Hn : Nat.eqb (Z.to_nat (writeIndex w)) (Z.to_nat i) = false).
  { apply Nat.eqb_neq. lia. }
  injection H as <-.
  destruct w; cbn [writeIndex] in *; rewrite nth_setNth, Hn; reflexivity.
Qed.

Lemma applyWrites_untouched (ws : list Write) (i : Z) :
  forall e e',
    applyWrites e ws = Some e' -> (0 <= i)%Z ->
    Forall (fun w => writeIndex w <> i) ws ->
    nth (Z.to_nat i) e' 0%R = nth (Z.to_nat i) e 0%R.
Proof.
  induction ws as [|w ws IH]; cbn [applyWrites]; intros e e' H Hi Hall.
  - now injection H as <-.
  - inversion Hall as [|? ? Hw Hws]; subst.
    destruct (applyWrite e w) as [e1|] eqn:E; [|discriminate].
    rewrite (IH _ _ H Hi Hws). eapply applyWrite_untouched; eauto.
Qed.

Lemma applyWrite_SetAt_nth (e e' : list R) (i : Z) (v : R) :
  applyWrite e (SetAt i v) = Some e' -> nth (Z.to_nat i) e' 0%R = v.
Proof.
  unfold applyWrite. cbn [writeIndex].
  destruct ((0 <=? i)%Z && (i <? Z.of_nat (length e))%Z) eqn:Hb; [|discriminate].
  intros H. injection H as <-.
  apply andb_true_iff in Hb. destruct Hb as [Hb1 Hb2].
  apply Z.leb_le in Hb1. apply Z.ltb_lt in Hb2.
  rewrite nth_setNth, Nat.eqb_refl.
  assert (Hl : Nat.ltb (Z.to_nat i) (length e) = true) by (apply Nat.ltb_lt; lia).
  rewrite Hl. reflexivity.
Qed.

(** After the semantic block, entry [384 + k + j] holds feature [j]. *)
Lemma semanticLoop_final (features : list R) :
  forall (k : Z) (e e' : list R) (j : nat),
    applyWrites e (semanticLoop k features) = Some e' ->
    (0 <= k)%Z -> (j < length features)%nat -> (k + Z.of_nat j < 128)%Z ->
    nth (Z.to_nat (384 + k + Z.of_nat j)) e' 0%R = nth j features 0%R.
Proof.
  induction features as [|v rest IH]; intros k e e' j H Hk Hj Hlt;
    [simpl in Hj; lia|].
  cbn [semanticLoop] in H.
  destruct j as [|j].
  - assert (E : (k <? 128)%Z = true) by (apply Z.ltb_lt; lia).
    rewrite E in H. cbn [applyWrites] in H.
    destruct (applyWrite e (SetAt (384 + k) v)) as [e1|] eqn:E1; [|discriminate].
    replace (384 + k + Z.of_nat 0)%Z with (384 + k)%Z by lia.
    rewrite (applyWrites_untouched _ (384 + k)%Z _ _ H ltac:(lia)).
    + apply (applyWrite_SetAt_nth _ _ _ _ E1).
    + eapply Forall_impl; [|apply (semanticLoop_range rest (k + 1)); lia].
      cbv beta. intros; lia.
  - simpl in Hj.
    replace (384 + k + Z.of_nat (S j))%Z with (384 + (k + 1) + Z.of_nat j)%Z by lia.
    cbn [nth].
    destruct (k <? 128)%Z.
    + cbn [applyWrites] in H.
      destruct (applyWrite e (SetAt (384 + k) v)) as [e1|]; [|discriminate].
      apply (IH (k + 1)%Z e1 e' j H); lia.
    + apply (IH (k + 1)%Z e e' j H); lia.
Qed.

Lemma storeNext_length (st : list R * nat) (v : R) :
  length (fst (storeNext st v)) = length (fst st).
Proof.
  destruct st as [features featureIndex]. unfold storeNext.
  destruct (featureIndex <? length features)%nat; cbn [fst]; [apply setNth_length|reflexivity].
Qed.

Lemma extractSemanticFeatures_avg (text : jsstring) (words : list jsstring) :
  nth 5 (extractSemanticFeatures text words) 0%R =
    (IZR (totalLength words) / IZR (wordCount words) / 10)%R.
Proof. reflexivity. Qed.

Lemma extractSemanticFeatures_length (text : jsstring) (words : list jsstring) :
  length (extractSemanticFeatures text words) = 128%nat.
Proof. reflexivity. Qed.

Lemma totalLength_acc (words : list jsstring) :
  forall a : Z,
    (a <= fold_left (fun sum w => sum + Z.of_nat (length w)) words a)%Z.
Proof.
  induction words as [|w ws IH]; intros a; cbn [fold_left]; [lia|].
  etransitivity; [|apply IH]. lia.
Qed.

Lemma totalLength_pos (w : jsstring) (ws : list jsstring) :
  (0 < length w)%nat -> (0 < totalLength (w :: ws))%Z.
Proof.
  intros Hw. unfold totalLength. cbn [fold_left].
  pose proof (totalLength_acc ws (0 + Z.of_nat (length w))). lia.
Qed.

Context {host : Host}.

Lemma tokenize_long (text : jsstring) :
  Forall (fun w => (2 < length w)%nat) (tokenize text).
Proof.
  unfold tokenize. apply Forall_forall. intros w Hw.
  apply filter_In in Hw. destruct Hw as [_ Hw]. now apply Nat.ltb_lt in Hw.
Qed.

End EmbeddingValue.

(** ** The embedding: norm and determinism *)

Section EmbeddingClaims.
Import JS Embedding.
Context {host : Host}.

Lemma semantic_entry (features : list R) (e1 e : list R) :
  applyWrites e1 (semanticWrites features) = Some e ->
  (5 < length features)%nat ->
  nth (Z.to_nat 389) e 0%R = nth 5 features 0%R.
Proof.
  intros H Hl.
  apply (semanticLoop_final features 0 e1 e 5 H); [lia|exact Hl|lia].
Qed.

Lemma average_length_entry (text : jsstring) (e : list R) :
  applyWrites (repeat 0%R 512) (embeddingWrites text (tokenize text)) = Some e ->
  nth (Z.to_nat 389) e 0%R =
    (IZR (totalLength (tokenize text)) / IZR (wordCount (tokenize text)) / 10)%R.
Proof.
  intros H.
  unfold embeddingWrites in H. rewrite app_assoc, applyWrites_app in H.
  destruct (applyWrites (repeat 0%R 512)
              (tfWrites (tokenize text) ++ ngramWrites (tokenize text)))
    as [e1|]; [|discriminate].
  rewrite (semantic_entry _ _ _ H).
  - apply extractSemanticFeatures_avg.
  - rewrite extractSemanticFeatures_length. lia.
Qed.

(** The accumulated vector of a text with at least one word has a
    positive magnitude: its entry 389 is a tenth of the average word
    length. *)
Lemma accumulated_positive (text : jsstring) (e : list R) :
  tokenize text <> [] ->
  applyWrites (repeat 0%R 512) (embeddingWrites text (tokenize text)) = Some e ->
  (0 < sumSquares e)%R.
Proof.
  intros Hwords H.
  pose proof (sumSquares_ge_nth e (Z.to_nat 389)) as Hge.
  rewrite (average_length_entry text e H) in Hge.
  destruct (tokenize text) as [|w ws] eqn:Etok; [congruence|].
  assert (Hlen : (0 < totalLength (w :: ws))%Z).
  { apply totalLength_pos. pose proof (tokenize_long text) as Hl.
    rewrite Etok in Hl. inversion Hl; subst. lia. }
  assert (Hcount : (0 < wordCount (w :: ws))%Z) by (unfold wordCount; lia).
  apply IZR_lt in Hlen, Hcount.
  set (a := IZR (totalLength (w :: ws))) in *.
  set (c := IZR (wordCount (w :: ws))) in *.
  assert (Hq : (0 < a / c / 10)%R).
  { apply Rdiv_lt_0_compat; [apply Rdiv_lt_0_compat; assumption | lra]. }
  nra.
Qed.

Lemma blank_text_zero (text : jsstring) :
  isEmpty text || isEmpty (trim text) = true ->
  generateEnhancedEmbedding text = Some (repeat 0%R 512).
Proof. unfold generateEnhancedEmbedding. intros ->. reflexivity. Qed.

Lemma no_words_zero (text : jsstring) :
  tokenize text = [] ->
  generateEnhancedEmbedding text = Some (repeat 0%R 512).
Proof.
  unfold generateEnhancedEmbedding. intros ->.
  destruct (isEmpty text || isEmpty (trim text)); reflexivity.
Qed.

Lemma words_unit (text : jsstring) :
  isEmpty text || isEmpty (trim text) = false -> tokenize text <> [] ->
  exists v, generateEnhancedEmbedding text = Some v /\
            length v = 512%nat /\ sqrt (sumSquares v) = 1%R.
Proof.
  unfold generateEnhancedEmbedding. intros -> Hwords.
  destruct (tokenize text) as [|w ws] eqn:Etok; [congruence|].
  cbn [isEmpty]. rewrite <- Etok in *.
  destruct (applyWrites_total (embeddingWrites text (tokenize text)) (repeat 0%R 512))
    as [e E].
  { rewrite repeat_length. apply embeddingWrites_range. }
  rewrite E. exists (normalize e). split; [reflexivity|]. split.
  - unfold normalize. rewrite length_map, (applyWrites_length _ _ _ E).
    apply repeat_length.
  - apply normalize_unit. eapply accumulated_positive; eauto.
Qed.

(** C3 (amended).  For an empty or white-space-only text, and for any
    text that cleaning and tokenizing leaves without a word of more than
    two characters, [generateEnhancedEmbedding] returns the all-zero
    vector of dimension 512; for every other text the vector has 512
    entries and L2 norm 1 (in exact real arithmetic); and a vector of
    zero magnitude is normalized to zeros without a division. *)
Theorem enhanced_embedding_norm (text : jsstring) :
  (isEmpty text || isEmpty (trim text) = true ->
   generateEnhancedEmbedding text = Some (repeat 0%R 512)) /\
  (tokenize text = [] ->
   generateEnhancedEmbedding text = Some (repeat 0%R 512)) /\
  (isEmpty text || isEmpty (trim text) = false -> tokenize text <> [] ->
   exists v, generateEnhancedEmbedding text = Some v /\
             length v = 512%nat /\ sqrt (sumSquares v) = 1%R) /\
  (forall e, sumSquares e = 0%R -> normalize e = repeat 0%R (length e)).
Proof.
  split; [apply blank_text_zero|].
  split; [apply no_words_zero|].
  split; [apply words_unit|apply normalize_zero].
Qed.

End EmbeddingClaims.

Section EmbeddingExamples.
Import JS Embedding Fixtures.

(** C3, witness: the text [www.example.com] keeps the word [www]. *)
Lemma enhanced_embedding_norm_witness :
  exists v, generateEnhancedEmbedding (lit "www.example.com") = Some v /\
            length v = 512%nat /\ sqrt (sumSquares v) = 1%R.
Proof.
  apply (enhanced_embedding_norm (lit "www.example.com")).
  - vm_compute. reflexivity.
  - assert (E : tokenize (lit "www.example.com") = [lit "www"])
      by (vm_compute; reflexivity).
    rewrite E. discriminate.
Defined.

(** C3, counterexample: the text [hi] is neither empty nor blank, yet it
    has no word of more than two characters and its embedding is the
    zero vector, of norm 0. *)
Lemma short_words_give_zero_embedding :
  ~ (forall text : jsstring,
        isEmpty text || isEmpty (trim text) = false ->
        exists v, generateEnhancedEmbedding text = Some v /\
                  sqrt (sumSquares v) = 1%R).
Proof.
  intros Hclaim.
  destruct (Hclaim (lit "hi")) as (v & Hv & Hnorm); [vm_compute; reflexivity|].
  rewrite no_words_zero in Hv by (vm_compute; reflexivity).
  assert (Ev : v = repeat 0%R 512) by congruence.
  rewrite Ev, sumSquares_zeros, sqrt_0 in Hnorm. lra.
Qed.

(** The two regexes of the tokenizer are written with doubled
    backslashes, so the character class keeps the backslash, [w] and [s]
    only: of an ordinary sentence nothing is left but a lone [w], which
    the length filter drops, and the embedding is the zero vector. *)
Remark ordinary_sentence_has_no_words :
  tokenize (lit "hello world") = [] /\
  generateEnhancedEmbedding (lit "hello world") = Some (repeat 0%R 512).
Proof.
  assert (E : tokenize (lit "hello world") = []) by (vm_compute; reflexivity).
  split; [exact E|].
  apply no_words_zero. exact E.
Qed.

End EmbeddingExamples.

(** ** The merge: sorting and the result map *)

Section SortFacts.
Import JS.
Context {A : Type} (key : A -> Q).

Lemma insertDesc_perm (x : A) (l : list A) :
  Permutation (insertDesc key x l) (x :: l).
Proof.
  induction l as [|y l IH]; cbn [insertDesc]; [reflexivity|].
  destruct (Qle_bool (key y) (key x)); [reflexivity|].
  rewrite IH. apply perm_swap.
Qed.

Lemma sortDesc_perm (l : list A) : Permutation (sortDesc key l) l.
Proof.
  induction l as [|x l IH]; cbn [sortDesc fold_right]; [reflexivity|].
  rewrite insertDesc_perm. now constructor.
Qed.

Lemma insertDesc_sorted (x : A) (l : list A) :
  StronglySorted (descending key) l -> StronglySorted (descending key) (insertDesc key x l).
Proof.
  induction 1 as [|y l Hs IH Hy]; cbn [insertDesc].
  - repeat constructor.
  - destruct (Qle_bool (key y) (key x)) eqn:E.
    + apply Qle_bool_iff in E. constructor; [now constructor|].
      constructor; [exact E|].
      eapply Forall_impl; [|exact Hy]. unfold descending. intros z Hz.
      now apply Qle_trans with (key y).
    + constructor; [exact IH|].
      assert (Hxy : key x <= key y).
      { destruct (Qlt_le_dec (key x) (key y)) as [Hlt|Hle].
        - now apply Qlt_le_weak.
        - apply Qle_bool_iff in Hle. congruence. }
      eapply Permutation_Forall; [symmetry; apply insertDesc_perm|].
      now constructor.
Qed.

Lemma sortDesc_sorted (l : list A) : StronglySorted (descending key) (sortDesc key l).
Proof.
  induction l as [|x l IH]; cbn [sortDesc fold_right]; [constructor|].
  now apply insertDesc_sorted.
Qed.

End SortFacts.

Section ResultMap.
Import JS Neo4j MergeTrace.

Lemma jsstring_eqb_eq (a b : jsstring) : jsstring_eqb a b = true <-> a = b.
Proof.
  unfold jsstring_eqb. destruct (list_eq_dec Z.eq_dec a b); split; congruence.
Qed.

Lemma jsstring_eqb_refl (a : jsstring) : jsstring_eqb a a = true.
Proof. now apply jsstring_eqb_eq. Qed.

Lemma jsstring_eqb_neq (a b : jsstring) : jsstring_eqb a b = false <-> a <> b.
Proof.
  unfold jsstring_eqb. destruct (list_eq_dec Z.eq_dec a b); split; congruence.
Qed.

Lemma mapGet_mapSet (m : list CombinedResult) (k : jsstring) (v : CombinedResult) :
  paperId v = k ->
  forall k', mapGet (mapSet m k v) k' =
             if jsstring_eqb k k' then Some v else mapGet m k'.
Proof.
  intros Hv k'. induction m as [|e m IH]; cbn [mapSet mapGet].
  - now rewrite Hv.
  - destruct (jsstring_eqb (paperId e) k) eqn:Ek; cbn [mapGet].
    + apply jsstring_eqb_eq in Ek. rewrite Hv, Ek.
      destruct (jsstring_eqb k k'); reflexivity.
    + rewrite IH. destruct (jsstring_eqb (paperId e) k') eqn:Ek'; [|reflexivity].
      apply jsstring_eqb_eq in Ek'. subst k'.
      destruct (jsstring_eqb k (paperId e)) eqn:Ek2; [|reflexivity].
      apply jsstring_eqb_eq in Ek2. rewrite <- Ek2, jsstring_eqb_refl in Ek.
      discriminate.
Qed.

Lemma mapGet_Some (m : list CombinedResult) (k : jsstring) (e : CombinedResult) :
  mapGet m k = Some e -> In e m /\ paperId e = k.
Proof.
  induction m as [|x m IH]; cbn [mapGet]; [discriminate|].
  destruct (jsstring_eqb (paperId x) k) eqn:E.
  - intros H. injection H as <-. apply jsstring_eqb_eq in E. split; [now left|exact E].
  - intros H. destruct (IH H). split; [now right|assumption].
Qed.

Lemma mapGet_None (m : list CombinedResult) (k : jsstring) :
  mapGet m k = None <-> ~ In k (map paperId m).
Proof.
  induction m as [|x m IH]; cbn [mapGet map]; [tauto|].
  destruct (jsstring_eqb (paperId x) k) eqn:E.
  - apply jsstring_eqb_eq in E. split; [discriminate|]. intros H. exfalso. apply H. now left.
  - apply jsstring_eqb_neq in E. rewrite IH. cbn [In]. tauto.
Qed.

Lemma mapGet_In (m : list CombinedResult) :
  NoDup (map paperId m) -> forall e, In e m -> mapGet m (paperId e) = Some e.
Proof.
  induction m as [|x m IH]; cbn [map mapGet]; intros Hnd e Hin; [contradiction|].
  inversion Hnd as [|? ? Hx Hm]; subst.
  destruct Hin as [->|Hin]; [now rewrite jsstring_eqb_refl|].
  destruct (jsstring_eqb (paperId x) (paperId e)) eqn:E; [|now apply IH].
  apply jsstring_eqb_eq in E. exfalso. apply Hx. rewrite E. now apply in_map.
Qed.

Lemma mapSet_keys (m : list CombinedResult) (k : jsstring) (v : CombinedResult) :
  paperId v = k ->
  forall pid, In pid (map paperId (mapSet m k v)) <-> pid = k \/ In pid (map paperId m).
Proof.
  intros Hv pid. induction m as [|e m IH]; cbn [mapSet map In].
  - rewrite Hv. intuition.
  - destruct (jsstring_eqb (paperId e) k) eqn:Ek; cbn [map In].
    + apply jsstring_eqb_eq in Ek. rewrite Hv, Ek. intuition.
    + rewrite IH. intuition.
Qed.

Lemma mapSet_NoDup (m : list CombinedResult) (k : jsstring) (v : CombinedResult) :
  paperId v = k -> NoDup (map paperId m) -> NoDup (map paperId (mapSet m k v)).
Proof.
  intros Hv. induction m as [|e m IH]; cbn [mapSet map]; intros Hnd.
  - repeat constructor. intros [].
  - apply NoDup_cons_iff in Hnd. destruct Hnd as [He Hm].
    destruct (jsstring_eqb (paperId e) k) eqn:Ek; cbn [map].
    + apply jsstring_eqb_eq in Ek. rewrite Ek in He. rewrite Hv.
      now constructor.
    + apply jsstring_eqb_neq in Ek. constructor; [|now apply IH].
      rewrite mapSet_keys by exact Hv. intros [H|H]; auto.
Qed.

(** Looking up one id commutes with the loops. *)
Lemma mapGet_addSemantic (m : list CombinedResult) (p : Paper) (pid : jsstring) :
  mapGet (addSemantic m p) pid = semStep pid (mapGet m pid) p.
Proof. unfold addSemantic, semStep. now rewrite mapGet_mapSet. Qed.

Lemma mapGet_addOther (s : Strategy) (m : list CombinedResult) (p : Paper)
      (pid : jsstring) :
  mapGet (addOther s m p) pid = otherStep s pid (mapGet m pid) p.
Proof.
  unfold addOther, otherStep.
  destruct (mapGet m (id p)) as [existing|] eqn:E.
  - apply mapGet_Some in E as Hex. destruct Hex as [_ Hid].
    rewrite mapGet_mapSet by exact Hid.
    destruct (jsstring_eqb (id p) pid) eqn:Ep; [|reflexivity].
    apply jsstring_eqb_eq in Ep. subst pid. now rewrite E.
  - rewrite mapGet_mapSet by reflexivity.
    destruct (jsstring_eqb (id p) pid) eqn:Ep; [|reflexivity].
    apply jsstring_eqb_eq in Ep. subst pid. now rewrite E.
Qed.

Lemma addSemantic_NoDup (m : list CombinedResult) (p : Paper) :
  NoDup (map paperId m) -> NoDup (map paperId (addSemantic m p)).
Proof. now apply mapSet_NoDup. Qed.

Lemma addOther_NoDup (s : Strategy) (m : list CombinedResult) (p : Paper) :
  NoDup (map paperId m) -> NoDup (map paperId (addOther s m p)).
Proof.
  unfold addOther. destruct (mapGet m (id p)) as [existing|] eqn:E.
  - apply mapGet_Some in E. destruct E as [_ Hid]. now apply mapSet_NoDup.
  - now apply mapSet_NoDup.
Qed.

Lemma fold_NoDup (f : list CombinedResult -> Paper -> list CombinedResult) :
  (forall m p, NoDup (map paperId m) -> NoDup (map paperId (f m p))) ->
  forall l m, NoDup (map paperId m) -> NoDup (map paperId (fold_left f l m)).
Proof.
  intros Hf. induction l as [|p l IH]; cbn [fold_left]; intros m Hm; auto.
Qed.

Lemma fold_mapGet (f : list CombinedResult -> Paper -> list CombinedResult)
      (g : option CombinedResult -> Paper -> option CombinedResult) (pid : jsstring) :
  (forall m p, mapGet (f m p) pid = g (mapGet m pid) p) ->
  forall l m, mapGet (fold_left f l m) pid = fold_left g l (mapGet m pid).
Proof.
  intros Hf. induction l as [|p l IH]; cbn [fold_left]; intros m; [reflexivity|].
  now rewrite IH, Hf.
Qed.

Lemma resultMap_NoDup (sem kw gr : list Paper) :
  NoDup (map paperId (resultMapOf sem kw gr)).
Proof.
  unfold resultMapOf.
  apply fold_NoDup; [apply addOther_NoDup|].
  apply fold_NoDup; [apply addOther_NoDup|].
  apply fold_NoDup; [apply addSemantic_NoDup|]. constructor.
Qed.

Lemma resultMap_track (sem kw gr : list Paper) (pid : jsstring) :
  mapGet (resultMapOf sem kw gr) pid = track pid sem kw gr.
Proof.
  unfold resultMapOf, track.
  rewrite (fold_mapGet (addOther graph) (otherStep graph pid))
    by (intros; apply mapGet_addOther).
  rewrite (fold_mapGet (addOther keyword) (otherStep keyword pid))
    by (intros; apply mapGet_addOther).
  rewrite (fold_mapGet addSemantic (semStep pid))
    by (intros; apply mapGet_addSemantic).
  reflexivity.
Qed.

End ResultMap.

(** ** The merge: one paper through the loops *)

Section TraceFacts.
Import JS Neo4j MergeTrace HybridSpec.

Lemma weight_pos (s : Strategy) : 0 < weight s.
Proof. destruct s; reflexivity. Qed.

Lemma otherStep_measure (s : Strategy) (pid : jsstring)
      (st : option CombinedResult) (p : Paper) :
  scoreOf (otherStep s pid st p) == scoreOf st + total s pid [p] /\
  countOf (otherStep s pid st p) = (countOf st + occurrences pid [p])%nat.
Proof.
  unfold otherStep. cbn [total occurrences].
  destruct (jsstring_eqb (id p) pid); destruct st as [e|]; cbn [scoreOf countOf combinedScore sources];
    split; try ring; try reflexivity.
  rewrite length_app. cbn [length]. lia.
Qed.

Lemma fold_otherStep_measure (s : Strategy) (pid : jsstring) (l : list Paper) :
  forall st,
    scoreOf (fold_left (otherStep s pid) l st) == scoreOf st + total s pid l /\
    countOf (fold_left (otherStep s pid) l st) = (countOf st + occurrences pid l)%nat.
Proof.
  induction l as [|p l IH]; intros st; cbn [fold_left].
  - cbn [total occurrences]. split; [Lqa.lra|lia].
  - destruct (IH (otherStep s pid st p)) as [H1 H2].
    destruct (otherStep_measure s pid st p) as [H3 H4].
    cbn [total occurrences] in *. split; [Lqa.lra|lia].
Qed.

Lemma occurrences_zero (pid : jsstring) (l : list Paper) :
  occurrences pid l = 0%nat <-> ~ In pid (map id l).
Proof.
  induction l as [|p l IH]; cbn [occurrences map In]; [tauto|].
  destruct (jsstring_eqb (id p) pid) eqn:E.
  - apply jsstring_eqb_eq in E. split; [lia|]. intros H. exfalso. apply H. now left.
  - apply jsstring_eqb_neq in E. cbn [Nat.add]. rewrite IH. tauto.
Qed.

Lemma fold_otherStep_absent (s : Strategy) (pid : jsstring) (l : list Paper) :
  occurrences pid l = 0%nat ->
  forall st, fold_left (otherStep s pid) l st = st.
Proof.
  induction l as [|p l IH]; cbn [occurrences fold_left]; intros H st; [reflexivity|].
  unfold otherStep at 2.
  destruct (jsstring_eqb (id p) pid); [lia|]. now apply IH.
Qed.

Lemma fold_semStep_absent (pid : jsstring) (l : list Paper) :
  occurrences pid l = 0%nat ->
  forall st, fold_left (semStep pid) l st = st.
Proof.
  induction l as [|p l IH]; cbn [occurrences fold_left]; intros H st; [reflexivity|].
  unfold semStep at 2.
  destruct (jsstring_eqb (id p) pid); [lia|]. now apply IH.
Qed.

(** The semantic loop leaves the entry of the last occurrence. *)
Lemma fold_semStep_state (pid : jsstring) (l : list Paper) :
  forall st,
    (occurrences pid l = 0%nat /\ fold_left (semStep pid) l st = st) \/
    (exists p, In p l /\
               fold_left (semStep pid) l st =
                 Some (mkCombined p (orZero (similarity p) * weight semantic)
                                  [semantic])).
Proof.
  induction l as [|p l IH]; intros st; cbn [fold_left occurrences].
  - now left.
  - destruct (IH (semStep pid st p)) as [[H0 Hst]|(q & Hq & Hst)].
    + unfold semStep in Hst |- *.
      destruct (jsstring_eqb (id p) pid).
      * right. exists p. split; [now left|exact Hst].
      * left. split; [exact H0|exact Hst].
    + right. exists q. split; [now right|exact Hst].
Qed.

Lemma total_absent (s : Strategy) (pid : jsstring) (l : list Paper) :
  occurrences pid l = 0%nat -> total s pid l == 0.
Proof.
  induction l as [|p l IH]; cbn [occurrences total]; intros H; [reflexivity|].
  destruct (jsstring_eqb (id p) pid); [lia|]. rewrite IH by exact H. Lqa.lra.
Qed.

Lemma total_nonneg (s : Strategy) (pid : jsstring) (l : list Paper) :
  (forall p, In p l -> 0 <= orZero (strategyScore s p)) -> 0 <= total s pid l.
Proof.
  induction l as [|p l IH]; cbn [total]; intros H; [Lqa.lra|].
  assert (H1 : 0 <= total s pid l) by (apply IH; intros; apply H; now right).
  assert (H2 : 0 <= orZero (strategyScore s p) * weight s).
  { apply Qmult_le_0_compat; [apply H; now left|apply Qlt_le_weak, weight_pos]. }
  set (x := orZero (strategyScore s p) * weight s) in *.
  destruct (jsstring_eqb (id p) pid); Lqa.lra.
Qed.

Lemma bonusOf_nonneg (n : nat) : 0 <= bonusOf n.
Proof.
  unfold bonusOf. destruct (1 <? n)%nat eqn:E; [|Lqa.lra].
  apply Nat.ltb_lt in E.
  assert (H : inject_Z 0 <= inject_Z (Z.of_nat n - 1)) by (rewrite <- Zle_Qle; lia).
  change (inject_Z 0) with 0 in H. Lqa.lra.
Qed.

Lemma bonusOf_mono (n m : nat) : (n <= m)%nat -> bonusOf n <= bonusOf m.
Proof.
  intros Hnm. unfold bonusOf at 1.
  destruct (1 <? n)%nat eqn:En; [|apply bonusOf_nonneg].
  apply Nat.ltb_lt in En. unfold bonusOf.
  assert (Em : (1 <? m)%nat = true) by (apply Nat.ltb_lt; lia).
  rewrite Em.
  assert (H : inject_Z (Z.of_nat n - 1) <= inject_Z (Z.of_nat m - 1))
    by (rewrite <- Zle_Qle; lia).
  Lqa.lra.
Qed.

Lemma addBonus_score (e : CombinedResult) :
  combinedScore (addBonus e) == combinedScore e + bonusOf (length (sources e)).
Proof.
  unfold addBonus, bonusOf.
  destruct (1 <? length (sources e))%nat; cbn [combinedScore]; Lqa.lra.
Qed.

Lemma addBonus_id (e : CombinedResult) : paperId (addBonus e) = paperId e.
Proof. unfold addBonus. now destruct (1 <? length (sources e))%nat. Qed.

Lemma combine_unfold (sem kw gr : list Paper) :
  combineSearchResults sem kw gr =
    sortDesc combinedScore (map addBonus (resultMapOf sem kw gr)).
Proof. reflexivity. Qed.

(** Every merged record is the tracked entry of its id, plus the bonus. *)
Lemma combined_entry (sem kw gr : list Paper) (e : CombinedResult) :
  In e (combineSearchResults sem kw gr) ->
  exists e0, track (paperId e) sem kw gr = Some e0 /\ e = addBonus e0.
Proof.
  rewrite combine_unfold. intros Hin.
  apply (Permutation_in _ (sortDesc_perm combinedScore _)) in Hin.
  apply in_map_iff in Hin. destruct Hin as (e0 & <- & Hin).
  exists e0. split; [|reflexivity].
  rewrite addBonus_id, <- resultMap_track.
  apply mapGet_In; [apply resultMap_NoDup|exact Hin].
Qed.

Lemma combined_ids (sem kw gr : list Paper) :
  Permutation (map paperId (combineSearchResults sem kw gr))
              (map paperId (resultMapOf sem kw gr)).
Proof.
  rewrite combine_unfold, (Permutation_map paperId (sortDesc_perm combinedScore _)).
  rewrite map_map. erewrite map_ext; [reflexivity|]. apply addBonus_id.
Qed.

Lemma track_measure (pid : jsstring) (sem kw gr : list Paper) :
  let st1 := fold_left (semStep pid) sem None in
  scoreOf (track pid sem kw gr)
    == scoreOf st1 + total keyword pid kw + total graph pid gr /\
  countOf (track pid sem kw gr)
    = (countOf st1 + occurrences pid kw + occurrences pid gr)%nat.
Proof.
  cbv zeta. unfold track.
  destruct (fold_otherStep_measure graph pid gr
              (fold_left (otherStep keyword pid) kw (fold_left (semStep pid) sem None)))
    as [H1 H2].
  destruct (fold_otherStep_measure keyword pid kw (fold_left (semStep pid) sem None))
    as [H3 H4].
  split; [Lqa.lra|lia].
Qed.

Lemma track_None_iff (pid : jsstring) (sem kw gr : list Paper) :
  track pid sem kw gr = None <-> ~ In pid (map id (sem ++ kw ++ gr)).
Proof.
  assert (Hocc : ~ In pid (map id (sem ++ kw ++ gr)) <->
                 occurrences pid sem = 0%nat /\ occurrences pid kw = 0%nat
                 /\ occurrences pid gr = 0%nat).
  { rewrite !map_app, !in_app_iff, !occurrences_zero. tauto. }
  rewrite Hocc. clear Hocc. split.
  - intros H. destruct (track_measure pid sem kw gr) as [_ Hc].
    rewrite H in Hc. cbn [countOf] in Hc.
    destruct (fold_semStep_state pid sem None) as [[H0 _]|(p & _ & Hst)].
    + lia.
    + rewrite Hst in Hc. cbn [countOf sources length] in Hc. lia.
  - intros H. unfold track.
    rewrite fold_semStep_absent, !fold_otherStep_absent by tauto. reflexivity.
Qed.

Lemma combined_ids_iff (sem kw gr : list Paper) (pid : jsstring) :
  In pid (map paperId (combineSearchResults sem kw gr)) <->
  In pid (map id (sem ++ kw ++ gr)).
Proof.
  split.
  - intros H. apply (Permutation_in _ (combined_ids sem kw gr)) in H.
    destruct (in_dec (list_eq_dec Z.eq_dec) pid (map id (sem ++ kw ++ gr)))
      as [Hin|Hout]; [exact Hin|].
    apply track_None_iff in Hout. rewrite <- resultMap_track in Hout.
    apply mapGet_None in Hout. contradiction.
  - intros H. apply (Permutation_in _ (Permutation_sym (combined_ids sem kw gr))).
    destruct (mapGet (resultMapOf sem kw gr) pid) as [e|] eqn:E.
    + apply mapGet_Some in E. destruct E as [Hin <-]. now apply in_map.
    + rewrite resultMap_track in E. apply track_None_iff in E. contradiction.
Qed.

End TraceFacts.

(** ** The merge: scores, order, outage *)

Section MergeClaims.
Import JS Neo4j MergeTrace HybridSpec.

Lemma findPaper_appearsIn (l : list Paper) (pid : jsstring) :
  appearsIn l pid = match findPaper l pid with Some _ => true | None => false end.
Proof.
  unfold appearsIn, findPaper. induction l as [|p l IH]; cbn [existsb find]; [reflexivity|].
  destruct (jsstring_eqb (id p) pid); [reflexivity|exact IH].
Qed.

Lemma absent_findPaper (l : list Paper) (pid : jsstring) :
  ~ In pid (map id l) -> findPaper l pid = None.
Proof.
  unfold findPaper. induction l as [|p l IH]; cbn [map In find]; intros H; [reflexivity|].
  destruct (jsstring_eqb (id p) pid) eqn:E.
  - apply jsstring_eqb_eq in E. tauto.
  - apply IH. tauto.
Qed.

Lemma NoDup_occurrences (l : list Paper) (pid : jsstring) :
  NoDup (map id l) ->
  occurrences pid l = if appearsIn l pid then 1%nat else 0%nat.
Proof.
  induction l as [|p l IH]; cbn [map occurrences appearsIn existsb]; intros Hnd;
    [reflexivity|].
  apply NoDup_cons_iff in Hnd. destruct Hnd as [Hp Hl].
  destruct (jsstring_eqb (id p) pid) eqn:E; cbn [orb].
  - apply jsstring_eqb_eq in E. rewrite E in Hp.
    apply occurrences_zero in Hp. rewrite Hp. reflexivity.
  - now apply IH.
Qed.

Lemma NoDup_total (s : Strategy) (l : list Paper) (pid : jsstring) :
  NoDup (map id l) -> total s pid l == contribution s l pid.
Proof.
  unfold contribution, findPaper.
  induction l as [|p l IH]; cbn [map total find]; intros Hnd; [reflexivity|].
  apply NoDup_cons_iff in Hnd. destruct Hnd as [Hp Hl].
  destruct (jsstring_eqb (id p) pid) eqn:E.
  - apply jsstring_eqb_eq in E. rewrite E in Hp.
    apply occurrences_zero in Hp. rewrite (total_absent s _ _ Hp). ring.
  - rewrite (IH Hl). ring.
Qed.

Lemma NoDup_semantic (l : list Paper) (pid : jsstring) :
  NoDup (map id l) ->
  forall st,
    fold_left (semStep pid) l st =
      match findPaper l pid with
      | Some p => Some (mkCombined p (orZero (similarity p) * weight semantic)
                                   [semantic])
      | None => st
      end.
Proof.
  unfold findPaper.
  induction l as [|p l IH]; cbn [map fold_left find]; intros Hnd st; [reflexivity|].
  apply NoDup_cons_iff in Hnd. destruct Hnd as [Hp Hl].
  unfold semStep at 2.
  destruct (jsstring_eqb (id p) pid) eqn:E.
  - apply jsstring_eqb_eq in E. rewrite E in Hp.
    apply fold_semStep_absent. now apply occurrences_zero.
  - now apply IH.
Qed.

Lemma bonusOf_bonus (n : nat) : bonusOf n = bonus (Z.of_nat n).
Proof.
  unfold bonusOf, bonus.
  destruct (1 <? n)%nat eqn:E1, (1 <? Z.of_nat n)%Z eqn:E2; try reflexivity.
  - apply Nat.ltb_lt in E1. apply Z.ltb_ge in E2. lia.
  - apply Nat.ltb_ge in E1. apply Z.ltb_lt in E2. lia.
Qed.

Lemma semantic_entry_score (sem : list Paper) (pid : jsstring) :
  scoreOf match findPaper sem pid with
          | Some p => Some (mkCombined p (orZero (similarity p) * weight semantic)
                                       [semantic])
          | None => None
          end = contribution semantic sem pid.
Proof. unfold contribution. now destruct (findPaper sem pid). Qed.

Lemma semantic_entry_count (sem : list Paper) (pid : jsstring) :
  countOf match findPaper sem pid with
          | Some p => Some (mkCombined p (orZero (similarity p) * weight semantic)
                                       [semantic])
          | None => None
          end = if appearsIn sem pid then 1%nat else 0%nat.
Proof. rewrite findPaper_appearsIn. now destruct (findPaper sem pid). Qed.

(** The tracked entry carries the score of the specification when no
    list names a paper twice. *)
Lemma track_expected (sem kw gr : list Paper) (pid : jsstring) (e0 : CombinedResult) :
  NoDup (map id sem) -> NoDup (map id kw) -> NoDup (map id gr) ->
  track pid sem kw gr = Some e0 ->
  combinedScore (addBonus e0) == expectedScore sem kw gr pid.
Proof.
  intros Hs Hk Hg Ht.
  destruct (track_measure pid sem kw gr) as [Hscore Hcount].
  rewrite Ht in Hscore, Hcount. cbn [scoreOf countOf] in Hscore, Hcount.
  rewrite (NoDup_semantic _ pid Hs) in Hscore, Hcount.
  rewrite semantic_entry_score in Hscore. rewrite semantic_entry_count in Hcount.
  rewrite (NoDup_total keyword _ pid Hk), (NoDup_total graph _ pid Hg) in Hscore.
  rewrite (NoDup_occurrences _ pid Hk), (NoDup_occurrences _ pid Hg) in Hcount.
  rewrite addBonus_score, Hscore, Hcount, bonusOf_bonus.
  unfold expectedScore, sourceCount.
  destruct (appearsIn sem pid), (appearsIn kw pid), (appearsIn gr pid);
    cbn [Z.b2z Nat.add Z.of_nat Pos.of_succ_nat Pos.succ Z.add Pos.add]; ring.
Qed.

Context {host : Host}.

Lemma hybridSearch_slice (this : Neo4jService) (queryText : jsstring)
      (limit : option nat) (topic : option jsstring) (r : HybridResults) :
  hybridSearch this queryText limit topic = Return r ->
  combinedResults r =
    firstn (orDefault limit)
           (combineSearchResults (semanticResults r) (keywordResults r)
                                 (graphResults r)) /\
  (length (combinedResults r) <= orDefault limit)%nat.
Proof.
  unfold hybridSearch, bind. cbv zeta.
  destruct (semanticSearch this queryText (Some (orDefault limit)) topic);
    [|discriminate].
  destruct (keywordSearch this queryText (Some (orDefault limit)) topic);
    [|discriminate].
  destruct (graphSearch this queryText (Some (orDefault limit)) topic);
    [|discriminate].
  intros H. injection H as <-. cbn [combinedResults semanticResults keywordResults graphResults].
  split; [reflexivity|apply firstn_le_length].
Qed.

Lemma combine_scores (sem kw gr : list Paper) :
  NoDup (map id sem) -> NoDup (map id kw) -> NoDup (map id gr) ->
  forall e, In e (combineSearchResults sem kw gr) ->
            combinedScore e == expectedScore sem kw gr (paperId e).
Proof.
  intros Hs Hk Hg e He. destruct (combined_entry sem kw gr e He) as (e0 & Ht & ->).
  rewrite addBonus_id in *. now apply track_expected.
Qed.

Lemma combine_NoDup (sem kw gr : list Paper) :
  NoDup (map paperId (combineSearchResults sem kw gr)).
Proof.
  eapply Permutation_NoDup; [symmetry; apply combined_ids|apply resultMap_NoDup].
Qed.

Lemma firstn_In {A} (n : nat) (l : list A) (x : A) :
  In x (firstn n l) -> In x l.
Proof.
  intros H. rewrite <- (firstn_skipn n l). apply in_or_app. now left.
Qed.

Lemma firstn_NoDup {A} (n : nat) (l : list A) : NoDup l -> NoDup (firstn n l).
Proof.
  intros H. rewrite <- (firstn_skipn n l) in H. eapply NoDup_app_remove_r; eauto.
Qed.

Lemma firstn_sorted {A} (R : A -> A -> Prop) (n : nat) (l : list A) :
  StronglySorted R l -> StronglySorted R (firstn n l).
Proof.
  intros H. revert n. induction H as [|x l Hl IH Hx]; intros [|n]; cbn [firstn];
    try constructor.
  - apply IH.
  - apply Forall_forall. intros y Hy.
    apply (proj1 (Forall_forall _ _) Hx). eapply firstn_In; eauto.
Qed.


Lemma semantic_state_nonneg (sem : list Paper) (pid : jsstring) :
  (forall p, In p sem -> 0 <= orZero (similarity p)) ->
  0 <= scoreOf (fold_left (semStep pid) sem None).
Proof.
  intros H. destruct (fold_semStep_state pid sem None) as [[_ ->]|(p & Hp & ->)];
    cbn [scoreOf combinedScore]; [Lqa.lra|].
  apply Qmult_le_0_compat; [now apply H|apply Qlt_le_weak, weight_pos].
Qed.

Lemma scoreAlone_entry (s : Strategy) (sem kw gr : list Paper) (pid : jsstring) (x : Q) :
  scoreAlone s sem kw gr pid = Some x ->
  exists e0,
    match s with
    | semantic => track pid sem [] []
    | keyword => track pid [] kw []
    | graph => track pid [] [] gr
    end = Some e0 /\ x = combinedScore (addBonus e0).
Proof.
  unfold scoreAlone. cbv zeta.
  destruct s;
    match goal with
    | |- option_map _ (mapGet ?m pid) = _ -> _ =>
        destruct (mapGet m pid) as [e'|] eqn:E; [|discriminate]
    end;
    cbn [option_map]; intros H; injection H as <-;
    apply mapGet_Some in E; destruct E as [Hin <-];
    destruct (combined_entry _ _ _ _ Hin) as (e0 & Ht & ->);
    exists e0; (split; [exact Ht|reflexivity]).
Qed.

(** C7.  The scores that the three queries deliver are non-negative
    (a similarity above 0.1, a relevance that sums terms of 0, 1 and 2,
    a connection count).  On such result lists the combined score of
    every merged paper, in particular of one found by two or more
    strategies, is at least the combined score it receives from any
    single strategy alone. *)
Theorem combined_score_dominates (sem kw gr : list Paper) :
  scoresNonNegative sem kw gr ->
  forall e, In e (combineSearchResults sem kw gr) ->
  forall s x, scoreAlone s sem kw gr (paperId e) = Some x ->
              x <= combinedScore e.
Proof.
  intros Hnn e He s x Hx.
  destruct (combined_entry sem kw gr e He) as (e0 & Ht & ->).
  rewrite addBonus_id in *.
  set (pid := paperId e0) in *.
  destruct (scoreAlone_entry s sem kw gr pid x Hx) as (e1 & Ht1 & ->).
  rewrite !addBonus_score.
  destruct (track_measure pid sem kw gr) as [Hscore Hcount].
  rewrite Ht in Hscore, Hcount. cbn [scoreOf countOf] in Hscore, Hcount.
  assert (Hsem : 0 <= scoreOf (fold_left (semStep pid) sem None))
    by (apply semantic_state_nonneg; intros p Hp; exact (Hnn semantic p Hp)).
  assert (Hkw : 0 <= total keyword pid kw)
    by (apply total_nonneg; intros p Hp; exact (Hnn keyword p Hp)).
  assert (Hgr : 0 <= total graph pid gr)
    by (apply total_nonneg; intros p Hp; exact (Hnn graph p Hp)).
  destruct s.
  - destruct (track_measure pid sem [] []) as [Hs1 Hc1].
    rewrite Ht1 in Hs1, Hc1. cbn [scoreOf countOf total occurrences] in Hs1, Hc1.
    assert (Hb : bonusOf (length (sources e1)) <= bonusOf (length (sources e0)))
      by (apply bonusOf_mono; lia).
    Lqa.lra.
  - destruct (track_measure pid [] kw []) as [Hs1 Hc1].
    rewrite Ht1 in Hs1, Hc1.
    cbn [scoreOf countOf total occurrences fold_left] in Hs1, Hc1.
    assert (Hb : bonusOf (length (sources e1)) <= bonusOf (length (sources e0)))
      by (apply bonusOf_mono; lia).
    Lqa.lra.
  - destruct (track_measure pid [] [] gr) as [Hs1 Hc1].
    rewrite Ht1 in Hs1, Hc1.
    cbn [scoreOf countOf total occurrences fold_left] in Hs1, Hc1.
    assert (Hb : bonusOf (length (sources e1)) <= bonusOf (length (sources e0)))
      by (apply bonusOf_mono; lia).
    Lqa.lra.
Qed.

(** C2.  When the connection is down ([connected] is false or the driver
    is null), [hybridSearch] returns normally with the four result lists
    empty, for every query text, limit and topic. *)
Theorem hybridSearch_connection_down (this : Neo4jService) (queryText : jsstring)
        (limit : option nat) (topic : option jsstring) :
  connected this = false \/ driver this = None ->
  hybridSearch this queryText limit topic = Return (mkHybrid [] [] [] []).
Proof.
  intros Hdown.
  assert (Hg : forall body, guarded this body = Return []).
  { intros body. unfold guarded.
    destruct Hdown as [-> | ->]; [reflexivity|].
    destruct (connected this); reflexivity. }
  unfold hybridSearch, semanticSearch, keywordSearch, graphSearch.
  cbv zeta. rewrite !Hg. cbn [bind].
  now rewrite firstn_nil.
Qed.

End MergeClaims.

(** ** The merge: examples *)

Section MergeExamples.
Import JS Neo4j HybridSpec Fixtures.


(** A keyword list that names paper A in two rows (one per topic of the
    paper) lies outside the data model's one-row-per-id rule: the
    keyword loop updates the existing entry for the second row, so the
    relevance is added twice and two sources are counted, 0.7 where one
    row gives 0.3.  The semantic loop overwrites the entry instead. *)
Lemma duplicate_hit_counted_twice :
  hybridSearch twoTopicService (lit "attention") None None
  = Return twoTopicResults /\
  combinedResults twoTopicResults = [mergedTwice] /\
  combinedScore mergedTwice == 7 # 10 /\
  sources mergedTwice = [keyword; keyword] /\
  expectedScore (semanticResults twoTopicResults)
                (keywordResults twoTopicResults)
                (graphResults twoTopicResults) (paperId mergedTwice)
  == 3 # 10.
Proof.
  split; [reflexivity|]. split; [reflexivity|].
  split; [vm_compute; reflexivity|]. split; [reflexivity|].
  vm_compute. reflexivity.
Qed.

(** C7, witness: the three papers of the C1 witness. *)
Lemma combined_score_dominates_witness :
  In mergedC
     (combineSearchResults [paperA_semantic; paperC] [paperB; paperC] [paperC]) /\
  scoreAlone semantic [paperA_semantic; paperC] [paperB; paperC] [paperC]
             (lit "C")
  = Some ((9 # 10) * (5 # 10)) /\
  (9 # 10) * (5 # 10) <= combinedScore mergedC.
Proof.
  assert (Hin : In mergedC
                   (combineSearchResults [paperA_semantic; paperC]
                                         [paperB; paperC] [paperC]))
    by (left; reflexivity).
  split; [exact Hin|]. split; [reflexivity|].
  apply (combined_score_dominates
           [paperA_semantic; paperC] [paperB; paperC] [paperC])
    with (e := mergedC) (s := semantic).
  - intros s p. destruct s; cbn [resultsOf In];
      intros H; repeat (destruct H as [<-|H]; [vm_compute; discriminate|]);
      contradiction.
  - exact Hin.
  - reflexivity.
Defined.

(** C2, witness: a service that never connected. *)
Lemma hybridSearch_connection_down_witness :
  hybridSearch downService (lit "transformer attention") None None
  = Return (mkHybrid [] [] [] []).
Proof.
  apply hybridSearch_connection_down. left. reflexivity.
Defined.

End MergeExamples.

(** ** The single-question pipeline *)

Section PipelineClaims.
Import JS GraphRAG.

(** Every piece of a split holds no separator. *)
Lemma splitRuns_pieces (sep : Z -> bool) (s : jsstring) :
  forall inRun,
    Forall (fun piece => Forall (fun c => sep c = false /\ In c s) piece)
           (splitRuns sep inRun s).
Proof.
  induction s as [|c s IH]; intros inRun; cbn [splitRuns].
  - repeat constructor.
  - assert (Hweak : forall b,
               Forall (fun piece => Forall (fun x => sep x = false /\ In x (c :: s)) piece)
                      (splitRuns sep b s)).
    { intros b. eapply Forall_impl; [|apply IH].
      intros piece Hp. eapply Forall_impl; [|exact Hp].
      cbv beta. intros x [H1 H2]. split; [exact H1|now right]. }
    destruct (sep c) eqn:E.
    + destruct inRun; [apply Hweak|]. constructor; [constructor|apply Hweak].
    + specialize (Hweak false).
      destruct (splitRuns sep false s) as [|w ws].
      * repeat constructor. exact E.
      * inversion Hweak; subst. constructor; [|assumption].
        constructor; [split; [exact E|now left]|assumption].
Qed.

Lemma firstn_Forall {A} (P : A -> Prop) (n : nat) (l : list A) :
  Forall P l -> Forall P (firstn n l).
Proof.
  intros H. rewrite <- (firstn_skipn n l) in H.
  apply Forall_app in H. tauto.
Qed.

Context {host : Host}.

Lemma extractSimpleEntities_shape (question : jsstring) :
  (length (extractSimpleEntities question) <= 5)%nat /\
  Forall (fun w => (3 < length w)%nat /\ isStopWord w = false /\
                   forallb isWordChar w = true)
         (extractSimpleEntities question).
Proof.
  unfold extractSimpleEntities. split; [apply firstn_le_length|].
  apply firstn_Forall. apply Forall_forall. intros w Hw.
  apply filter_In in Hw. destruct Hw as [Hin Hf].
  apply andb_true_iff in Hf. destruct Hf as [Hlen Hstop].
  apply Nat.ltb_lt in Hlen. apply negb_true_iff in Hstop.
  split; [exact Hlen|]. split; [exact Hstop|].
  pose proof (splitRuns_pieces isWhiteSpace
                (replacePunctuation (toLowerCase question)) false) as Hp.
  apply (proj1 (Forall_forall _ _) Hp) in Hin.
  apply forallb_forall. intros c Hc.
  apply (proj1 (Forall_forall _ _) Hin) in Hc. destruct Hc as [Hws Hc].
  unfold replacePunctuation in Hc. apply in_map_iff in Hc.
  destruct Hc as (c0 & Hc0 & _).
  destruct (isWordChar c0 || isWhiteSpace c0) eqn:E.
  - subst c0. rewrite Hws, orb_false_r in E. exact E.
  - subst c. discriminate Hws.
Qed.

(** C9.  When the generator call fails, or its reply fails JSON parsing,
    [analyzeQuestion] returns type [factual], the heuristic entities,
    search terms [[question]] and intent [research query]; the entities
    are at most five tokens of word characters, each longer than three
    characters and not a stop word. *)
Theorem analyzeQuestion_fallback (groqService : Groq) (question : jsstring) :
  (exists e, generateCompletion groqService (AnalysisPrompt question) = Throw e) \/
  (exists response e,
      generateCompletion groqService (AnalysisPrompt question) = Return response /\
      JSON_parse response = Throw e) ->
  analyzeQuestion groqService question
  = Return (mkAnalysis (JStr (lit "factual"))
                       (JArr (map JStr (extractSimpleEntities question)))
                       (JArr [JStr question])
                       (JStr (lit "research query"))) /\
  (length (extractSimpleEntities question) <= 5)%nat /\
  Forall (fun w => (3 < length w)%nat /\ isStopWord w = false /\
                   forallb isWordChar w = true)
         (extractSimpleEntities question).
Proof.
  intros H. split; [|apply extractSimpleEntities_shape].
  unfold analyzeQuestion.
  destruct H as [[e ->]|(response & e & -> & Hparse)].
  - reflexivity.
  - cbn [bind try_catch]. rewrite Hparse. reflexivity.
Qed.

Variable neo4jService : Neo4j.Neo4jService.
Variable groqService : Groq.

Lemma parseFollowUps_nonempty (response : jsstring) :
  hasLongLine response = true -> parseFollowUps response <> [].
Proof.
  unfold hasLongLine, parseFollowUps. intros H.
  apply existsb_exists in H. destruct H as (line & Hin & Hlong).
  assert (Hf : In line (filter (fun l => (10 <? length (trim l))%nat)
                               (splitOn 10 response)))
    by (apply filter_In; split; assumption).
  destruct (filter (fun l => (10 <? length (trim l))%nat) (splitOn 10 response));
    [contradiction|].
  cbn [map firstn]. discriminate.
Qed.

Lemma generateFollowUpQuestions_returns (question answer : jsstring)
      (papers : list PaperWithContent) :
  exists qs,
    generateFollowUpQuestions groqService question answer papers = Return qs /\
    (length qs <= 3)%nat /\
    (generatorDown groqService -> qs = genericFollowUps) /\
    (repliesUsable groqService -> qs <> []).
Proof.
  unfold generateFollowUpQuestions. cbv zeta.
  destruct (generateCompletion groqService
              (FollowUpPrompt question answer
                 (map (fun p => Neo4j.title (Neo4j.paper (base p))) (firstn 3 papers))))
    as [response|e] eqn:E; cbn [bind try_catch].
  - exists (parseFollowUps response). split; [reflexivity|].
    split; [apply firstn_le_length|]. split.
    + intros Hfail. destruct (Hfail (FollowUpPrompt question answer
                 (map (fun p => Neo4j.title (Neo4j.paper (base p))) (firstn 3 papers))))
        as [e He]. congruence.
    + intros Huse. apply parseFollowUps_nonempty. eapply Huse; eauto.
  - exists genericFollowUps. split; [reflexivity|]. split; [cbn; lia|].
    split; [reflexivity|discriminate].
Qed.

(** A response of the [try] block lists the papers it scored. *)
Lemma askQuestionBody_returns (question : jsstring) (topic : option jsstring)
      (history : option (list Turn)) (r : RAGResponse) :
  askQuestionBody neo4jService groqService question topic history = Return r ->
  confidence (context r)
  = calculateConfidence (relevantPapers (context r))
      (extractRelevantPassages (relevantPapers (context r)) question) /\
  (length (suggestedQuestions r) <= 3)%nat /\
  (generatorDown groqService -> suggestedQuestions r = genericFollowUps) /\
  (repliesUsable groqService -> suggestedQuestions r <> []).
Proof.
  unfold askQuestionBody, bind.
  destruct (analyzeQuestion groqService question) as [analysis|]; [|discriminate].
  destruct (arrayJoin (entities analysis)); [|discriminate].
  destruct (Neo4j.hybridSearch neo4jService question (Some 10%nat) topic)
    as [searchResults|]; [|discriminate].
  cbv zeta.
  destruct (generateAnswer _ _ _ _ _) as [answer|]; [|discriminate].
  match goal with
  | |- context [generateFollowUpQuestions ?g ?q ?a ?p] =>
      destruct (generateFollowUpQuestions_returns q a p)
        as (qs & -> & Hlen & Hgen & Huse)
  end.
  intros H. injection H as <-.
  cbn [context confidence relevantPapers suggestedQuestions].
  repeat split; assumption.
Qed.

(** C4 (amended).  [askQuestion] always returns a response.  When a step
    of its pipeline throws, the response is the fixed one: the apologetic
    answer, no sources, confidence 0, three generic suggested questions
    and search type [error].  When the list of retrieved papers is empty
    the confidence is 0.  There are at most three suggested questions:
    exactly three when the generator calls fail, and at least one when
    every reply of the generator has a line of more than ten
    characters. *)
Theorem askQuestion_never_throws (question : jsstring) (topic : option jsstring)
        (history : option (list Turn)) :
  exists r,
    askQuestion neo4jService groqService question topic history = Return r /\
    (forall e,
        askQuestionBody neo4jService groqService question topic history = Throw e ->
        r = fallbackResponse question) /\
    (answer (fallbackResponse question) = fallbackAnswer /\
     sources (fallbackResponse question) = [] /\
     confidence (context (fallbackResponse question)) = 0%Z /\
     length (suggestedQuestions (fallbackResponse question)) = 3%nat /\
     searchType (context (fallbackResponse question)) = lit "error") /\
    (relevantPapers (context r) = [] -> confidence (context r) = 0%Z) /\
    (length (suggestedQuestions r) <= 3)%nat /\
    (generatorDown groqService -> length (suggestedQuestions r) = 3%nat) /\
    (repliesUsable groqService -> suggestedQuestions r <> []).
Proof.
  unfold askQuestion.
  destruct (askQuestionBody neo4jService groqService question topic history)
    as [r|e] eqn:E; cbn [try_catch].
  - exists r. split; [reflexivity|]. split; [discriminate|].
    split; [repeat split|].
    destruct (askQuestionBody_returns _ _ _ _ E) as (Hconf & Hlen & Hgen & Huse).
    split; [|split; [exact Hlen|split; [|exact Huse]]].
    + intros Hnil. rewrite Hconf, Hnil. reflexivity.
    + intros Hfail. rewrite (Hgen Hfail). reflexivity.
  - exists (fallbackResponse question). split; [reflexivity|].
    split; [reflexivity|]. split; [repeat split|].
    split; [reflexivity|]. split; [cbn; lia|]. split; [reflexivity|discriminate].
Qed.

End PipelineClaims.

Section PipelineExamples.
Import JS GraphRAG Fixtures.

(** C9, witness: a generator that replies [ok], which is not JSON. *)
Lemma analyzeQuestion_fallback_witness :
  analyzeQuestion shortReplyGroq (lit "What is the attention mechanism?")
  = Return (mkAnalysis (JStr (lit "factual"))
                       (JArr (map JStr [lit "attention"; lit "mechanism"]))
                       (JArr [JStr (lit "What is the attention mechanism?")])
                       (JStr (lit "research query"))).
Proof.
  destruct (analyzeQuestion_fallback shortReplyGroq
              (lit "What is the attention mechanism?")) as [H _].
  - right. exists (lit "ok"), "SyntaxError"%string. split; reflexivity.
  - exact H.
Defined.

(** C4, witness: no database connection and no API key. *)
Lemma askQuestion_never_throws_witness :
  exists r,
    askQuestion downService noKeyGroq (lit "what is attention") None None = Return r /\
    confidence (context r) = 0%Z /\
    length (suggestedQuestions r) = 3%nat.
Proof.
  destruct (askQuestion_never_throws downService noKeyGroq
              (lit "what is attention") None None)
    as (r & Hr & _ & _ & Hconf & _ & Hfail & _).
  exists r. split; [exact Hr|]. split.
  - apply Hconf. vm_compute in Hr. injection Hr as <-. reflexivity.
  - apply Hfail. intros prompt. eexists. reflexivity.
Defined.

(** C4, counterexample: with no paper retrieved and a generator whose
    reply [ok] has no line of more than ten characters, the response has
    confidence 0 and an empty list of suggested questions. *)
Lemma short_reply_leaves_no_suggestions :
  ~ (forall (neo4jService : Neo4j.Neo4jService) (groqService : Groq)
            (question : jsstring) (topic : option jsstring)
            (history : option (list Turn)) (r : RAGResponse),
        askQuestion neo4jService groqService question topic history = Return r ->
        relevantPapers (context r) = [] ->
        confidence (context r) = 0%Z /\ suggestedQuestions r <> []).
Proof.
  intros Hclaim.
  destruct (Hclaim downService shortReplyGroq (lit "what is attention") None None
              _ eq_refl) as [_ Hq].
  - reflexivity.
  - apply Hq. reflexivity.
Qed.

End PipelineExamples.

(** ** Confidence scores *)

Section ConfidenceClaims.
Import JS AdvancedRAG ConfidenceSpec.

Lemma Qfloor_unique (z : Z) (x : Q) :
  inject_Z z <= x -> x < inject_Z (z + 1) -> Qfloor x = z.
Proof.
  intros Hle Hlt.
  assert (H1 : (z <= Qfloor x)%Z).
  { rewrite <- (Qfloor_Z z). now apply Qfloor_resp_le. }
  assert (H2 : (Qfloor x < z + 1)%Z).
  { rewrite Zlt_Qlt. eapply Qle_lt_trans; [apply Qfloor_le|exact Hlt]. }
  lia.
Qed.

Lemma Math_round_integer (z : Z) (x : Q) : x == inject_Z z -> Math_round x = z.
Proof.
  intros Hx. unfold Math_round. apply Qfloor_unique.
  - rewrite Hx. Lqa.lra.
  - rewrite Hx, inject_Z_plus. change (inject_Z 1) with 1. Lqa.lra.
Qed.

Lemma single_step_confidence (step : ResearchStep) :
  calculateOverallConfidence [step] = Z.min 100 (confidence step).
Proof.
  unfold calculateOverallConfidence, GraphRAG.sumQ, GraphRAG.lengthQ.
  cbn [Embedding.isEmpty fold_left length Nat.ltb Nat.leb].
  f_equal. apply Math_round_integer.
  change (inject_Z (Z.of_nat 1)) with 1. field.
Qed.

(** C5 (amended).  For a non-empty list of steps the total confidence is
    the mean of the step confidences, plus 10 for more than one step,
    rounded to the nearest integer and capped at 100; for a single step
    it is that step's confidence capped at 100, hence the step's
    confidence itself when that is at most 100. *)
Theorem overall_confidence_rounded (steps : list ResearchStep) :
  steps <> [] ->
  calculateOverallConfidence steps
  = Z.min 100 (Math_round (meanConfidence steps + multiStepBonus steps)) /\
  (calculateOverallConfidence steps <= 100)%Z /\
  (forall step, calculateOverallConfidence [step] = Z.min 100 (confidence step)) /\
  (forall step, (confidence step <= 100)%Z ->
                calculateOverallConfidence [step] = confidence step).
Proof.
  intros Hne.
  assert (E : calculateOverallConfidence steps
              = Z.min 100 (Math_round (meanConfidence steps + multiStepBonus steps))).
  { destruct steps as [|s steps]; [congruence|reflexivity]. }
  split; [exact E|]. split; [rewrite E; lia|].
  split; [apply single_step_confidence|].
  intros step Hc. rewrite single_step_confidence. lia.
Qed.

End ConfidenceClaims.

Section ConfidenceExamples.
Import JS AdvancedRAG ConfidenceSpec Fixtures.

(** C5, witness: two steps of confidence 50 and 51, and one of 87. *)
Lemma overall_confidence_rounded_witness :
  calculateOverallConfidence [stepWith 50; stepWith 51] = 61%Z /\
  calculateOverallConfidence [stepWith 87] = 87%Z.
Proof.
  destruct (overall_confidence_rounded [stepWith 50; stepWith 51])
    as (Hmean & _ & _ & Hsingle); [discriminate|].
  split.
  - rewrite Hmean. vm_compute. reflexivity.
  - apply Hsingle. vm_compute. discriminate.
Defined.

(** C5, counterexample: steps of confidence 50 and 51 have mean 50.5;
    the total is 61, not 60.5. *)
Lemma half_point_mean_is_rounded :
  ~ (forall steps : list ResearchStep,
        steps <> [] ->
        inject_Z (calculateOverallConfidence steps)
        == Qmin 100 (meanConfidence steps + multiStepBonus steps)).
Proof.
  intros Hclaim.
  specialize (Hclaim [stepWith 50; stepWith 51] ltac:(discriminate)).
  vm_compute in Hclaim. discriminate Hclaim.
Qed.

(** C8, the code at the failing input.  One retrieved paper with 1000
    citations and one abstract passage give the step confidence
    6 + 0 + 15 + 150 = 171, and [executeResearchStep] returns a step
    carrying it. *)
Theorem step_confidence_exceeds_100 :
  calculateStepConfidence [citedFinding] [citedPassage] = 171%Z /\
  exists step,
    executeResearchStep citedService noKeyGroq 0 attentionStep [] None
    = Return step /\
    findings step = [citedFinding] /\
    confidence step = 171%Z.
Proof.
  split; [vm_compute; reflexivity|].
  eexists. split; [|split].
  - unfold executeResearchStep. cbv zeta.
    assert (Hsearch : Neo4j.hybridSearch citedService (planQuestion attentionStep)
                        (Some 8%nat) None
                      = Return (Neo4j.mkHybrid [] [citedPaper] []
                                  [Neo4j.mkCombined citedPaper (2 * (3 # 10))
                                                    [Neo4j.keyword]])).
    { reflexivity. }
    rewrite Hsearch. cbn [bind Neo4j.combinedResults]. reflexivity.
  - reflexivity.
  - vm_compute. reflexivity.
Qed.

End ConfidenceExamples.

(** ** The tokenizer of the embedding *)

Section TokenizerFacts.
Import JS Embedding.

Lemma trimStart_Forall (P : Z -> Prop) (s : jsstring) :
  Forall P s -> Forall P (trimStart s).
Proof.
  induction 1 as [|c s Hc Hs IH]; cbn [trimStart]; [constructor|].
  destruct (isWhiteSpace c); [exact IH | now constructor].
Qed.

Lemma trim_Forall (P : Z -> Prop) (s : jsstring) :
  Forall P s -> Forall P (trim s).
Proof.
  intros H. unfold trim.
  apply Forall_rev, trimStart_Forall, Forall_rev, trimStart_Forall, H.
Qed.

Lemma splitOn_pieces (P : Z -> Prop) (sep : Z) (s : jsstring) :
  Forall P s ->
  Forall (Forall (fun c => P c /\ c <> sep)) (splitOn sep s).
Proof.
  induction 1 as [|c s Hc Hs IH]; cbn [splitOn]; [repeat constructor|].
  destruct (Z.eqb_spec c sep) as [->|Hne]; [constructor; [constructor|exact IH]|].
  destruct (splitOn sep s) as [|w ws]; [repeat constructor; assumption|].
  inversion IH as [|? ? Hw Hws]; subst.
  constructor; [constructor; [split; assumption|exact Hw]|exact Hws].
Qed.

Lemma replaceOutsideClass_chars (s : jsstring) :
  Forall (fun c => inClass c = true \/ c = 32%Z) (replaceOutsideClass s).
Proof.
  unfold replaceOutsideClass. apply Forall_forall. intros c Hc.
  apply in_map_iff in Hc. destruct Hc as (d & <- & _).
  destruct (inClass d) eqn:E; [left; exact E | right; reflexivity].
Qed.

Lemma replaceBackslashS_chars (P : Z -> Prop) (s : jsstring) :
  P 32%Z -> Forall P s -> forall inMatch, Forall P (replaceBackslashS inMatch s).
Proof.
  intros Hsp. induction 1 as [|c s Hc Hs IH]; intros inMatch;
    cbn [replaceBackslashS]; [constructor|].
  destruct (inMatch && (c =? 115)%Z); [apply IH|].
  destruct ((c =? 92)%Z && match s with d :: _ => (d =? 115)%Z | [] => false end);
    constructor; auto.
Qed.

Context {host : Host}.

Lemma cleanText_chars (text : jsstring) :
  Forall (fun c => inClass c = true \/ c = 32%Z) (cleanText text).
Proof.
  unfold cleanText. apply trim_Forall, replaceBackslashS_chars.
  - now right.
  - apply replaceOutsideClass_chars.
Qed.

(** X1.  Whatever the text, a word of the tokenizer has more than two
    characters and each of them is [w], [s] or a backslash: the class of
    the first [replace] is written [[^\\w\\s]] in the source, so every
    other character, letters and digits included, becomes a space. *)
Theorem tokenize_alphabet (text : jsstring) :
  Forall (fun word => (2 < length word)%nat /\
                      Forall (fun c => c = 119 \/ c = 115 \/ c = 92)%Z word)
         (tokenize text).
Proof.
  unfold tokenize. apply Forall_forall. intros w Hw.
  apply filter_In in Hw. destruct Hw as [Hin Hlen].
  split; [now apply Nat.ltb_lt in Hlen|].
  pose proof (splitOn_pieces _ 32%Z _ (cleanText_chars text)) as Hp.
  rewrite Forall_forall in Hp. specialize (Hp w Hin).
  eapply Forall_impl; [|exact Hp]. cbv beta. intros c [[Hc|Hc] Hne]; [|contradiction].
  unfold inClass in Hc.
  destruct (Z.eqb_spec c 92), (Z.eqb_spec c 119), (Z.eqb_spec c 115);
    try discriminate; auto.
Qed.

Lemma filter_nil_Forall {A} (f : A -> bool) (l : list A) :
  Forall (fun x => f x = false) l -> filter f l = [].
Proof.
  induction 1 as [|x l Hx _ IH]; cbn [filter]; [reflexivity|].
  rewrite Hx. exact IH.
Qed.

Lemma trimStart_spaces (s : jsstring) :
  Forall (fun c => c = 32%Z) s -> trimStart s = [].
Proof.
  induction 1 as [|c s Hc _ IH]; cbn [trimStart]; [reflexivity|].
  subst c. cbn. exact IH.
Qed.

Lemma replaceBackslashS_spaces (s : jsstring) :
  Forall (fun c => c = 32%Z) s ->
  forall inMatch, Forall (fun c => c = 32%Z) (replaceBackslashS inMatch s).
Proof. intros H inMatch. now apply replaceBackslashS_chars. Qed.

(** X2.  A text in which, once lower-cased, no [w], [s] or backslash occurs has
    no word at all, and its embedding is the zero vector. *)
Theorem text_without_class_chars_embeds_to_zero (text : jsstring) :
  Forall (fun c => c <> 119 /\ c <> 115 /\ c <> 92)%Z (toLowerCase text) ->
  tokenize text = [] /\
  generateEnhancedEmbedding text = Some (repeat 0%R 512).
Proof.
  intros Hchars.
  assert (Htok : tokenize text = []).
  { unfold tokenize, cleanText.
    assert (Hsp : Forall (fun c => c = 32%Z)
                         (replaceOutsideClass (toLowerCase text))).
    { unfold replaceOutsideClass. apply Forall_forall. intros c Hc.
      apply in_map_iff in Hc. destruct Hc as (d & <- & Hd).
      rewrite Forall_forall in Hchars. specialize (Hchars d Hd).
      unfold inClass.
      destruct (Z.eqb_spec d 92), (Z.eqb_spec d 119), (Z.eqb_spec d 115);
        cbn; try reflexivity; lia. }
    pose proof (replaceBackslashS_spaces _ Hsp false) as Hsp'.
    unfold trim. rewrite (trimStart_spaces _ Hsp'). reflexivity. }
  split; [exact Htok | now apply no_words_zero].
Qed.

End TokenizerFacts.

Section TokenizerExamples.
Import JS Embedding Fixtures.

Lemma text_without_class_chars_embeds_to_zero_witness :
  tokenize (lit "Deep Learning") = [] /\
  generateEnhancedEmbedding (lit "Deep Learning") = Some (repeat 0%R 512).
Proof.
  apply (text_without_class_chars_embeds_to_zero (lit "Deep Learning")).
  vm_compute. repeat constructor; discriminate.
Defined.

End TokenizerExamples.

(** ** The embedding: unused dimensions and the simple generator *)

Section EmbeddingLayout.
Import JS Embedding.

Lemma semantic_features_tail (text : jsstring) (words : list jsstring) :
  skipn 11 (extractSemanticFeatures text words) = repeat 0%R 117.
Proof. reflexivity. Qed.

Lemma semantic_feature_zero (text : jsstring) (words : list jsstring) (j : nat) :
  (11 <= j)%nat -> nth j (extractSemanticFeatures text words) 0%R = 0%R.
Proof.
  intros Hj.
  rewrite <- (firstn_skipn 11 (extractSemanticFeatures text words)).
  rewrite app_nth2; rewrite length_firstn, extractSemanticFeatures_length;
    [|lia].
  rewrite semantic_features_tail. apply nth_repeat.
Qed.

Lemma applyWrite_AddAt_nth (e e' : list R) (i : Z) (v : R) (j : nat) :
  applyWrite e (AddAt i v) = Some e' ->
  nth j e' 0%R = if Nat.eqb (Z.to_nat i) j then (nth j e 0 + v)%R else nth j e 0%R.
Proof.
  unfold applyWrite. cbn [writeIndex].
  destruct ((0 <=? i)%Z && (i <? Z.of_nat (length e))%Z) eqn:Hb; [|discriminate].
  intros H. injection H as <-.
  apply andb_true_iff in Hb. destruct Hb as [Hb1 Hb2].
  apply Z.leb_le in Hb1. apply Z.ltb_lt in Hb2.
  rewrite nth_setNth.
  assert (Hl : Nat.ltb (Z.to_nat i) (length e) = true) by (apply Nat.ltb_lt; lia).
  rewrite Hl, andb_true_r.
  destruct (Nat.eqb_spec (Z.to_nat i) j) as [->|]; reflexivity.
Qed.

(** Writes that only add non-negative amounts never lower an entry. *)
Lemma applyWrites_grow (ws : list Write) :
  Forall (fun w => exists i v, w = AddAt i v /\ (0 <= v)%R) ws ->
  forall e e' j, applyWrites e ws = Some e' -> (nth j e 0 <= nth j e' 0)%R.
Proof.
  induction 1 as [|w ws Hw _ IH]; cbn [applyWrites]; intros e e' j H.
  - injection H as <-. lra.
  - destruct (applyWrite e w) as [e1|] eqn:E; [|discriminate].
    specialize (IH e1 e' j H).
    destruct Hw as (i & v & -> & Hv).
    rewrite (applyWrite_AddAt_nth _ _ _ _ j E) in IH.
    destruct (Nat.eqb (Z.to_nat i) j); lra.
Qed.

Lemma simpleHash_range (str : jsstring) : (0 <= simpleHash str <= 2 ^ 31)%Z.
Proof.
  unfold simpleHash. split; [apply Z.abs_nonneg|].
  destruct str as [|c str] using rev_ind; [cbn; lia|].
  rewrite fold_left_app. cbn [fold_left]. unfold simpleHashStep.
  match goal with |- (Z.abs (ToInt32 ?a) <= _)%Z => pose proof (ToInt32_range a) end.
  lia.
Qed.

Lemma simpleLoop_range (words : list jsstring) :
  forall index,
    Forall (fun w => (0 <= writeIndex w < 384)%Z) (simpleLoop index words).
Proof.
  induction words as [|word rest IH]; intros index; cbn [simpleLoop];
    constructor; [|apply IH].
  cbn [writeIndex]. apply jsrem_range; [apply simpleHash_range | lia].
Qed.

Lemma simpleLoop_adds (words : list jsstring) :
  forall index, (0 <= index)%Z ->
    Forall (fun w => exists i v, w = AddAt i v /\ (0 <= v)%R)
           (simpleLoop index words).
Proof.
  induction words as [|word rest IH]; intros index Hi; cbn [simpleLoop];
    constructor; [|apply IH; lia].
  eexists _, _. split; [reflexivity|]. apply IZR_le in Hi.
  apply Rlt_le, Rdiv_lt_0_compat; lra.
Qed.

Lemma semantic_entry_at (features e1 e : list R) (i : nat) :
  applyWrites e1 (semanticWrites features) = Some e ->
  length features = 128%nat -> (384 <= i < 512)%nat ->
  nth i e 0%R = nth (i - 384) features 0%R.
Proof.
  intros H Hl Hi.
  pose proof (semanticLoop_final features 0 e1 e (i - 384) H ltac:(lia)
                ltac:(lia) ltac:(lia)) as Hf.
  replace (Z.to_nat (384 + 0 + Z.of_nat (i - 384))) with i in Hf by lia.
  exact Hf.
Qed.

Context {host : Host}.

(** X3.  In every embedding that [generateEnhancedEmbedding] returns, the
    entries 395 to 511 are zero: the semantic block stores eleven
    features and leaves the other 117 of its 128 dimensions at their
    initial value. *)
Theorem embedding_tail_is_zero (text : jsstring) :
  exists v, generateEnhancedEmbedding text = Some v /\
            forall i, (395 <= i < 512)%nat -> nth i v 0%R = 0%R.
Proof.
  unfold generateEnhancedEmbedding.
  destruct (isEmpty text || isEmpty (trim text)).
  { eexists; split; [reflexivity|]. intros; apply nth_repeat. }
  destruct (isEmpty (tokenize text)).
  { eexists; split; [reflexivity|]. intros; apply nth_repeat. }
  destruct (applyWrites_total (embeddingWrites text (tokenize text)) (repeat 0%R 512))
    as [e E].
  { rewrite repeat_length. apply embeddingWrites_range. }
  rewrite E. eexists; split; [reflexivity|]. intros i Hi.
  assert (He : nth i e 0%R = 0%R).
  { unfold embeddingWrites in E. rewrite app_assoc, applyWrites_app in E.
    destruct (applyWrites (repeat 0%R 512)
                (tfWrites (tokenize text) ++ ngramWrites (tokenize text)))
      as [e1|] eqn:E1; [|discriminate].
    rewrite (semantic_entry_at _ _ _ i E
               (extractSemanticFeatures_length text (tokenize text)))
      by lia.
    apply semantic_feature_zero. lia. }
  unfold normalize.
  assert (Hlen : length e = 512%nat).
  { rewrite (applyWrites_length _ _ _ E). apply repeat_length. }
  set (f := fun val : R => if Rgt_dec (sqrt (sumSquares e)) 0
                           then (val / sqrt (sumSquares e))%R else 0%R).
  rewrite (nth_indep _ 0%R (f 0%R)) by (rewrite length_map; lia).
  rewrite map_nth, He. unfold f.
  destruct (Rgt_dec (sqrt (sumSquares e)) 0); [|reflexivity].
  unfold Rdiv. apply Rmult_0_l.
Qed.

(** X4.  [generateSimpleEmbedding], the fall-back generator: [simpleHash] is
    a non-negative number of at most 2^31, so every write lands inside
    the 384-entry vector; the result has 384 entries, all zero when the
    text has no word of more than two characters, and L2 norm 1 (in
    exact real arithmetic) otherwise. *)
Theorem simple_embedding_shape (text : jsstring) :
  let words :=
    filter (fun w => (2 <? length w)%nat) (splitNonWord (toLowerCase text)) in
  (forall str, 0 <= simpleHash str <= 2 ^ 31)%Z /\
  Forall (fun w => (0 <= writeIndex w < 384)%Z) (simpleLoop 0 words) /\
  exists v, generateSimpleEmbedding text = Some v /\
            length v = 384%nat /\
            (words = [] -> v = repeat 0%R 384) /\
            (words <> [] -> sqrt (sumSquares v) = 1%R).
Proof.
  intros words.
  split; [exact simpleHash_range|]. split; [apply simpleLoop_range|].
  unfold generateSimpleEmbedding. fold words.
  destruct words as [|word rest] eqn:Ew.
  { cbn [isEmpty]. eexists. split; [reflexivity|].
    split; [apply repeat_length|]. split; [reflexivity|congruence]. }
  cbn [isEmpty].
  destruct (applyWrites_total (simpleLoop 0 (word :: rest)) (repeat 0%R 384))
    as [e E].
  { rewrite repeat_length. apply simpleLoop_range. }
  rewrite E. eexists. split; [reflexivity|]. split; [|split; [discriminate|]].
  - unfold normalize. rewrite length_map, (applyWrites_length _ _ _ E).
    apply repeat_length.
  - intros _. apply normalize_unit.
    cbn [simpleLoop applyWrites] in E.
    destruct (applyWrite (repeat 0%R 384)
                (AddAt (jsrem (simpleHash word) 384) (1 / (IZR 0 + 1))))
      as [e1|] eqn:E1; [|discriminate].
    pose proof (applyWrite_AddAt_nth _ _ _ _
                  (Z.to_nat (jsrem (simpleHash word) 384)) E1) as H1.
    rewrite Nat.eqb_refl, nth_repeat in H1.
    set (i := Z.to_nat (jsrem (simpleHash word) 384)) in *.
    pose proof (applyWrites_grow _ (simpleLoop_adds rest (0 + 1) ltac:(lia))
                  e1 e i E) as Hge.
    pose proof (sumSquares_ge_nth e i) as Hsq.
    assert (H1' : nth i e1 0%R = 1%R) by (rewrite H1; field).
    rewrite H1' in Hge. nra.
Qed.

End EmbeddingLayout.

(** ** The searches: when they throw, and what content they hand out *)

Section SearchOutcomes.
Import JS Neo4j.
Context {host : Host}.

Lemma guarded_open (this : Neo4jService) (d : Driver) (s : Session)
      (body : Session -> Result (list Paper)) :
  connected this = true -> driver this = Some d -> session d = Return s ->
  close s = Return tt ->
  exists l, guarded this body = Return l.
Proof.
  intros Hc Hd Hs Hcl. unfold guarded. rewrite Hc, Hd, Hs. cbn [bind].
  rewrite Hcl. cbn [finally].
  destruct (body s); cbn [try_catch]; eexists; reflexivity.
Qed.

Lemma guarded_broken (this : Neo4jService) (d : Driver)
      (body : Session -> Result (list Paper)) :
  connected this = true -> driver this = Some d ->
  (forall s, session d = Return s -> close s <> Return tt) ->
  exists e, guarded this body = Throw e.
Proof.
  intros Hc Hd Hbad. unfold guarded. rewrite Hc, Hd.
  destruct (session d) as [s|e] eqn:Hs; cbn [bind]; [|eexists; reflexivity].
  specialize (Hbad s eq_refl).
  destruct (close s) as [[]|e]; [congruence|]. cbn [finally].
  eexists; reflexivity.
Qed.

Lemma hybridSearch_open (this : Neo4jService) (d : Driver) (s : Session)
      (queryText : jsstring) (limit : option nat) (topic : option jsstring) :
  connected this = true -> driver this = Some d -> session d = Return s ->
  close s = Return tt ->
  exists r, hybridSearch this queryText limit topic = Return r.
Proof.
  intros Hc Hd Hs Hcl. unfold hybridSearch. cbv zeta.
  unfold semanticSearch, keywordSearch, graphSearch.
  repeat match goal with
         | |- context [guarded this ?b] =>
             let l := fresh "l" in
             destruct (guarded_open this d s b Hc Hd Hs Hcl) as [l ->];
             cbn [bind]
         end.
  eexists; reflexivity.
Qed.

(** X5.  On a connected service [hybridSearch] returns exactly when the
    driver opens a session and the session closes without error: a
    failing query only empties the list of its strategy, but an
    exception of [driver.session()] or of [session.close()] in the
    [finally] block is not caught and reaches the caller. *)
Theorem hybridSearch_returns_iff_session_works (this : Neo4jService)
        (d : Driver) (queryText : jsstring) (limit : option nat)
        (topic : option jsstring) :
  connected this = true -> driver this = Some d ->
  ((exists r, hybridSearch this queryText limit topic = Return r) <->
   (exists s, session d = Return s /\ close s = Return tt)).
Proof.
  intros Hc Hd. split.
  - intros [r Hr]. unfold hybridSearch in Hr. cbv zeta in Hr.
    unfold semanticSearch in Hr.
    set (body := fun s : Session =>
                   bind (generateEmbeddings this queryText)
                     (fun queryEmbedding =>
                        run s (SemanticQuery queryEmbedding
                                 (orDefault (Some (orDefault limit))) topic)))
      in Hr.
    destruct (session d) as [s|e] eqn:Hs;
      [ destruct (close s) as [[]|e] eqn:Hcl;
        [ exists s; split; [reflexivity|exact Hcl] | ]
      | ];
      (destruct (guarded_broken this d body Hc Hd) as [e' He'];
       [ intros s' Hs'; rewrite Hs in Hs';
         try discriminate; injection Hs' as <-; rewrite Hcl; discriminate
       | rewrite He' in Hr; discriminate Hr ]).
  - intros (s & Hs & Hcl). now apply (hybridSearch_open this d s).
Qed.

(** X6.  [getPaperFullContent] throws on a service that is not connected
    (the searches return an empty list there).  When it returns, the
    content is a [Buffer] only for a stored type [application/pdf] and a
    string only for another type, and in both cases the paper is flagged
    as having full content; a paper without the flag or without stored
    bytes has no content. *)
Theorem getPaperFullContent_content (this : Neo4jService) (paperId : jsstring) :
  (connected this = false \/ driver this = None ->
   getPaperFullContent this paperId = Throw "Neo4j not connected") /\
  (forall c, getPaperFullContent this paperId = Return c ->
             match content c with
             | NoContent => True
             | Binary _ =>
                 hasFullContent c = true /\ contentType c = Some applicationPdf
             | Text _ =>
                 hasFullContent c = true /\ contentType c <> Some applicationPdf
             end).
Proof.
  split.
  - unfold getPaperFullContent. intros [H|H]; rewrite H;
      [reflexivity | destruct (connected this); reflexivity].
  - intros c. unfold getPaperFullContent.
    destruct (connected this); [|discriminate].
    destruct (driver this) as [d|]; [|discriminate].
    destruct (session d) as [s|]; cbn [bind]; [|discriminate].
    destruct (close s) as [[]|]; cbn [finally]; [|discriminate].
    destruct (runContent s paperId) as [[|record records]|];
      cbn [bind try_catch]; try discriminate.
    destruct (toNumberOrZero (recOriginalSize record)) as [size|];
      cbn [bind try_catch]; [|discriminate].
    intros H. injection H as <-. cbn [content hasFullContent contentType].
    destruct (fileContent record) as [[|ch rest]|]; try exact I.
    destruct (recHasFullContent record); [|exact I].
    unfold isTypeOf.
    destruct (recContentType record) as [t|]; [|split; [reflexivity|discriminate]].
    destruct (jsstring_eqb t applicationPdf) eqn:E.
    + apply jsstring_eqb_eq in E. subst t. split; reflexivity.
    + apply jsstring_eqb_neq in E. split; [reflexivity|congruence].
Qed.

End SearchOutcomes.

Section SearchOutcomeExamples.
Import JS Neo4j Fixtures.

Lemma hybridSearch_returns_iff_session_works_witness :
  (exists r, hybridSearch threeStrategyService (lit "graphs") None None = Return r)
  <-> (exists s, Return threeStrategySession = Return s /\ close s = Return tt).
Proof.
  apply (hybridSearch_returns_iff_session_works threeStrategyService
           (mkDriver (Return threeStrategySession)) (lit "graphs") None None);
    reflexivity.
Defined.

End SearchOutcomeExamples.


(** ** Passages and their relevance *)

Section PassageFacts.
Import JS GraphRAG.

Lemma lengthQ_nonneg {A} (l : list A) : 0 <= lengthQ l.
Proof.
  unfold lengthQ. rewrite <- (Zle_Qle 0). lia.
Qed.

Lemma lengthQ_pos {A} (l : list A) : l <> [] -> 0 < lengthQ l.
Proof.
  intros H. unfold lengthQ. rewrite <- (Zlt_Qlt 0).
  destruct l; [congruence|cbn [length]; lia].
Qed.

Lemma lengthQ_filter {A} (f : A -> bool) (l : list A) :
  lengthQ (filter f l) <= lengthQ l.
Proof.
  unfold lengthQ. rewrite <- Zle_Qle. pose proof (filter_length_le f l). lia.
Qed.

(** A part of a whole, as a fraction. *)
Lemma fraction_range (a n : Q) : 0 <= a -> a <= n -> 0 < n -> 0 <= a / n <= 1.
Proof.
  intros Ha Han Hn. split.
  - apply Qle_shift_div_l; [exact Hn|]. Lqa.lra.
  - apply Qle_shift_div_r; [exact Hn|]. Lqa.lra.
Qed.

Lemma trimStart_length (s : jsstring) : (length (trimStart s) <= length s)%nat.
Proof.
  induction s as [|c s IH]; cbn [trimStart]; [lia|].
  destruct (isWhiteSpace c); cbn [length]; lia.
Qed.

Lemma trim_length (s : jsstring) : (length (trim s) <= length s)%nat.
Proof.
  unfold trim. rewrite length_rev.
  etransitivity; [apply trimStart_length|]. rewrite length_rev.
  apply trimStart_length.
Qed.

Lemma joinSpace_length (l : list jsstring) :
  length (joinSpace l) = (list_sum (map (@length Z) l) + (length l - 1))%nat.
Proof.
  induction l as [|w ws IH]; [reflexivity|].
  destruct ws as [|w' ws]; [cbn; lia|].
  change (joinSpace (w :: w' :: ws)) with (w ++ 32%Z :: joinSpace (w' :: ws)).
  rewrite length_app. cbn [length]. rewrite IH. simpl. lia.
Qed.

Lemma splitRuns_nonempty (sep : Z -> bool) (s : jsstring) :
  forall inRun, splitRuns sep inRun s <> [].
Proof.
  induction s as [|c s IH]; intros inRun; cbn [splitRuns]; [discriminate|].
  destruct (sep c).
  - destruct inRun; [apply IH | discriminate].
  - destruct (splitRuns sep false s); discriminate.
Qed.

Lemma splitRuns_joined_length (sep : Z -> bool) (s : jsstring) :
  forall inRun,
    (length (joinSpace (splitRuns sep inRun s)) <= length s)%nat.
Proof.
  induction s as [|c s IH]; intros inRun; cbn [splitRuns]; [cbn; lia|].
  destruct (sep c).
  - destruct inRun.
    + specialize (IH true). cbn [length]. lia.
    + specialize (IH true).
      pose proof (splitRuns_nonempty sep s true) as Hne.
      destruct (splitRuns sep true s) as [|w ws]; [congruence|].
      change (joinSpace ([] :: w :: ws)) with ([] ++ 32%Z :: joinSpace (w :: ws)).
      cbn [app length]. lia.
  - specialize (IH false).
    pose proof (splitRuns_nonempty sep s false) as Hne.
    destruct (splitRuns sep false s) as [|w ws]; [congruence|].
    rewrite joinSpace_length in *. simpl in *. apply le_n_S, IH.
Qed.

Lemma list_sum_firstn (n : nat) (l : list nat) :
  (list_sum (firstn n l) <= list_sum l)%nat.
Proof.
  unfold list_sum.
  revert n. induction l as [|x l IH]; intros [|n]; simpl; try lia.
  specialize (IH n). lia.
Qed.

Lemma list_sum_skipn (n : nat) (l : list nat) :
  (list_sum (skipn n l) <= list_sum l)%nat.
Proof.
  unfold list_sum.
  revert n. induction l as [|x l IH]; intros [|n]; simpl; try lia.
  specialize (IH n). lia.
Qed.

Lemma slice_joined_length (n k : nat) (l : list jsstring) :
  (length (joinSpace (firstn n (skipn k l))) <= length (joinSpace l))%nat.
Proof.
  rewrite !joinSpace_length, <- firstn_map, <- skipn_map.
  pose proof (list_sum_firstn n (skipn k (map (@length Z) l))) as H1.
  pose proof (list_sum_skipn k (map (@length Z) l)) as H2.
  rewrite length_firstn, length_skipn. unfold jsstring in *. lia.
Qed.

(** No chunk is longer than the text it is cut from. *)
Lemma chunkText_short (text : jsstring) (maxWords : nat) :
  (length text <= 50)%nat -> chunkText text maxWords = [].
Proof.
  intros Hlen. unfold chunkText.
  apply filter_nil_Forall. apply Forall_forall. intros chunk Hc.
  apply in_map_iff in Hc. destruct Hc as (k & <- & _).
  apply Nat.ltb_ge.
  etransitivity; [apply trim_length|].
  etransitivity; [apply slice_joined_length|].
  etransitivity; [apply splitRuns_joined_length|]. exact Hlen.
Qed.

Context {host : Host}.

(** X7.  [calculateTextRelevance] is the fraction of the question's terms of
    more than three characters that occur in the text: a number between
    0 and 1, and 0 for a question without such a term. *)
Theorem calculateTextRelevance_range (text question : jsstring) :
  0 <= calculateTextRelevance text question <= 1 /\
  (Forall (fun w => (length w <= 3)%nat)
          (splitWhitespace (toLowerCase question)) ->
   calculateTextRelevance text question == 0).
Proof.
  unfold calculateTextRelevance.
  set (terms := filter (fun w => (3 <? length w)%nat)
                       (splitWhitespace (toLowerCase question))).
  split.
  - destruct (0 <? length terms)%nat eqn:E; [|Lqa.lra].
    apply Nat.ltb_lt in E.
    apply fraction_range.
    + apply lengthQ_nonneg.
    + apply lengthQ_filter.
    + apply lengthQ_pos. destruct terms; [cbn in E; lia|discriminate].
  - intros Hshort.
    assert (Hnil : terms = []).
    { unfold terms. apply filter_nil_Forall.
      eapply Forall_impl; [|exact Hshort]. cbv beta. intros w Hw.
      apply Nat.ltb_ge. exact Hw. }
    rewrite Hnil. cbn. reflexivity.
Qed.

(** X8.  A paper whose stored full text is plain text of at most 50
    characters yields no passage at all: the single chunk is not
    "substantial", and the abstract is only used for papers without full
    text. *)
Theorem short_full_text_gives_no_passage (question : jsstring)
        (p : PaperWithContent) (s : jsstring) :
  fullContent p = Neo4j.Text s -> s <> [] -> hasFullContent p = true ->
  contentType p = Some Neo4j.textPlain -> (length s <= 50)%nat ->
  passagesOf question p = [].
Proof.
  intros Hc Hs Hf Ht Hlen. unfold passagesOf. rewrite Hc, Hf, Ht.
  destruct s as [|c s]; [congruence|]. cbn [Embedding.isEmpty negb andb].
  unfold Neo4j.isTypeOf. rewrite jsstring_eqb_refl.
  rewrite (chunkText_short _ 500 Hlen). reflexivity.
Qed.

Lemma passagesOf_shape (question : jsstring) (p : PaperWithContent) :
  Forall (fun psg =>
            ((3 # 10) < relevance psg /\ relevance psg <= 1) /\
            paperId psg = Neo4j.paperId (base p) /\
            paperTitle psg = Neo4j.title (Neo4j.paper (base p)))
         (passagesOf question p).
Proof.
  assert (Habs : forall fallback,
             Forall (fun psg =>
                       ((3 # 10) < relevance psg /\ relevance psg <= 1) /\
                       paperId psg = Neo4j.paperId (base p) /\
                       paperTitle psg = Neo4j.title (Neo4j.paper (base p)))
                    [mkPassage (Neo4j.paperId (base p))
                               (Neo4j.title (Neo4j.paper (base p)))
                               (abstractOr p fallback) (8 # 10) from_abstract]).
  { intros fallback. constructor; [|constructor]. cbn [relevance paperId paperTitle].
    repeat split; Lqa.lra. }
  unfold passagesOf.
  destruct (_ && hasFullContent p).
  - destruct (fullContent p) as [| |s]; try apply Habs.
    destruct (Neo4j.isTypeOf Neo4j.textPlain (contentType p)); [|apply Habs].
    apply Forall_forall. intros psg Hin.
    apply in_map_iff in Hin. destruct Hin as (chunk & <- & Hchunk).
    apply filter_In in Hchunk. destruct Hchunk as [_ Hrel].
    cbn [relevance paperId paperTitle].
    split; [|split; reflexivity]. split.
    + apply negb_true_iff in Hrel.
      destruct (Qlt_le_dec (3 # 10) (calculateTextRelevance chunk question))
        as [Hlt|Hle]; [exact Hlt|].
      apply Qle_bool_iff in Hle. congruence.
    + apply calculateTextRelevance_range.
  - constructor; [|constructor]. cbn [relevance paperId paperTitle].
    repeat split; Lqa.lra.
Qed.

(** X9.  [extractRelevantPassages] returns at most ten passages, the most
    relevant first; each belongs to one of the given papers and has a
    relevance above 0.3 and at most 1 (0.5 or 0.8 for an abstract, the
    fraction of matched question terms for a chunk of full text). *)
Theorem extractRelevantPassages_shape (papers : list PaperWithContent)
        (question : jsstring) :
  let passages := extractRelevantPassages papers question in
  (length passages <= 10)%nat /\
  StronglySorted (descending relevance) passages /\
  Forall (fun psg =>
            ((3 # 10) < relevance psg /\ relevance psg <= 1) /\
            exists p, In p papers /\
                      paperId psg = Neo4j.paperId (base p) /\
                      paperTitle psg = Neo4j.title (Neo4j.paper (base p)))
         passages.
Proof.
  intros passages. unfold passages, extractRelevantPassages.
  split; [apply firstn_le_length|].
  split; [apply firstn_sorted, sortDesc_sorted|].
  apply firstn_Forall. apply Forall_forall. intros psg Hin.
  apply (Permutation_in _ (sortDesc_perm relevance _)) in Hin.
  apply in_flat_map in Hin. destruct Hin as (p & Hp & Hin).
  pose proof (passagesOf_shape question p) as Hshape.
  rewrite Forall_forall in Hshape. destruct (Hshape psg Hin) as (Hr & Hid & Ht).
  split; [exact Hr|]. exists p. auto.
Qed.

End PassageFacts.

Section PassageExamples.
Import JS GraphRAG Fixtures Samples.

Lemma short_full_text_gives_no_passage_witness :
  passagesOf (lit "graph neural networks") shortTextFinding = [].
Proof.
  apply (short_full_text_gives_no_passage _ shortTextFinding
           (lit "Graph neural networks, a short note."));
    [reflexivity | discriminate | reflexivity | reflexivity | vm_compute; lia].
Defined.

End PassageExamples.

(** ** Confidence scores stay in range for bounded inputs *)

Section ConfidenceRanges.
Import JS GraphRAG AdvancedRAG.

Lemma sumQ_acc {A} (f : A -> Q) (l : list A) :
  forall a, fold_left (fun sum x => sum + f x) l a == a + sumQ f l.
Proof.
  unfold sumQ. induction l as [|x l IH]; intros a; cbn [fold_left].
  - Lqa.lra.
  - rewrite IH, (IH (0 + f x)). Lqa.lra.
Qed.

Lemma sumQ_cons {A} (f : A -> Q) (x : A) (l : list A) :
  sumQ f (x :: l) == f x + sumQ f l.
Proof. unfold sumQ at 1. cbn [fold_left]. rewrite sumQ_acc. Lqa.lra. Qed.

Lemma lengthQ_cons {A} (x : A) (l : list A) : lengthQ (x :: l) == 1 + lengthQ l.
Proof.
  unfold lengthQ. cbn [length]. rewrite Nat2Z.inj_succ.
  unfold Z.succ. rewrite inject_Z_plus. change (inject_Z 1) with 1. Lqa.lra.
Qed.

Lemma sumQ_bounds {A} (f : A -> Q) (lo hi : Q) (l : list A) :
  Forall (fun x => lo <= f x /\ f x <= hi) l ->
  lo * lengthQ l <= sumQ f l /\ sumQ f l <= hi * lengthQ l.
Proof.
  induction 1 as [|x l [Hlo Hhi] _ [IHlo IHhi]].
  - unfold sumQ, lengthQ. cbn [fold_left length Z.of_nat].
    change (inject_Z 0) with 0. split; Lqa.lra.
  - rewrite sumQ_cons, lengthQ_cons. split; Lqa.lra.
Qed.

Lemma mean_bounds {A} (f : A -> Q) (lo hi : Q) (l : list A) :
  l <> [] -> Forall (fun x => lo <= f x /\ f x <= hi) l ->
  lo <= sumQ f l / lengthQ l /\ sumQ f l / lengthQ l <= hi.
Proof.
  intros Hne Hall. pose proof (lengthQ_pos l Hne) as Hn.
  destruct (sumQ_bounds f lo hi l Hall) as [Hlo Hhi]. split.
  - apply Qle_shift_div_l; [exact Hn|exact Hlo].
  - apply Qle_shift_div_r; [exact Hn|exact Hhi].
Qed.

Lemma Math_round_range (lo hi : Z) (x : Q) :
  inject_Z lo <= x -> x <= inject_Z hi -> (lo <= Math_round x <= hi)%Z.
Proof.
  intros Hlo Hhi. unfold Math_round. split.
  - rewrite <- (Qfloor_Z lo). apply Qfloor_resp_le. Lqa.lra.
  - assert (E : Qfloor (inject_Z hi + (1 # 2)) = hi).
    { apply Qfloor_unique; [Lqa.lra|].
      rewrite inject_Z_plus. change (inject_Z 1) with 1. Lqa.lra. }
    apply Z.le_trans with (Qfloor (inject_Z hi + (1 # 2)));
      [apply Qfloor_resp_le; Lqa.lra | rewrite E; lia].
Qed.

Lemma capped_count_range {A} (l : list A) :
  0 <= Qmin (lengthQ l / 5) 1 /\ Qmin (lengthQ l / 5) 1 <= 1.
Proof.
  pose proof (lengthQ_nonneg l) as Hn. split.
  - apply Q.min_glb; [|Lqa.lra]. apply Qle_shift_div_l; Lqa.lra.
  - apply Q.le_min_r.
Qed.

Lemma content_share_range (papers : list PaperWithContent) :
  papers <> [] ->
  0 <= lengthQ (filter hasFullContent papers) / lengthQ papers /\
  lengthQ (filter hasFullContent papers) / lengthQ papers <= 1.
Proof.
  intros Hne. apply fraction_range.
  - apply lengthQ_nonneg.
  - apply lengthQ_filter.
  - now apply lengthQ_pos.
Qed.

(** X10.  [calculateConfidence] is an integer between 0 and 100 when the score
    it reads from every paper ([similarity || relevance ||
    combinedScore]) lies between 0 and 1. *)
Theorem calculateConfidence_range (papers : list PaperWithContent)
        (passages : list Passage) :
  Forall (fun p => 0 <= firstScore p /\ firstScore p <= 1) papers ->
  (0 <= calculateConfidence papers passages <= 100)%Z.
Proof.
  intros Hscores. unfold calculateConfidence.
  destruct papers as [|p rest]; [cbn; lia|]. cbn [Embedding.isEmpty].
  remember (p :: rest) as papers0 eqn:Ep.
  assert (Hne : papers0 <> []) by (rewrite Ep; discriminate).
  destruct (capped_count_range papers0) as [Hc1 Hc2].
  destruct (capped_count_range passages) as [Hp1 Hp2].
  destruct (content_share_range papers0 Hne) as [Hs1 Hs2].
  destruct (mean_bounds (fun p => firstScore p) 0 1 papers0 Hne Hscores)
    as [Hm1 Hm2].
  set (a := Qmin (lengthQ papers0 / 5) 1) in *.
  set (b := sumQ (fun p => firstScore p) papers0 / lengthQ papers0) in *.
  set (c := Qmin (lengthQ passages / 5) 1) in *.
  set (d := lengthQ (filter hasFullContent papers0) / lengthQ papers0) in *.
  apply Math_round_range; change (inject_Z 0) with 0;
    change (inject_Z 100) with 100; Lqa.lra.
Qed.

(** X11.  [calculateStepConfidence] is an integer between 0 and 100 when no
    paper has more than 100 citations (or a negative count) and every
    passage relevance lies between 0 and 1. *)
Theorem calculateStepConfidence_range (papers : list PaperWithContent)
        (passages : list Passage) :
  Forall (fun p => 0 <= citations p /\ citations p <= 100) papers ->
  Forall (fun psg => 0 <= relevance psg /\ relevance psg <= 1) passages ->
  (0 <= calculateStepConfidence papers passages <= 100)%Z.
Proof.
  intros Hcit Hrel. unfold calculateStepConfidence.
  destruct papers as [|p rest]; [cbn; lia|]. cbn [Embedding.isEmpty].
  remember (p :: rest) as papers0 eqn:Ep.
  assert (Hne : papers0 <> []) by (rewrite Ep; discriminate).
  destruct (capped_count_range papers0) as [Hc1 Hc2].
  destruct (content_share_range papers0 Hne) as [Hs1 Hs2].
  destruct (mean_bounds citations 0 100 papers0 Hne Hcit) as [Hm1 Hm2].
  assert (Hpass :
            0 <= (if (0 <? length passages)%nat
                  then sumQ relevance passages / lengthQ passages * 30 else 0)
            /\ (if (0 <? length passages)%nat
                then sumQ relevance passages / lengthQ passages * 30 else 0)
               <= 30).
  { destruct passages as [|psg more]; [cbn; split; Lqa.lra|].
    cbn [length Nat.ltb Nat.leb].
    remember (psg :: more) as passages0 eqn:Eq.
    assert (Hq : passages0 <> []) by (rewrite Eq; discriminate).
    destruct (mean_bounds relevance 0 1 passages0 Hq Hrel) as [Hr1 Hr2].
    set (r := sumQ relevance passages0 / lengthQ passages0) in *.
    split; Lqa.lra. }
  destruct Hpass as [Hp1 Hp2].
  set (a := Qmin (lengthQ papers0 / 5) 1) in *.
  set (b := lengthQ (filter hasFullContent papers0) / lengthQ papers0) in *.
  set (c := if (0 <? length passages)%nat
            then sumQ relevance passages / lengthQ passages * 30 else 0) in *.
  set (d := sumQ citations papers0 / lengthQ papers0) in *.
  apply Math_round_range; change (inject_Z 0) with 0;
    change (inject_Z 100) with 100; unfold Qdiv;
    change (/ 100) with (1 # 100); Lqa.lra.
Qed.

End ConfidenceRanges.

Section ConfidenceRangeExamples.
Import JS GraphRAG AdvancedRAG Fixtures Samples.

Lemma calculateConfidence_range_witness :
  (0 <= calculateConfidence [semanticFinding] [] <= 100)%Z.
Proof.
  apply (calculateConfidence_range [semanticFinding] []).
  repeat constructor; vm_compute; discriminate.
Defined.

Lemma calculateStepConfidence_range_witness :
  (0 <= calculateStepConfidence [semanticFinding] [citedPassage] <= 100)%Z.
Proof.
  apply (calculateStepConfidence_range [semanticFinding] [citedPassage]);
    repeat constructor; vm_compute; discriminate.
Defined.

End ConfidenceRangeExamples.

(** ** The pipelines: content look-up, analysis replies and research steps *)

Section PipelineEdges.
Import JS GraphRAG AdvancedRAG.
Context {host : Host}.
Variable neo4jService : Neo4j.Neo4jService.
Variable groqService : Groq.

(** X12.  [getPapersFullContent] keeps the papers it is given, one entry each
    and in the same order, whatever the content look-ups do; when the
    service is not connected every paper carries its abstract (or the
    empty string) as plain text and is flagged as lacking full
    content. *)
Theorem getPapersFullContent_keeps_papers (papers : list Neo4j.CombinedResult) :
  map base (getPapersFullContent neo4jService papers) = papers /\
  (Neo4j.connected neo4jService = false ->
   Forall (fun p =>
             fullContent p
             = Neo4j.Text match Neo4j.abstract (Neo4j.paper (base p)) with
                          | Some text => text
                          | None => []
                          end /\
             contentType p = Some Neo4j.textPlain /\
             hasFullContent p = false)
          (getPapersFullContent neo4jService papers)).
Proof.
  unfold getPapersFullContent. split.
  - rewrite map_map. rewrite <- (map_id papers) at 2.
    apply map_ext. intros p. unfold withContent.
    destruct (Neo4j.getPaperFullContent neo4jService (Neo4j.paperId p));
      reflexivity.
  - intros Hdown. apply Forall_forall. intros q Hq.
    apply in_map_iff in Hq. destruct Hq as (p & <- & _).
    unfold withContent, Neo4j.getPaperFullContent. rewrite Hdown.
    cbn [base fullContent contentType hasFullContent].
    split; [|split; reflexivity].
    destruct (Neo4j.abstract (Neo4j.paper p)) as [[|c rest]|]; reflexivity.
Qed.

(** X13.  When the generator's analysis of the question parses to an object
    whose [entities] is a truthy value other than an array (a string, a
    number, an object), [askQuestion] answers with the fixed fall-back
    response: the value has no [join], and the TypeError is caught by
    the outer [catch]. *)
Theorem askQuestion_non_array_entities (question : jsstring)
        (topic : option jsstring) (history : option (list Turn))
        (response : jsstring) (fields : list (jsstring * json)) (v : json) :
  generateCompletion groqService (AnalysisPrompt question) = Return response ->
  JSON_parse response = Return (JObj fields) ->
  lookupField fields (lit "entities") = Some v ->
  truthy v = true -> (forall l, v <> JArr l) ->
  askQuestion neo4jService groqService question topic history
  = Return (fallbackResponse question).
Proof.
  intros Hgen Hparse Hfield Htruthy Hnot.
  unfold askQuestion, askQuestionBody, analyzeQuestion.
  rewrite Hgen. cbn [bind try_catch]. rewrite Hparse.
  cbn [bind try_catch getProp]. rewrite Hfield. cbn [orElse entities].
  rewrite Htruthy.
  destruct v; cbn [arrayJoin bind try_catch]; try reflexivity.
  exfalso. eapply Hnot. reflexivity.
Qed.

Lemma executeResearchStep_outcome (now : Z) (step : PlanStep)
      (previousSteps : list ResearchStep) (topic : option jsstring)
      (r : Neo4j.HybridResults) :
  Neo4j.hybridSearch neo4jService (planQuestion step) (Some 8%nat) topic
  = Return r ->
  let papersWithContent :=
    getPapersFullContent neo4jService (firstn 5 (Neo4j.combinedResults r)) in
  let relevantPassages :=
    extractRelevantPassages papersWithContent (planQuestion step) in
  let previousContext :=
    map (fun s =>
           (question s,
            map (fun f => Neo4j.title (Neo4j.paper (base f)))
                (firstn 2 (findings s))))
        previousSteps in
  executeResearchStep neo4jService groqService now step previousSteps topic
  = bind (getProp (analyzeStepFindings groqService step relevantPassages
                     previousContext) "nextSteps")
      (fun next =>
         Return (mkStep now (planQuestion step) (planReasoning step)
                   papersWithContent
                   (calculateStepConfidence papersWithContent relevantPassages)
                   (orElse next (JArr [])))).
Proof.
  intros Hr. cbv zeta. unfold executeResearchStep. rewrite Hr. reflexivity.
Qed.

(** X14.  [executeResearchStep] has a fall-back for an analysis reply that is
    not JSON, but not for one that parses to [null]: reading
    [findings.nextSteps] then throws, and the step fails although the
    search succeeded. *)
Theorem executeResearchStep_null_analysis (now : Z) (step : PlanStep)
        (previousSteps : list ResearchStep) (topic : option jsstring)
        (r : Neo4j.HybridResults) (response : jsstring) :
  Neo4j.hybridSearch neo4jService (planQuestion step) (Some 8%nat) topic
  = Return r ->
  (forall prompt, generateCompletion groqService prompt = Return response) ->
  JSON_parse response = Return JNull ->
  exists e,
    executeResearchStep neo4jService groqService now step previousSteps topic
    = Throw e.
Proof.
  intros Hr Hgen Hparse.
  rewrite (executeResearchStep_outcome _ _ _ _ _ Hr). cbv zeta.
  unfold analyzeStepFindings. rewrite Hgen. cbn [bind]. rewrite Hparse.
  cbn [getProp bind]. eexists; reflexivity.
Qed.


End PipelineEdges.

Section PipelineEdgeExamples.
Import JS GraphRAG AdvancedRAG Fixtures Samples.

Lemma askQuestion_non_array_entities_witness :
  @askQuestion textEntitiesHost downService shortReplyGroq
               (lit "what are graphs") None None
  = Return (fallbackResponse (lit "what are graphs")).
Proof.
  apply (@askQuestion_non_array_entities textEntitiesHost downService
           shortReplyGroq (lit "what are graphs") None None (lit "ok")
           [(lit "entities", JStr (lit "graphs"))] (JStr (lit "graphs")));
    try reflexivity.
  intros l. discriminate.
Defined.

Lemma executeResearchStep_null_analysis_witness :
  exists e,
    executeResearchStep threeStrategyService nullReplyGroq 0 attentionStep [] None
    = Throw e.
Proof.
  destruct (hybridSearch_open threeStrategyService
              (Neo4j.mkDriver (Return threeStrategySession))
              threeStrategySession (planQuestion attentionStep) (Some 8%nat) None
              eq_refl eq_refl eq_refl eq_refl) as [r Hr].
  apply (executeResearchStep_null_analysis threeStrategyService nullReplyGroq
           0 attentionStep [] None r (lit "null") Hr);
    reflexivity.
Defined.

Lemma twoTopicStep_executed :
  executeResearchStep twoTopicService noKeyGroq 0 attentionStep [] None
  = Return twoTopicStep.
Proof.
  assert (Hsearch : Neo4j.hybridSearch twoTopicService (planQuestion attentionStep)
                      (Some 8%nat) None
                    = Return twoTopicResults) by reflexivity.
  rewrite (executeResearchStep_outcome _ _ _ _ _ _ _ Hsearch).
  cbv zeta. vm_compute. reflexivity.
Qed.


End PipelineEdgeExamples.

(** ** AdvancedRAGService: deduplicated sources and research plans *)

Section SourceFacts.
Import JS Investigation.

Lemma existsb_eqb_In (x : jsstring) (l : list jsstring) :
  existsb (jsstring_eqb x) l = true <-> In x l.
Proof.
  rewrite existsb_exists. split.
  - intros (y & Hy & E). apply jsstring_eqb_eq in E. now subst.
  - intros H. exists x. split; [exact H | apply jsstring_eqb_refl].
Qed.

Lemma keepUnseen_In (allSources : list GraphRAG.PaperWithContent) :
  forall seen source,
    In source (keepUnseen seen allSources) ->
    In source allSources /\
    ~ In (Neo4j.paperId (GraphRAG.base source)) seen.
Proof.
  induction allSources as [|s rest IH]; intros seen source; cbn [keepUnseen];
    [intros []|].
  cbv zeta.
  destruct (existsb _ seen) eqn:E.
  - intros H. destruct (IH _ _ H). split; [now right | assumption].
  - intros [<-|H].
    + split; [now left|]. intros Hin. apply existsb_eqb_In in Hin. congruence.
    + destruct (IH _ _ H) as [H1 H2]. split; [now right|].
      intros Hin. apply H2. now right.
Qed.

Lemma keepUnseen_NoDup (allSources : list GraphRAG.PaperWithContent) :
  forall seen,
    NoDup (map (fun s => Neo4j.paperId (GraphRAG.base s))
               (keepUnseen seen allSources)).
Proof.
  induction allSources as [|s rest IH]; intros seen; cbn [keepUnseen];
    [constructor|].
  cbv zeta. destruct (existsb _ seen); [apply IH|].
  cbn [map]. constructor; [|apply IH].
  intros Hin. apply in_map_iff in Hin. destruct Hin as (x & Hx & Hin).
  apply keepUnseen_In in Hin. destruct Hin as [_ Hn]. apply Hn.
  rewrite Hx. now left.
Qed.

Lemma keepUnseen_find (pid : jsstring)
      (allSources : list GraphRAG.PaperWithContent) :
  forall seen,
    find (fun s => jsstring_eqb (Neo4j.paperId (GraphRAG.base s)) pid)
         (keepUnseen seen allSources)
    = if existsb (jsstring_eqb pid) seen then None
      else find (fun s => jsstring_eqb (Neo4j.paperId (GraphRAG.base s)) pid)
                allSources.
Proof.
  induction allSources as [|s rest IH]; intros seen; cbn [keepUnseen find].
  - destruct (existsb _ seen); reflexivity.
  - cbv zeta.
    destruct (existsb (jsstring_eqb (Neo4j.paperId (GraphRAG.base s))) seen)
      eqn:Eseen.
    + rewrite IH.
      destruct (existsb (jsstring_eqb pid) seen) eqn:Epid; [reflexivity|].
      destruct (jsstring_eqb (Neo4j.paperId (GraphRAG.base s)) pid) eqn:E;
        [|reflexivity].
      apply jsstring_eqb_eq in E. congruence.
    + cbn [find].
      destruct (jsstring_eqb (Neo4j.paperId (GraphRAG.base s)) pid) eqn:E.
      * apply jsstring_eqb_eq in E. subst pid. rewrite Eseen. reflexivity.
      * rewrite IH. cbn [existsb].
        assert (E' : jsstring_eqb pid (Neo4j.paperId (GraphRAG.base s)) = false).
        { apply jsstring_eqb_neq. apply jsstring_eqb_neq in E. congruence. }
        rewrite E'. reflexivity.
Qed.

Lemma keepUnseen_fixed (allSources : list GraphRAG.PaperWithContent) :
  forall seen,
    NoDup (map (fun s => Neo4j.paperId (GraphRAG.base s)) allSources) ->
    (forall s, In s allSources ->
               ~ In (Neo4j.paperId (GraphRAG.base s)) seen) ->
    keepUnseen seen allSources = allSources.
Proof.
  induction allSources as [|s rest IH]; intros seen Hnd Hfresh;
    cbn [keepUnseen]; [reflexivity|].
  cbv zeta. cbn [map] in Hnd. inversion Hnd as [|? ? Hs Hrest]; subst.
  destruct (existsb _ seen) eqn:E.
  - apply existsb_eqb_In in E. exfalso. apply (Hfresh s); [now left|exact E].
  - f_equal. apply IH; [exact Hrest|].
    intros x Hx [Heq|Hin].
    + apply Hs. rewrite Heq. apply in_map_iff. exists x. auto.
    + apply (Hfresh x); [now right|exact Hin].
Qed.

(** X16.  [deduplicateSources] keeps, for every paper id, the first source
    with that id and drops the later ones: the result has no id twice,
    holds exactly the ids of the input, and is left unchanged by a
    second pass. *)
Theorem deduplicateSources_first_of_each_id
        (allSources : list GraphRAG.PaperWithContent) :
  let sourceId := fun s => Neo4j.paperId (GraphRAG.base s) in
  NoDup (map sourceId (deduplicateSources allSources)) /\
  (forall pid,
      find (fun s => jsstring_eqb (sourceId s) pid) (deduplicateSources allSources)
      = find (fun s => jsstring_eqb (sourceId s) pid) allSources) /\
  (forall pid,
      In pid (map sourceId (deduplicateSources allSources))
      <-> In pid (map sourceId allSources)) /\
  (forall source, In source (deduplicateSources allSources) ->
                  In source allSources) /\
  deduplicateSources (deduplicateSources allSources)
  = deduplicateSources allSources.
Proof.
  intros sourceId. unfold deduplicateSources.
  assert (Hfind : forall pid,
             find (fun s => jsstring_eqb (sourceId s) pid) (keepUnseen [] allSources)
             = find (fun s => jsstring_eqb (sourceId s) pid) allSources).
  { intros pid. apply (keepUnseen_find pid allSources []). }
  assert (Hin : forall (l : list GraphRAG.PaperWithContent) pid,
             In pid (map sourceId l)
             <-> find (fun s => jsstring_eqb (sourceId s) pid) l <> None).
  { intros l pid. split.
    - intros H. apply in_map_iff in H. destruct H as (s & Hs & Hl).
      intros Hnone. apply (find_none _ _ Hnone) in Hl.
      rewrite Hs, jsstring_eqb_refl in Hl. discriminate.
    - intros H. destruct (find _ l) as [s|] eqn:E; [|congruence].
      apply find_some in E. destruct E as [Hl E]. apply jsstring_eqb_eq in E.
      apply in_map_iff. exists s. auto. }
  split; [apply keepUnseen_NoDup|].
  split; [exact Hfind|].
  split; [intros pid; rewrite !Hin, Hfind; reflexivity|].
  split; [intros source H; now apply keepUnseen_In in H|].
  apply keepUnseen_fixed; [apply keepUnseen_NoDup|]. intros s _ [].
Qed.

End SourceFacts.

Section PlanFacts.
Import JS Investigation.
Context {host : Host}.
Variable planner : Planner.

(** X17.  [createResearchPlan] never throws.  Its steps are an array of at
    most five entries or, when the reply carried a string under
    [steps], one to five characters of it; the single step that asks the
    question itself is used when the generator or the parser fails or
    the reply has no usable [steps], but an empty array in the reply
    stays an empty plan. *)
Theorem createResearchPlan_shape (question : jsstring) :
  exists plan,
    createResearchPlan planner question = Return plan /\
    match plan with
    | StepArray steps => (length steps <= 5)%nat
    | StepString steps => (0 < length steps <= 5)%nat
    end /\
    ((exists e, planningReply planner question = Throw e) ->
     plan = directStep question) /\
    (forall response,
        planningReply planner question = Return response ->
        (exists e, JSON_parse response = Throw e) ->
        plan = directStep question) /\
    (forall response fields steps,
        planningReply planner question = Return response ->
        JSON_parse response = Return (JObj fields) ->
        GraphRAG.lookupField fields (lit "steps") = Some (JArr steps) ->
        plan = StepArray (firstn 5 steps)).
Proof.
  unfold createResearchPlan.
  destruct (planningReply planner question) as [response|e] eqn:Hreply;
    cbn [bind try_catch].
  2:{ eexists. split; [reflexivity|]. split; [cbn; lia|].
      split; [reflexivity|]. split; intros; discriminate. }
  destruct (JSON_parse response) as [plan|e] eqn:Hparse; cbn [bind try_catch].
  2:{ eexists. split; [reflexivity|]. split; [cbn; lia|].
      split; [reflexivity|]. split; [reflexivity|].
      intros ? ? ? H. injection H as <-. congruence. }
  assert (Hdirect : match directStep question with
                    | StepArray steps => (length steps <= 5)%nat
                    | StepString steps => (0 < length steps <= 5)%nat
                    end) by (cbn; lia).
  destruct plan as [|b|q|s|l|fields]; cbn [GraphRAG.getProp bind try_catch sliceSteps stepsOr];
    try (eexists; split; [reflexivity|]; split; [exact Hdirect|];
         split; [intros [e He]; discriminate|];
         split; [intros r Hr [e He]; injection Hr as <-; congruence|];
         intros r f st Hr Hp; injection Hr as <-; congruence).
  destruct (GraphRAG.lookupField fields (lit "steps")) as [v|] eqn:Hsteps.
  2:{ cbn [sliceSteps bind try_catch stepsOr].
      eexists; split; [reflexivity|]; split; [exact Hdirect|].
      split; [intros [e He]; discriminate|].
      split; [intros r Hr [e He]; injection Hr as <-; congruence|].
      intros r f st Hr Hp Hl. injection Hr as <-. rewrite Hparse in Hp.
      injection Hp as <-. congruence. }
  assert (Hrest :
            forall plan,
              match plan with
              | StepArray steps => (length steps <= 5)%nat
              | StepString steps => (0 < length steps <= 5)%nat
              end ->
              (forall steps, v = JArr steps -> plan = StepArray (firstn 5 steps)) ->
              exists plan0,
                Return plan = Return plan0 /\
                match plan0 with
                | StepArray steps => (length steps <= 5)%nat
                | StepString steps => (0 < length steps <= 5)%nat
                end /\
                ((exists e, @Return jsstring response = Throw e) ->
                 plan0 = directStep question) /\
                (forall response0,
                    Return response = Return response0 ->
                    (exists e, JSON_parse response0 = Throw e) ->
                    plan0 = directStep question) /\
                (forall response0 fields0 steps,
                    Return response = Return response0 ->
                    JSON_parse response0 = Return (JObj fields0) ->
                    GraphRAG.lookupField fields0 (lit "steps") = Some (JArr steps) ->
                    plan0 = StepArray (firstn 5 steps))).
  { intros plan Hshape Harr. exists plan. split; [reflexivity|].
    split; [exact Hshape|]. split; [intros [e He]; discriminate|].
    split; [intros r Hr [e He]; injection Hr as <-; congruence|].
    intros r f st Hr Hp Hl. injection Hr as <-. rewrite Hparse in Hp.
    injection Hp as <-. rewrite Hsteps in Hl. injection Hl as Hv.
    now apply Harr. }
  destruct v as [|b|q|s|l|fs]; cbn [sliceSteps bind try_catch stepsOr];
    try (apply Hrest; [exact Hdirect | intros; discriminate]).
  - destruct (firstn 5 s) as [|c rest] eqn:Es.
    + apply Hrest; [exact Hdirect | intros; discriminate].
    + apply Hrest; [|intros; discriminate].
      rewrite <- Es. split; [rewrite Es; cbn; lia | apply firstn_le_length].
  - apply Hrest; [apply firstn_le_length|].
    intros steps H. injection H as <-. reflexivity.
Qed.

End PlanFacts.

(** ** AdvancedRAGService: papers grouped by year *)

Section YearFacts.
Import JS Investigation TrendSpec.

Lemma groupPaper_years (acc : list YearData) (paper : TopicPaper) :
  forall y, In y (map year (groupPaper acc paper))
            <-> y = tpYear paper \/ In y (map year acc).
Proof.
  induction acc as [|entry rest IH]; intros y; cbn [groupPaper map In].
  - unfold addToYear. cbn [year]. intuition.
  - destruct (Z.eqb_spec (year entry) (tpYear paper)) as [E|E];
      cbn [map In].
    + unfold addToYear at 1. cbn [year]. rewrite E. intuition.
    + rewrite IH. intuition.
Qed.

Lemma groupPaper_NoDup (acc : list YearData) (paper : TopicPaper) :
  NoDup (map year acc) -> NoDup (map year (groupPaper acc paper)).
Proof.
  induction acc as [|entry rest IH]; intros Hnd; cbn [groupPaper map].
  - repeat constructor. intros [].
  - inversion Hnd as [|? ? Hentry Hrest]; subst.
    destruct (Z.eqb_spec (year entry) (tpYear paper)) as [E|E]; cbn [map].
    + unfold addToYear at 1. cbn [year]. now constructor.
    + constructor; [|now apply IH].
      rewrite groupPaper_years. intros [H|H]; [congruence|contradiction].
Qed.

Lemma groupPaper_entry (acc : list YearData) (paper : TopicPaper)
      (e : YearData) :
  NoDup (map year acc) ->
  In e (groupPaper acc paper) ->
  (In e acc /\ year e <> tpYear paper) \/
  (exists old, In old acc /\ year old = tpYear paper /\ e = addToYear old paper) \/
  (~ In (tpYear paper) (map year acc) /\
   e = addToYear (mkYearData (tpYear paper) 0 [] 0 []) paper).
Proof.
  induction acc as [|entry rest IH]; intros Hnd; cbn [groupPaper].
  - intros [<-|[]]. right; right. split; [intros []|reflexivity].
  - cbn [map] in Hnd. inversion Hnd as [|? ? Hentry Hrest]; subst.
    destruct (Z.eqb_spec (year entry) (tpYear paper)) as [E|E].
    + intros [<-|H].
      * right; left. exists entry. split; [now left|]. split; [exact E|reflexivity].
      * left. split; [now right|]. intros Hy. apply Hentry.
        rewrite E, <- Hy. now apply in_map.
    + intros [<-|H].
      * left. split; [now left|exact E].
      * destruct (IH Hrest H) as [[H1 H2]|[(old & H1 & H2 & H3)|[H1 H2]]].
        -- left. split; [now right|exact H2].
        -- right; left. exists old. split; [now right|]. split; assumption.
        -- right; right. split; [|exact H2].
           cbn [map In]. intros [H3|H3]; [congruence|contradiction].
Qed.

Lemma papersOfYear_app (y : Z) (l1 l2 : list TopicPaper) :
  papersOfYear y (l1 ++ l2) = papersOfYear y l1 ++ papersOfYear y l2.
Proof. apply filter_app. Qed.

Lemma firstn_snoc {A} (n : nat) (l : list A) (x : A) :
  firstn n (l ++ [x])
  = if (length (firstn n l) <? n)%nat then firstn n l ++ [x] else firstn n l.
Proof.
  rewrite length_firstn.
  destruct (Nat.ltb_spec (Nat.min n (length l)) n) as [H|H].
  - rewrite (firstn_all2 l) by lia.
    apply firstn_all2. rewrite length_app. cbn [length]. lia.
  - rewrite firstn_app.
    replace (n - length l)%nat with 0%nat by lia.
    cbn [firstn]. apply app_nil_r.
Qed.

Lemma topAuthors_bound (old : YearData) (paper : TopicPaper) :
  (length (topAuthors old) <= 5)%nat ->
  (length (topAuthors (addToYear old paper)) <= 5)%nat.
Proof.
  intros H. unfold addToYear. cbn [topAuthors].
  destruct (tpAuthors paper) as [[|author rest]|]; try exact H.
  destruct (Nat.ltb_spec (length (topAuthors old)) 5); [|exact H].
  rewrite length_app. cbn [length]. lia.
Qed.

Lemma summarizes_step (seen : list TopicPaper) (old : YearData)
      (paper : TopicPaper) :
  summarizes seen old -> year old = tpYear paper ->
  summarizes (seen ++ [paper]) (addToYear old paper).
Proof.
  unfold summarizes. cbv zeta.
  intros (Hne & Hcount & Htitles & Hauthors) Hyear.
  assert (Hyr : year (addToYear old paper) = year old) by reflexivity.
  rewrite Hyr, papersOfYear_app.
  assert (Hlast : papersOfYear (year old) [paper] = [paper]).
  { unfold papersOfYear. cbn [filter]. rewrite Hyear, Z.eqb_refl. reflexivity. }
  rewrite Hlast.
  set (ofYear := papersOfYear (year old) seen) in *.
  split; [destruct ofYear; discriminate|].
  split; [|split; [|now apply topAuthors_bound]].
  - unfold addToYear. cbn [paperCount]. rewrite Hcount, length_app.
    cbn [length]. lia.
  - unfold addToYear. cbn [sampleTitles]. rewrite Htitles, map_app.
    cbn [map]. symmetry. apply firstn_snoc.
Qed.

Lemma summarizes_fresh (seen : list TopicPaper) (paper : TopicPaper) :
  papersOfYear (tpYear paper) seen = [] ->
  summarizes (seen ++ [paper])
             (addToYear (mkYearData (tpYear paper) 0 [] 0 []) paper).
Proof.
  intros Hnone. unfold summarizes. cbv zeta.
  assert (Hyr : year (addToYear (mkYearData (tpYear paper) 0 [] 0 []) paper)
                = tpYear paper) by reflexivity.
  rewrite Hyr, papersOfYear_app, Hnone.
  unfold papersOfYear. cbn [filter app]. rewrite Z.eqb_refl.
  split; [discriminate|]. split; [reflexivity|]. split; [reflexivity|].
  unfold addToYear. cbn [topAuthors].
  destruct (tpAuthors paper) as [[|author rest]|]; cbn; lia.
Qed.

Lemma summarizes_other (seen : list TopicPaper) (e : YearData)
      (paper : TopicPaper) :
  summarizes seen e -> year e <> tpYear paper ->
  summarizes (seen ++ [paper]) e.
Proof.
  unfold summarizes. cbv zeta. intros H Hne.
  rewrite papersOfYear_app.
  assert (Hlast : papersOfYear (year e) [paper] = []).
  { unfold papersOfYear. cbn [filter].
    destruct (Z.eqb_spec (tpYear paper) (year e)); [congruence|reflexivity]. }
  rewrite Hlast, app_nil_r. exact H.
Qed.

(** The reducer keeps one entry per year met, and each entry summarizes
    the papers of its year. *)
Lemma grouped_invariant (seen : list TopicPaper) :
  NoDup (map year (fold_left groupPaper seen [])) /\
  (forall paper, In paper seen ->
                 In (tpYear paper) (map year (fold_left groupPaper seen []))) /\
  Forall (summarizes seen) (fold_left groupPaper seen []).
Proof.
  induction seen as [|paper seen IH] using rev_ind.
  - cbn. split; [constructor|]. split; [intros ? []|constructor].
  - destruct IH as (Hnd & Hcover & Hsum).
    rewrite fold_left_app. cbn [fold_left].
    set (acc := fold_left groupPaper seen []) in *.
    split; [now apply groupPaper_NoDup|]. split.
    + intros p Hp. apply groupPaper_years. apply in_app_iff in Hp.
      destruct Hp as [Hp|[<-|[]]]; [right; now apply Hcover|now left].
    + apply Forall_forall. intros e He. rewrite Forall_forall in Hsum.
      destruct (groupPaper_entry acc paper e Hnd He)
        as [[H1 H2]|[(old & H1 & H2 & ->)|[H1 ->]]].
      * apply summarizes_other; auto.
      * apply summarizes_step; auto.
      * apply summarizes_fresh.
        unfold papersOfYear.
        apply filter_nil_Forall. apply Forall_forall. intros p Hp.
        destruct (Z.eqb_spec (tpYear p) (tpYear paper)) as [E|E]; [|reflexivity].
        exfalso. apply H1. rewrite <- E. now apply Hcover.
Qed.

Lemma insertByYear_perm (entry : YearData) (sorted : list YearData) :
  Permutation (insertByYear entry sorted) (entry :: sorted).
Proof.
  induction sorted as [|other rest IH]; cbn [insertByYear]; [reflexivity|].
  destruct (year entry <=? year other)%Z; [reflexivity|].
  rewrite IH. apply perm_swap.
Qed.

Lemma sortByYear_perm (entries : list YearData) :
  Permutation (sortByYear entries) entries.
Proof.
  induction entries as [|e entries IH]; cbn [sortByYear fold_right];
    [reflexivity|].
  fold (sortByYear entries). rewrite insertByYear_perm. now constructor.
Qed.

Lemma insertByYear_sorted (entry : YearData) (sorted : list YearData) :
  ~ In (year entry) (map year sorted) ->
  StronglySorted (fun a b => (year a < year b)%Z) sorted ->
  StronglySorted (fun a b => (year a < year b)%Z) (insertByYear entry sorted).
Proof.
  intros Hfresh Hs. induction Hs as [|other rest Hs IH Hother];
    cbn [insertByYear]; [repeat constructor|].
  cbn [map In] in Hfresh.
  destruct (Z.leb_spec (year entry) (year other)) as [Hle|Hgt].
  - assert (Hlt : (year entry < year other)%Z) by lia.
    constructor; [now constructor|].
    constructor; [exact Hlt|].
    eapply Forall_impl; [|exact Hother]. cbv beta. intros; lia.
  - constructor; [apply IH; tauto|].
    apply Forall_forall. intros x Hx.
    apply (Permutation_in _ (insertByYear_perm entry rest)) in Hx.
    destruct Hx as [<-|Hx]; [lia|].
    rewrite Forall_forall in Hother. now apply Hother.
Qed.

Lemma sortByYear_sorted (entries : list YearData) :
  NoDup (map year entries) ->
  StronglySorted (fun a b => (year a < year b)%Z) (sortByYear entries).
Proof.
  induction entries as [|e entries IH]; intros Hnd;
    cbn [sortByYear fold_right]; [constructor|].
  fold (sortByYear entries). cbn [map] in Hnd.
  inversion Hnd as [|? ? He Hrest]; subst.
  apply insertByYear_sorted; [|now apply IH].
  intros Hin. apply He.
  eapply Permutation_in; [|exact Hin].
  apply Permutation_map, sortByYear_perm.
Qed.

(** X18.  [getPapersByYear] returns one entry for each year, between
    [fromYear] and [toYear], in which the topic has a paper, in strictly
    ascending order of the year; an entry holds the number of those
    papers, the titles of the first three and at most five first
    authors.  When the look-up of the topic's papers throws, the result
    is the empty list. *)
Theorem getPapersByYear_groups (store : TopicStore) (topic : jsstring)
        (fromYear toYear : Z) :
  ((exists e, getPapersByTopic store topic = Throw e) ->
   getPapersByYear store topic fromYear toYear = Return []) /\
  (forall papers,
      getPapersByTopic store topic = Return papers ->
      exists groups,
        getPapersByYear store topic fromYear toYear = Return groups /\
        StronglySorted (fun a b => (year a < year b)%Z) groups /\
        Forall (fun entry =>
                  (fromYear <= year entry <= toYear)%Z /\
                  summarizes (filter (inRange fromYear toYear) papers) entry)
               groups /\
        (forall paper,
            In paper papers -> inRange fromYear toYear paper = true ->
            In (tpYear paper) (map year groups))).
Proof.
  unfold getPapersByYear. split.
  - intros [e ->]. reflexivity.
  - intros papers ->. cbn [bind try_catch]. eexists. split; [reflexivity|].
    set (ranged := filter (inRange fromYear toYear) papers).
    destruct (grouped_invariant ranged) as (Hnd & Hcover & Hsum).
    split; [now apply sortByYear_sorted|]. split.
    + apply Forall_forall. intros entry He.
      apply (Permutation_in _ (sortByYear_perm _)) in He.
      rewrite Forall_forall in Hsum. specialize (Hsum entry He).
      split; [|exact Hsum].
      destruct Hsum as (Hne & _).
      destruct (papersOfYear (year entry) ranged) as [|paper rest] eqn:E;
        [congruence|].
      assert (Hin : In paper (papersOfYear (year entry) ranged))
        by (rewrite E; now left).
      apply filter_In in Hin. destruct Hin as [Hin Hy].
      apply filter_In in Hin. destruct Hin as [_ Hr].
      unfold inRange in Hr. apply andb_true_iff in Hr.
      destruct Hr as [H1 H2]. apply Z.leb_le in H1, H2.
      apply Z.eqb_eq in Hy. lia.
    + intros paper Hin Hr.
      eapply Permutation_in;
        [apply Permutation_sym, Permutation_map, sortByYear_perm|].
      apply Hcover. apply filter_In. auto.
Qed.

End YearFacts.

(** ** AdvancedRAGService: papers found under several topics *)

Section IntersectionFacts.
Import JS Investigation IntersectionSpec.

Lemma timesIn_app (pid : jsstring) (l1 l2 : list Neo4j.CombinedResult) :
  timesIn pid (l1 ++ l2) = (timesIn pid l1 + timesIn pid l2)%nat.
Proof. unfold timesIn. now rewrite filter_app, length_app. Qed.

Lemma countPaper_find (topic : option jsstring) (paper : Neo4j.CombinedResult)
      (pid : jsstring) (paperCounts : list TopicCount) :
  find (fun item => jsstring_eqb (countedId item) pid)
       (countPaper topic paperCounts paper)
  = if jsstring_eqb (Neo4j.paperId paper) pid
    then Some match find (fun item => jsstring_eqb (countedId item) pid)
                         paperCounts with
              | Some item =>
                  mkTopicCount (countedPaper item) (countedTopics item ++ [topic])
              | None => mkTopicCount paper [topic]
              end
    else find (fun item => jsstring_eqb (countedId item) pid) paperCounts.
Proof.
  induction paperCounts as [|item rest IH]; cbn [countPaper find].
  - unfold countedId at 1. cbn [countedPaper].
    destruct (jsstring_eqb (Neo4j.paperId paper) pid); reflexivity.
  - destruct (jsstring_eqb (countedId item) (Neo4j.paperId paper)) eqn:E.
    + apply jsstring_eqb_eq in E. cbn [find].
      unfold countedId at 1. cbn [countedPaper]. fold (countedId item).
      rewrite E. destruct (jsstring_eqb (Neo4j.paperId paper) pid); reflexivity.
    + cbn [find]. rewrite IH.
      destruct (jsstring_eqb (countedId item) pid) eqn:E';
        [|reflexivity].
      apply jsstring_eqb_eq in E'. subst pid.
      apply jsstring_eqb_neq in E.
      assert (E2 : jsstring_eqb (Neo4j.paperId paper) (countedId item) = false)
        by (apply jsstring_eqb_neq; congruence).
      rewrite E2. reflexivity.
Qed.

Lemma countPaper_ids (topic : option jsstring) (paper : Neo4j.CombinedResult)
      (paperCounts : list TopicCount) :
  forall pid,
    In pid (map countedId (countPaper topic paperCounts paper))
    <-> pid = Neo4j.paperId paper \/ In pid (map countedId paperCounts).
Proof.
  induction paperCounts as [|item rest IH]; intros pid;
    cbn [countPaper map In].
  - unfold countedId at 1. cbn [countedPaper]. intuition.
  - destruct (jsstring_eqb (countedId item) (Neo4j.paperId paper)) eqn:E;
      cbn [map In].
    + apply jsstring_eqb_eq in E. unfold countedId at 1. cbn [countedPaper].
      fold (countedId item). rewrite E. intuition.
    + rewrite IH. intuition.
Qed.

Lemma countPaper_NoDup (topic : option jsstring) (paper : Neo4j.CombinedResult)
      (paperCounts : list TopicCount) :
  NoDup (map countedId paperCounts) ->
  NoDup (map countedId (countPaper topic paperCounts paper)).
Proof.
  induction paperCounts as [|item rest IH]; intros Hnd; cbn [countPaper map].
  - repeat constructor. intros [].
  - cbn [map] in Hnd. inversion Hnd as [|? ? Hitem Hrest]; subst.
    destruct (jsstring_eqb (countedId item) (Neo4j.paperId paper)) eqn:E;
      cbn [map].
    + unfold countedId at 1. cbn [countedPaper]. fold (countedId item).
      now constructor.
    + constructor; [|now apply IH].
      rewrite countPaper_ids. apply jsstring_eqb_neq in E.
      intros [H|H]; [congruence|contradiction].
Qed.

(** The state of [paperCounts] after the papers [seen]: distinct keys,
    and for every id as many topics as the id was met, none for an id
    that was not met. *)
Lemma counted_step (topic : option jsstring) (paper : Neo4j.CombinedResult)
      (seen : list Neo4j.CombinedResult) (paperCounts : list TopicCount) :
  (forall pid,
      match find (fun item => jsstring_eqb (countedId item) pid) paperCounts with
      | Some item => length (countedTopics item) = timesIn pid seen
                     /\ (0 < timesIn pid seen)%nat
      | None => timesIn pid seen = 0%nat
      end) ->
  forall pid,
    match find (fun item => jsstring_eqb (countedId item) pid)
               (countPaper topic paperCounts paper) with
    | Some item => length (countedTopics item) = timesIn pid (seen ++ [paper])
                   /\ (0 < timesIn pid (seen ++ [paper]))%nat
    | None => timesIn pid (seen ++ [paper]) = 0%nat
    end.
Proof.
  intros Hinv pid. specialize (Hinv pid).
  rewrite countPaper_find, timesIn_app.
  unfold timesIn at 2 4 6. cbn [filter].
  destruct (jsstring_eqb (Neo4j.paperId paper) pid); cbn [length].
  - destruct (find _ paperCounts) as [item|]; cbn [countedTopics].
    + rewrite length_app. cbn [length]. lia.
    + cbn [length]. lia.
  - destruct (find _ paperCounts) as [item|]; lia.
Qed.

Lemma counted_fold (topic : option jsstring) (papers : list Neo4j.CombinedResult) :
  forall (seen : list Neo4j.CombinedResult) (paperCounts : list TopicCount),
    NoDup (map countedId paperCounts) ->
    (forall pid,
        match find (fun item => jsstring_eqb (countedId item) pid) paperCounts with
        | Some item => length (countedTopics item) = timesIn pid seen
                       /\ (0 < timesIn pid seen)%nat
        | None => timesIn pid seen = 0%nat
        end) ->
    NoDup (map countedId (fold_left (countPaper topic) papers paperCounts)) /\
    (forall pid,
        match find (fun item => jsstring_eqb (countedId item) pid)
                   (fold_left (countPaper topic) papers paperCounts) with
        | Some item => length (countedTopics item) = timesIn pid (seen ++ papers)
                       /\ (0 < timesIn pid (seen ++ papers))%nat
        | None => timesIn pid (seen ++ papers) = 0%nat
        end).
Proof.
  induction papers as [|paper rest IH]; intros seen paperCounts Hnd Hinv;
    cbn [fold_left].
  - rewrite app_nil_r. auto.
  - replace (seen ++ paper :: rest) with ((seen ++ [paper]) ++ rest)
      by (rewrite <- app_assoc; reflexivity).
    apply IH; [now apply countPaper_NoDup | now apply counted_step].
Qed.

Lemma counted_topics (topics : list jsstring)
      (topicResults : list Neo4j.HybridResults) :
  forall (topicIndex : nat) (seen : list Neo4j.CombinedResult)
         (paperCounts : list TopicCount),
    NoDup (map countedId paperCounts) ->
    (forall pid,
        match find (fun item => jsstring_eqb (countedId item) pid) paperCounts with
        | Some item => length (countedTopics item) = timesIn pid seen
                       /\ (0 < timesIn pid seen)%nat
        | None => timesIn pid seen = 0%nat
        end) ->
    let final := countTopics topics topicIndex paperCounts topicResults in
    let all := seen ++ flat_map Neo4j.combinedResults topicResults in
    NoDup (map countedId final) /\
    (forall pid,
        match find (fun item => jsstring_eqb (countedId item) pid) final with
        | Some item => length (countedTopics item) = timesIn pid all
                       /\ (0 < timesIn pid all)%nat
        | None => timesIn pid all = 0%nat
        end).
Proof.
  induction topicResults as [|results rest IH];
    intros topicIndex seen paperCounts Hnd Hinv; cbn [countTopics flat_map].
  - cbv zeta. rewrite app_nil_r. auto.
  - cbv zeta. rewrite app_assoc.
    destruct (counted_fold (nth_error topics topicIndex)
                (Neo4j.combinedResults results) seen paperCounts Hnd Hinv)
      as [Hnd' Hinv'].
    apply (IH (S topicIndex) _ _ Hnd' Hinv').
Qed.

Lemma find_unique (paperCounts : list TopicCount) (item : TopicCount) :
  NoDup (map countedId paperCounts) -> In item paperCounts ->
  find (fun other => jsstring_eqb (countedId other) (countedId item)) paperCounts
  = Some item.
Proof.
  induction paperCounts as [|other rest IH]; intros Hnd Hin; [destruct Hin|].
  cbn [map] in Hnd. inversion Hnd as [|? ? Hother Hrest]; subst.
  cbn [find]. destruct Hin as [->|Hin].
  - now rewrite jsstring_eqb_refl.
  - destruct (jsstring_eqb (countedId other) (countedId item)) eqn:E.
    + apply jsstring_eqb_eq in E. exfalso. apply Hother. rewrite E.
      now apply in_map.
    + now apply IH.
Qed.

(** X19.  [findTopicIntersections] returns the papers that the topic searches
    returned at least twice in all, each once, most often found first;
    [intersectionScore] is the number of times the paper was returned
    and the length of [topicsFound]. *)
Theorem findTopicIntersections_counts
        (topicResults : list Neo4j.HybridResults) (topics : list jsstring) :
  let found := findTopicIntersections topicResults topics in
  let foundId := fun x => Neo4j.paperId (intersectionPaper x) in
  NoDup (map foundId found) /\
  StronglySorted (fun a b => (intersectionScore b <= intersectionScore a)%nat)
                 found /\
  Forall (fun x =>
            intersectionScore x = length (topicsFound x) /\
            intersectionScore x = timesFound (foundId x) topicResults /\
            (2 <= intersectionScore x)%nat)
         found /\
  (forall pid, In pid (map foundId found)
               <-> (2 <= timesFound pid topicResults)%nat).
Proof.
  intros found foundId.
  destruct (counted_topics topics topicResults 0 [] [] (NoDup_nil _)
              (fun pid => eq_refl)) as [Hnd Hinv].
  cbv zeta in Hnd, Hinv. cbn [app] in Hinv.
  set (final := countTopics topics 0 [] topicResults) in *.
  set (kept := filter (fun item => (1 <? length (countedTopics item))%nat) final).
  set (toOut := fun item => mkIntersection (countedPaper item) (countedTopics item)
                              (length (countedTopics item))).
  assert (Hfound : found = map toOut (sortDesc topicTotal kept)) by reflexivity.
  assert (Hperm : Permutation (sortDesc topicTotal kept) kept)
    by apply sortDesc_perm.
  assert (Hitem : forall item, In item final ->
             length (countedTopics item) = timesFound (countedId item) topicResults).
  { intros item Hin. specialize (Hinv (countedId item)).
    rewrite (find_unique final item Hnd Hin) in Hinv. apply Hinv. }
  assert (Hids : map foundId found = map countedId (sortDesc topicTotal kept)).
  { rewrite Hfound, map_map. reflexivity. }
  split; [|split; [|split]].
  - rewrite Hids.
    eapply Permutation_NoDup;
      [apply Permutation_sym, Permutation_map, Hperm|].
    unfold kept. clear -Hnd. induction final as [|item rest IH]; [constructor|].
    cbn [map] in Hnd. inversion Hnd as [|? ? Hitem Hrest]; subst.
    cbn [filter]. destruct (1 <? length (countedTopics item))%nat;
      [|now apply IH].
    cbn [map]. constructor; [|now apply IH].
    intros Hin. apply Hitem. apply in_map_iff in Hin.
    destruct Hin as (x & Hx & Hin). apply filter_In in Hin.
    rewrite <- Hx. apply in_map. tauto.
  - rewrite Hfound.
    pose proof (sortDesc_sorted topicTotal kept) as Hs.
    clear -Hs. induction Hs as [|item rest Hs IH Hall]; cbn [map]; constructor.
    + exact IH.
    + apply Forall_forall. intros x Hx. apply in_map_iff in Hx.
      destruct Hx as (other & <- & Hother).
      rewrite Forall_forall in Hall. specialize (Hall other Hother).
      unfold descending, topicTotal in Hall. rewrite <- Zle_Qle in Hall.
      unfold toOut. cbn [intersectionScore]. lia.
  - rewrite Hfound. apply Forall_forall. intros x Hx.
    apply in_map_iff in Hx. destruct Hx as (item & <- & Hin).
    apply (Permutation_in _ Hperm) in Hin. apply filter_In in Hin.
    destruct Hin as [Hin Hlen]. apply Nat.ltb_lt in Hlen.
    unfold toOut, foundId. cbn [intersectionScore topicsFound intersectionPaper].
    split; [reflexivity|]. split; [now apply Hitem | lia].
  - intros pid. rewrite Hids. split.
    + intros Hin. apply in_map_iff in Hin. destruct Hin as (item & <- & Hin).
      apply (Permutation_in _ Hperm) in Hin. apply filter_In in Hin.
      destruct Hin as [Hin Hlen]. apply Nat.ltb_lt in Hlen.
      rewrite <- (Hitem item Hin). lia.
    + intros Hcount. specialize (Hinv pid).
      destruct (find (fun item => jsstring_eqb (countedId item) pid) final)
        as [item|] eqn:E.
      * apply find_some in E. destruct E as [Hin E]. apply jsstring_eqb_eq in E.
        rewrite <- E. apply in_map.
        apply (Permutation_in _ (Permutation_sym Hperm)).
        apply filter_In. split; [exact Hin|]. apply Nat.ltb_lt.
        destruct Hinv as [Hlen _]. unfold timesFound in Hcount. lia.
      * unfold timesFound in Hcount. lia.
Qed.

End IntersectionFacts.

(** ** groqService: what [extractJSON] parses *)

Section ExtractJsonFacts.
Import JS GroqJson.
Local Open Scope Z_scope.

Lemma uptoLastBrace_none (s : jsstring) :
  ~ In 125 s -> uptoLastBrace s = None.
Proof.
  induction s as [|c s IH]; intros Hn; cbn [uptoLastBrace]; [reflexivity|].
  rewrite IH by (intros H; apply Hn; now right).
  destruct (Z.eqb_spec c 125) as [->|_]; [|reflexivity].
  exfalso. apply Hn. now left.
Qed.

Lemma uptoLastBrace_last (body post : jsstring) :
  ~ In 125 post ->
  uptoLastBrace (body ++ 125 :: post) = Some (body ++ [125]).
Proof.
  intros Hn. induction body as [|c body IH]; cbn [app uptoLastBrace].
  - rewrite (uptoLastBrace_none post Hn). reflexivity.
  - rewrite IH. reflexivity.
Qed.

Lemma matchBraces_span (pre body post : jsstring) :
  ~ In 123 pre -> ~ In 125 post ->
  matchBraces (pre ++ 123 :: body ++ 125 :: post) = Some (123 :: body ++ [125]).
Proof.
  intros Hpre Hpost. induction pre as [|c pre IH]; cbn [app matchBraces].
  - rewrite (uptoLastBrace_last body post Hpost). reflexivity.
  - destruct (Z.eqb_spec c 123) as [->|_].
    + exfalso. apply Hpre. now left.
    + apply IH. intros H. apply Hpre. now right.
Qed.

Lemma matchBraces_none (content : jsstring) :
  ~ In 125 content -> matchBraces content = None.
Proof.
  induction content as [|c rest IH]; intros Hn; cbn [matchBraces];
    [reflexivity|].
  assert (Hrest : ~ In 125 rest) by (intros H; apply Hn; now right).
  rewrite (uptoLastBrace_none rest Hrest), (IH Hrest).
  destruct (c =? 123); reflexivity.
Qed.

Context {host : Host}.

(** X20.  [extractJSON] returns the parse of the whole reply when that
    succeeds.  Otherwise it parses the part from the first opening brace
    to the last closing brace, so that prose around one JSON object is
    tolerated; a reply without a closing brace, and every other failure,
    throws the one error 'Invalid JSON response from AI'. *)
Theorem extractJSON_outcomes (content : jsstring) :
  (forall v, JSON_parse content = Return v -> extractJSON content = Return v) /\
  (forall pre body post,
      (exists e, JSON_parse content = Throw e) ->
      content = pre ++ 123 :: body ++ 125 :: post ->
      ~ In 123 pre -> ~ In 125 post ->
      extractJSON content
      = match JSON_parse (123 :: body ++ [125]) with
        | Return v => Return v
        | Throw _ => Throw "Invalid JSON response from AI"
        end) /\
  ((exists e, JSON_parse content = Throw e) -> ~ In 125 content ->
   extractJSON content = Throw "Invalid JSON response from AI") /\
  (forall e, extractJSON content = Throw e ->
             e = "Invalid JSON response from AI"%string).
Proof.
  unfold extractJSON. split; [|split; [|split]].
  - intros v ->. reflexivity.
  - intros pre body post [e He] Hc Hpre Hpost. rewrite He. cbn [try_catch].
    rewrite Hc, (matchBraces_span pre body post Hpre Hpost).
    destruct (JSON_parse (123 :: body ++ [125])); reflexivity.
  - intros [e He] Hn. rewrite He. cbn [try_catch].
    rewrite (matchBraces_none content Hn). reflexivity.
  - intros e. destruct (JSON_parse content) as [v|e0]; cbn [try_catch];
      [discriminate|].
    destruct (matchBraces content) as [m|]; cbn [try_catch].
    + destruct (JSON_parse m); cbn [try_catch]; [discriminate|].
      intros H. now injection H as <-.
    + intros H. now injection H as <-.
Qed.

End ExtractJsonFacts.

(** ** routes/research: the cache *)

Section CacheFacts.
Import JS Cache.
Context {Data : Type}.

Lemma lookup_store (entries : list (jsstring * Item Data)) (key : jsstring)
      (item : Item Data) :
  lookup (store entries key item) key = Some item.
Proof.
  induction entries as [|[k old] rest IH]; cbn [store lookup].
  - now rewrite jsstring_eqb_refl.
  - destruct (jsstring_eqb k key) eqn:E; cbn [lookup]; rewrite E; auto.
Qed.

Lemma lookup_store_other (entries : list (jsstring * Item Data))
      (key other : jsstring) (item : Item Data) :
  other <> key ->
  lookup (store entries key item) other = lookup entries other.
Proof.
  intros Hne. induction entries as [|[k old] rest IH]; cbn [store lookup].
  - assert (E : jsstring_eqb key other = false)
      by (apply jsstring_eqb_neq; congruence).
    now rewrite E.
  - destruct (jsstring_eqb k key) eqn:E; cbn [lookup].
    + apply jsstring_eqb_eq in E. subst k.
      assert (E : jsstring_eqb key other = false)
        by (apply jsstring_eqb_neq; congruence).
      now rewrite E.
    + destruct (jsstring_eqb k other); auto.
Qed.

Lemma lookup_remove (entries : list (jsstring * Item Data)) (key : jsstring) :
  lookup (remove entries key) key = None.
Proof.
  unfold remove. induction entries as [|[k old] rest IH]; cbn [filter lookup fst];
    [reflexivity|].
  destruct (jsstring_eqb k key) eqn:E; cbn [negb]; [exact IH|].
  cbn [lookup]. now rewrite E.
Qed.

(** X21.  A value that was [set] is what [get] returns for its key as long as
    no more than its time to live (60 minutes by default) has passed
    since the time stamp; later, [get] returns [null] and deletes the
    entry, so that the next [get] finds nothing. *)
Theorem cache_get_after_set (this : InstantCache Data) (key : jsstring)
        (value : Data) (ttlMinutes : option Q) (cleanupTime stored now : Z) :
  let minutes := match ttlMinutes with Some m => m | None => 60 end in
  let filled := set this key value ttlMinutes cleanupTime stored in
  (inject_Z (now - stored) <= minutes * 60 * 1000 ->
   get filled key now = (Some value, filled)) /\
  (minutes * 60 * 1000 < inject_Z (now - stored) ->
   fst (get filled key now) = None /\
   forall later, fst (get (snd (get filled key now)) key later) = None).
Proof.
  intros minutes filled.
  assert (Hlook : lookup (cache filled) key
                  = Some (mkItem value stored (minutes * 60 * 1000))).
  { unfold filled, set. cbv zeta. cbn [cache]. apply lookup_store. }
  split.
  - intros Hlive. unfold get. rewrite Hlook. unfold expired. cbn [timestamp ttl data].
    apply Qle_bool_iff in Hlive. rewrite Hlive. reflexivity.
  - intros Hdead. unfold get at 1 3. rewrite Hlook. unfold expired.
    cbn [timestamp ttl data].
    destruct (Qle_bool (inject_Z (now - stored)) (minutes * 60 * 1000)) eqn:E.
    + apply Qle_bool_iff in E. exfalso. Lqa.lra.
    + cbn [negb fst snd]. split; [reflexivity|]. intros later.
      unfold get. cbn [cache]. rewrite lookup_remove. reflexivity.
Qed.

End CacheFacts.

Section CacheSizeFacts.
Import JS Cache.
Context {Data : Type}.

Lemma store_keys (entries : list (jsstring * Item Data)) (key : jsstring)
      (item : Item Data) :
  forall k, In k (map fst (store entries key item))
            <-> k = key \/ In k (map fst entries).
Proof.
  induction entries as [|[k0 old] rest IH]; intros k; cbn [store map fst In].
  - intuition.
  - destruct (jsstring_eqb k0 key) eqn:E; cbn [map fst In].
    + apply jsstring_eqb_eq in E. subst k0. intuition.
    + rewrite IH. intuition.
Qed.

Lemma store_NoDup (entries : list (jsstring * Item Data)) (key : jsstring)
      (item : Item Data) :
  NoDup (map fst entries) -> NoDup (map fst (store entries key item)).
Proof.
  induction entries as [|[k0 old] rest IH]; intros Hnd; cbn [store map fst].
  - repeat constructor. intros [].
  - cbn [map fst] in Hnd. inversion Hnd as [|? ? Hk Hrest]; subst.
    destruct (jsstring_eqb k0 key) eqn:E; cbn [map fst].
    + now constructor.
    + constructor; [|now apply IH]. rewrite store_keys.
      apply jsstring_eqb_neq in E. intros [H|H]; [congruence|contradiction].
Qed.

Lemma store_length (entries : list (jsstring * Item Data)) (key : jsstring)
      (item : Item Data) :
  (length (store entries key item) <= length entries + 1)%nat.
Proof.
  induction entries as [|[k0 old] rest IH]; cbn [store length]; [lia|].
  destruct (jsstring_eqb k0 key); cbn [length]; lia.
Qed.

Lemma filter_keys_NoDup (f : jsstring * Item Data -> bool)
      (entries : list (jsstring * Item Data)) :
  NoDup (map fst entries) -> NoDup (map fst (filter f entries)).
Proof.
  induction entries as [|entry rest IH]; intros Hnd; cbn [filter];
    [constructor|].
  cbn [map] in Hnd. inversion Hnd as [|? ? Hk Hrest]; subst.
  destruct (f entry); [|now apply IH].
  cbn [map]. constructor; [|now apply IH].
  intros Hin. apply Hk. apply in_map_iff in Hin.
  destruct Hin as (x & Hx & Hin). apply filter_In in Hin.
  rewrite <- Hx. apply in_map. tauto.
Qed.

Lemma remove_length (entries : list (jsstring * Item Data))
      (entry : jsstring * Item Data) :
  NoDup (map fst entries) -> In entry entries ->
  S (length (remove entries (fst entry))) = length entries.
Proof.
  unfold remove.
  induction entries as [|other rest IH]; intros Hnd Hin; [destruct Hin|].
  cbn [map] in Hnd. inversion Hnd as [|? ? Hk Hrest]; subst.
  cbn [filter]. destruct Hin as [->|Hin].
  - rewrite jsstring_eqb_refl. cbn [negb length]. f_equal.
    rewrite (proj2 (filter_ext_in_iff _ (fun _ => true) rest)).
    + clear. induction rest as [|x rest IH]; cbn [filter]; [reflexivity|].
      cbn [length]. now rewrite IH.
    + intros x Hx. apply negb_true_iff, jsstring_eqb_neq.
      intros E. apply Hk. rewrite <- E. now apply in_map.
  - destruct (jsstring_eqb (fst other) (fst entry)) eqn:E.
    + apply jsstring_eqb_eq in E. exfalso. apply Hk. rewrite E.
      now apply in_map.
    + cbn [negb length]. f_equal. now apply IH.
Qed.

Lemma insertByAge_perm (entry : jsstring * Item Data)
      (sorted : list (jsstring * Item Data)) :
  Permutation (insertByAge entry sorted) (entry :: sorted).
Proof.
  induction sorted as [|other rest IH]; cbn [insertByAge]; [reflexivity|].
  destruct (timestamp (snd entry) <=? timestamp (snd other))%Z; [reflexivity|].
  rewrite IH. apply perm_swap.
Qed.

Lemma sortByAge_perm (entries : list (jsstring * Item Data)) :
  Permutation (sortByAge entries) entries.
Proof.
  induction entries as [|e entries IH]; cbn [sortByAge fold_right];
    [reflexivity|].
  fold (sortByAge entries). rewrite insertByAge_perm. now constructor.
Qed.

(** With one entry too many, the eviction loop removes the oldest entry
    and stops. *)
Lemma evictOldest_one (live : list (jsstring * Item Data)) (maxSize : nat) :
  NoDup (map fst live) -> length live = S maxSize ->
  exists oldest,
    In oldest live /\
    evictOldest 0 (sortByAge live) live maxSize = remove live (fst oldest) /\
    length (remove live (fst oldest)) = maxSize.
Proof.
  intros Hnd Hlen.
  pose proof (sortByAge_perm live) as Hperm.
  destruct (sortByAge live) as [|oldest rest] eqn:E.
  - apply Permutation_length in Hperm. cbn in Hperm. lia.
  - assert (Hin : In oldest live).
    { apply (Permutation_in _ Hperm). now left. }
    pose proof (remove_length live oldest Hnd Hin) as Hrm.
    exists oldest. split; [exact Hin|]. split; [|lia].
    cbn [evictOldest].
    assert (C1 : (0 <? length live - maxSize)%nat = true)
      by (apply Nat.ltb_lt; lia).
    rewrite C1. destruct rest as [|next rest]; [reflexivity|].
    cbn [evictOldest].
    assert (C2 : (1 <? length (remove live (fst oldest)) - maxSize)%nat = false)
      by (apply Nat.ltb_ge; lia).
    rewrite C2. reflexivity.
Qed.

Lemma cleanup_bound (this : InstantCache Data) (now : Z) :
  NoDup (map fst (cache this)) ->
  (length (cache this) <= maxSize this + 1)%nat ->
  NoDup (map fst (cache (cleanup this now))) /\
  (length (cache (cleanup this now)) <= maxSize this)%nat /\
  maxSize (cleanup this now) = maxSize this /\
  (forall entry, In entry (cache (cleanup this now)) ->
                 In entry (cache this) /\ expired now (snd entry) = false).
Proof.
  intros Hnd Hlen. unfold cleanup. cbv zeta.
  set (live := filter (fun entry => negb (expired now (snd entry))) (cache this)).
  assert (Hlive : NoDup (map fst live)) by now apply filter_keys_NoDup.
  assert (Hle : (length live <= length (cache this))%nat)
    by apply filter_length_le.
  assert (Hsub : forall entry, In entry live ->
             In entry (cache this) /\ expired now (snd entry) = false).
  { intros entry H. apply filter_In in H. destruct H as [H1 H2].
    split; [exact H1|]. now apply negb_true_iff in H2. }
  destruct (Nat.ltb_spec (maxSize this) (length live)) as [Hover|Hfit];
    cbn [cache Cache.maxSize].
  - destruct (evictOldest_one live (maxSize this) Hlive ltac:(lia))
      as (oldest & Hin & -> & Hsize).
    split; [now apply filter_keys_NoDup|]. split; [lia|]. split; [reflexivity|].
    intros entry H. apply filter_In in H. apply Hsub. tauto.
  - split; [exact Hlive|]. split; [exact Hfit|]. split; [reflexivity|exact Hsub].
Qed.

(** X22.  The cache keeps its keys distinct and never holds more than
    [maxSize + 1] entries: [set] cleans up only when the cache is full
    and then adds its entry, so a cache full of unexpired entries grows
    to [maxSize + 1]; [cleanup] (and with it [getStats]) leaves at most
    [maxSize] entries, all of them unexpired entries of the cache; [get]
    never adds an entry. *)
Theorem cache_size_bounded (this : InstantCache Data) :
  NoDup (map fst (cache this)) ->
  (length (cache this) <= maxSize this + 1)%nat ->
  (forall key value ttlMinutes cleanupTime now,
      let filled := set this key value ttlMinutes cleanupTime now in
      NoDup (map fst (cache filled)) /\
      (length (cache filled) <= maxSize filled + 1)%nat /\
      maxSize filled = maxSize this) /\
  (forall now,
      let cleaned := cleanup this now in
      NoDup (map fst (cache cleaned)) /\
      (length (cache cleaned) <= maxSize cleaned)%nat /\
      maxSize cleaned = maxSize this /\
      fst (getStats this now) = (length (cache cleaned), maxSize this) /\
      (forall entry, In entry (cache cleaned) ->
                     In entry (cache this) /\ expired now (snd entry) = false)) /\
  (forall key now,
      let after := snd (get this key now) in
      NoDup (map fst (cache after)) /\
      (length (cache after) <= length (cache this))%nat /\
      maxSize after = maxSize this).
Proof.
  intros Hnd Hlen. split; [|split].
  - intros key value ttlMinutes cleanupTime now filled.
    unfold filled, set. cbv zeta.
    destruct (Nat.leb_spec (maxSize this) (length (cache this))) as [Hfull|Hroom].
    + destruct (cleanup_bound this cleanupTime Hnd Hlen) as (H1 & H2 & H3 & _).
      cbn [cache Cache.maxSize]. split; [now apply store_NoDup|].
      rewrite H3. split; [|reflexivity].
      etransitivity; [apply store_length|]. lia.
    + cbn [cache Cache.maxSize]. split; [now apply store_NoDup|].
      split; [|reflexivity]. etransitivity; [apply store_length|]. lia.
  - intros now cleaned.
    destruct (cleanup_bound this now Hnd Hlen) as (H1 & H2 & H3 & H4).
    split; [exact H1|]. unfold cleaned. rewrite H3.
    split; [exact H2|]. split; [reflexivity|]. split; [|exact H4].
    unfold getStats. cbv zeta. cbn [fst]. now rewrite H3.
  - intros key now after. unfold after, get.
    destruct (lookup (cache this) key) as [item|]; cbn [snd].
    2:{ split; [exact Hnd|]. split; [lia|reflexivity]. }
    destruct (expired now item); cbn [snd cache Cache.maxSize].
    + split; [now apply filter_keys_NoDup|].
      split; [apply filter_length_le|reflexivity].
    + split; [exact Hnd|]. split; [lia|reflexivity].
Qed.

End CacheSizeFacts.

Section CacheExamples.
Import JS Cache Samples.

Lemma cache_size_bounded_witness :
  length (cache (set fullCache (lit "b") (lit "2") None 10 10)) = 2%nat /\
  NoDup (map fst (cache (set fullCache (lit "b") (lit "2") None 10 10))) /\
  (length (cache (set fullCache (lit "b") (lit "2") None 10 10))
   <= maxSize (set fullCache (lit "b") (lit "2") None 10 10) + 1)%nat /\
  maxSize (set fullCache (lit "b") (lit "2") None 10 10) = maxSize fullCache.
Proof.
  split; [reflexivity|].
  assert (Hnd : NoDup (map fst (cache fullCache))).
  { cbn. repeat constructor. intros []. }
  assert (Hlen : (length (cache fullCache) <= maxSize fullCache + 1)%nat).
  { cbn. lia. }
  destruct (cache_size_bounded fullCache Hnd Hlen) as [Hset _].
  exact (Hset (lit "b") (lit "2") None 10%Z 10%Z).
Defined.

End CacheExamples.

(** ** paperSearchService: similarity of titles *)

Section SimilarityFacts.
Import JS PaperSearch.

Lemma nodup_nil_iff {A} (dec : forall x y : A, {x = y} + {x <> y}) (l : list A) :
  nodup dec l = [] <-> l = [].
Proof.
  split; [|intros ->; reflexivity].
  destruct l as [|x l]; [reflexivity|]. intros H.
  assert (Hin : In x (nodup dec (x :: l))) by (apply nodup_In; now left).
  rewrite H in Hin. destruct Hin.
Qed.

(** X23.  [calculateSimilarity] is [NaN] exactly when neither string has a
    word of more than three characters, and otherwise a non-negative
    number: 0 for strings without a common long word, and at least 1 for
    a string compared with itself, so that equal titles always pass the
    duplicate threshold of 0.9. *)
Theorem calculateSimilarity_facts (str1 str2 : jsstring) :
  (calculateSimilarity str1 str2 = None
   <-> longWords str1 = [] /\ longWords str2 = []) /\
  (forall q, calculateSimilarity str1 str2 = Some q -> 0 <= q) /\
  ((forall w, In w (longWords str1) -> ~ In w (longWords str2)) ->
   forall q, calculateSimilarity str1 str2 = Some q -> q == 0) /\
  (longWords str1 <> [] ->
   exists q, calculateSimilarity str1 str1 = Some q /\ 1 <= q).
Proof.
  unfold calculateSimilarity. cbv zeta.
  set (words1 := longWords str1). set (words2 := longWords str2).
  split; [|split; [|split]].
  - destruct (nodup (list_eq_dec Z.eq_dec) (words1 ++ words2)) as [|w ws] eqn:E; cbn [Embedding.isEmpty].
    + apply nodup_nil_iff in E. apply app_eq_nil in E. tauto.
    + split; [discriminate|]. intros [H1 H2]. rewrite H1, H2 in E. discriminate.
  - intros q. destruct (nodup (list_eq_dec Z.eq_dec) (words1 ++ words2)) as [|w ws] eqn:E;
      cbn [Embedding.isEmpty]; [discriminate|].
    intros H. injection H as <-.
    apply Qle_shift_div_l; [apply lengthQ_pos; discriminate|].
    pose proof (lengthQ_nonneg
                  (filter (fun word => existsb (jsstring_eqb word) words2) words1)).
    Lqa.lra.
  - intros Hdisjoint q.
    destruct (nodup (list_eq_dec Z.eq_dec) (words1 ++ words2)) as [|w ws] eqn:E;
      cbn [Embedding.isEmpty]; [discriminate|].
    intros H. injection H as <-.
    rewrite (filter_nil_Forall _ words1).
    + unfold GraphRAG.lengthQ at 1. cbn [length]. change (inject_Z (Z.of_nat 0)) with 0.
      unfold Qdiv. Lqa.lra.
    + apply Forall_forall. intros word Hw.
      destruct (existsb (jsstring_eqb word) words2) eqn:Ex; [|reflexivity].
      apply existsb_eqb_In in Ex. exfalso. exact (Hdisjoint word Hw Ex).
  - intros Hne.
    destruct (nodup (list_eq_dec Z.eq_dec) (words1 ++ words1)) as [|w ws] eqn:E; cbn [Embedding.isEmpty].
    + apply nodup_nil_iff in E. apply app_eq_nil in E. tauto.
    + eexists. split; [reflexivity|]. rewrite <- E.
      assert (Hall : filter (fun word => existsb (jsstring_eqb word) words1) words1
                     = words1).
      { rewrite <- (filter_ext_in (fun _ => true)).
        - clear. induction words1 as [|x l IH]; cbn [filter]; congruence.
        - intros word Hw. symmetry. now apply existsb_eqb_In. }
      rewrite Hall.
      assert (Hlen : (length (nodup (list_eq_dec Z.eq_dec) (words1 ++ words1))
                      <= length words1)%nat).
      { apply NoDup_incl_length; [apply NoDup_nodup|].
        intros x Hx. apply nodup_In in Hx. apply in_app_iff in Hx. tauto. }
      apply Qle_shift_div_l.
      * apply lengthQ_pos. rewrite E. discriminate.
      * unfold GraphRAG.lengthQ. rewrite Qmult_1_l, <- Zle_Qle. lia.
Qed.

End SimilarityFacts.

(** ** paperSearchService: duplicate removal *)

Section DuplicateFacts.
Import JS PaperSearch.
Context {host : Host}.

Lemma seenSet_keys (seen : list (jsstring * RealPaper)) (key : jsstring)
      (paper : RealPaper) :
  forall k, In k (map fst (seenSet seen key paper))
            <-> k = key \/ In k (map fst seen).
Proof.
  induction seen as [|[k0 old] rest IH]; intros k; cbn [seenSet map fst In].
  - intuition.
  - destruct (jsstring_eqb k0 key) eqn:E; cbn [map fst In].
    + apply jsstring_eqb_eq in E. subst k0. intuition.
    + rewrite IH. intuition.
Qed.

Lemma seenSet_NoDup (seen : list (jsstring * RealPaper)) (key : jsstring)
      (paper : RealPaper) :
  NoDup (map fst seen) -> NoDup (map fst (seenSet seen key paper)).
Proof.
  induction seen as [|[k0 old] rest IH]; intros Hnd; cbn [seenSet map fst].
  - repeat constructor. intros [].
  - cbn [map fst] in Hnd. inversion Hnd as [|? ? Hk Hrest]; subst.
    destruct (jsstring_eqb k0 key) eqn:E; cbn [map fst].
    + now constructor.
    + constructor; [|now apply IH]. rewrite seenSet_keys.
      apply jsstring_eqb_neq in E. intros [H|H]; [congruence|contradiction].
Qed.

Lemma seenSet_entries (seen : list (jsstring * RealPaper)) (key : jsstring)
      (paper : RealPaper) (entry : jsstring * RealPaper) :
  In entry (seenSet seen key paper) -> entry = (key, paper) \/ In entry seen.
Proof.
  induction seen as [|[k0 old] rest IH]; cbn [seenSet].
  - intros [<-|[]]. now left.
  - destruct (jsstring_eqb k0 key) eqn:E.
    + apply jsstring_eqb_eq in E. subst k0.
      intros [<-|H]; [now left | right; now right].
    + intros [<-|H]; [right; now left|].
      destruct (IH H); [now left | right; now right].
Qed.

Lemma seenGet_None (seen : list (jsstring * RealPaper)) (key : jsstring) :
  seenGet seen key = None -> ~ In key (map fst seen).
Proof.
  induction seen as [|[k0 old] rest IH]; cbn [seenGet map fst]; [tauto|].
  destruct (jsstring_eqb k0 key) eqn:E; [discriminate|].
  apply jsstring_eqb_neq in E. intros H [H1|H1]; [congruence|].
  now apply IH.
Qed.

Lemma seenGet_Some (seen : list (jsstring * RealPaper)) (key : jsstring)
      (paper : RealPaper) :
  seenGet seen key = Some paper -> In key (map fst seen).
Proof.
  induction seen as [|[k0 old] rest IH]; cbn [seenGet map fst]; [discriminate|].
  destruct (jsstring_eqb k0 key) eqn:E.
  - apply jsstring_eqb_eq in E. now left.
  - intros H. right. now apply IH.
Qed.

(** The state of [seen] after the papers [done]. *)
Lemma keepBetter_invariant (done : list RealPaper) :
  let seen := fold_left keepBetter done [] in
  NoDup (map fst seen) /\
  (forall key paper, In (key, paper) seen ->
                     key = titleKey (title paper) /\ In paper done) /\
  (forall key, In key (map fst seen)
               <-> In key (map (fun p => titleKey (title p)) done)).
Proof.
  induction done as [|paper done IH] using rev_ind; cbv zeta.
  - cbn. split; [constructor|]. split; [intros ? ? []|tauto].
  - cbv zeta in IH. destruct IH as (Hnd & Hentries & Hkeys).
    rewrite fold_left_app. cbn [fold_left].
    set (seen := fold_left keepBetter done []) in *.
    assert (Hset : NoDup (map fst (seenSet seen (titleKey (title paper)) paper)) /\
                   (forall key p,
                       In (key, p) (seenSet seen (titleKey (title paper)) paper) ->
                       key = titleKey (title p) /\ In p (done ++ [paper])) /\
                   (forall key,
                       In key (map fst (seenSet seen (titleKey (title paper)) paper))
                       <-> In key (map (fun p => titleKey (title p))
                                       (done ++ [paper])))).
    { split; [now apply seenSet_NoDup|]. split.
      - intros key p H. apply seenSet_entries in H. destruct H as [H|H].
        + injection H as -> ->. split; [reflexivity|].
          apply in_app_iff. right. now left.
        + destruct (Hentries key p H) as [H1 H2]. split; [exact H1|].
          apply in_app_iff. now left.
      - intros key. rewrite seenSet_keys, map_app, in_app_iff, Hkeys.
        cbn [map In]. intuition. }
    unfold keepBetter. cbv zeta.
    destruct (seenGet seen (titleKey (title paper))) as [existingPaper|] eqn:Eget;
      [|exact Hset].
    destruct ((citationCount existingPaper <? citationCount paper)%Z
              || longerAbstract paper existingPaper); [exact Hset|].
    split; [exact Hnd|]. split.
    + intros key p H. destruct (Hentries key p H) as [H1 H2].
      split; [exact H1|]. apply in_app_iff. now left.
    + intros key. rewrite map_app, in_app_iff, Hkeys. cbn [map In].
      apply seenGet_Some in Eget. rewrite Hkeys in Eget.
      split; [tauto|]. intros [H|[<-|[]]]; [exact H|exact Eget].
Qed.

Lemma removeDuplicatePapers_keys (papers : list RealPaper) :
  map (fun p => titleKey (title p)) (removeDuplicatePapers papers)
  = map fst (fold_left keepBetter papers []).
Proof.
  unfold removeDuplicatePapers. rewrite map_map.
  destruct (keepBetter_invariant papers) as (_ & Hentries & _).
  cbv zeta in Hentries.
  induction (fold_left keepBetter papers []) as [|[key paper] rest IH];
    [reflexivity|].
  cbn [map fst snd]. f_equal.
  - symmetry. apply (Hentries key paper). now left.
  - apply IH. intros k p H. apply Hentries. now right.
Qed.

(** X24.  [removeDuplicatePapers] keeps exactly one paper for every title key
    of its input: as many papers as there are distinct keys, each of
    them a paper of the input. *)
Theorem removeDuplicatePapers_one_per_key (papers : list RealPaper) :
  let key := fun p => titleKey (title p) in
  let kept := removeDuplicatePapers papers in
  NoDup (map key kept) /\
  (forall k, In k (map key kept) <-> In k (map key papers)) /\
  (forall paper, In paper kept -> In paper papers) /\
  length kept = length (nodup (list_eq_dec Z.eq_dec) (map key papers)).
Proof.
  intros key kept.
  destruct (keepBetter_invariant papers) as (Hnd & Hentries & Hkeys).
  cbv zeta in Hnd, Hentries, Hkeys.
  assert (Hmap : map key kept = map fst (fold_left keepBetter papers []))
    by apply removeDuplicatePapers_keys.
  split; [rewrite Hmap; exact Hnd|].
  split; [intros k; rewrite Hmap; apply Hkeys|]. split.
  - intros paper H. unfold kept, removeDuplicatePapers in H.
    apply in_map_iff in H. destruct H as ([k p] & <- & H).
    apply (Hentries k p H).
  - rewrite <- (length_map key kept), Hmap.
    apply Permutation_length, NoDup_Permutation;
      [exact Hnd | apply NoDup_nodup|].
    intros k. rewrite nodup_In. apply Hkeys.
Qed.

Lemma titleKey_blank (title : jsstring) :
  Forall (fun c => Embedding.inClass c = false) (toLowerCase title) ->
  titleKey title = [].
Proof.
  intros H. unfold titleKey. rewrite (filter_nil_Forall _ _ H). reflexivity.
Qed.

(** X25.  Papers whose titles hold no [w], [s] or backslash once lower-cased
    all have the empty title key, so [removeDuplicatePapers] treats
    them as one paper and returns a single one of them. *)
Theorem removeDuplicatePapers_merges_blank_keys (papers : list RealPaper) :
  papers <> [] ->
  Forall (fun p => Forall (fun c => Embedding.inClass c = false)
                          (toLowerCase (title p))) papers ->
  exists paper, removeDuplicatePapers papers = [paper] /\ In paper papers.
Proof.
  intros Hne Hblank.
  destruct (removeDuplicatePapers_one_per_key papers) as (_ & _ & Hin & Hlen).
  cbv zeta in Hin, Hlen.
  assert (Hkeys : map (fun p => titleKey (title p)) papers
                  = repeat [] (length papers)).
  { clear -Hblank. induction Hblank as [|p papers Hp _ IH]; [reflexivity|].
    cbn [map length repeat]. rewrite (titleKey_blank _ Hp), IH. reflexivity. }
  rewrite Hkeys in Hlen.
  assert (Hone : length (nodup (list_eq_dec Z.eq_dec)
                               (repeat (@nil Z) (length papers))) = 1%nat).
  { destruct papers as [|p papers]; [congruence|]. cbn [length repeat].
    clear. induction (length papers) as [|n IH]; [reflexivity|].
    cbn [repeat nodup] in *.
    destruct (in_dec (list_eq_dec Z.eq_dec) [] ([] :: repeat [] n)) as [_|Hn];
      [exact IH | exfalso; apply Hn; now left]. }
  rewrite Hone in Hlen.
  destruct (removeDuplicatePapers papers) as [|paper [|other rest]] eqn:E;
    try discriminate.
  exists paper. split; [reflexivity|]. apply Hin. now left.
Qed.

End DuplicateFacts.

(** ** paperSearchService: synthetic papers and the number of results *)

Section SyntheticFacts.
Import JS PaperSearch.

Lemma syntheticFrom_length (random : nat -> Q) (topic : jsstring) (todo : nat) :
  forall i n, length (syntheticFrom random topic todo i n) = todo.
Proof.
  induction todo as [|todo IH]; intros i n; cbn [syntheticFrom]; [reflexivity|].
  destruct (syntheticPaper random topic i n) as [paper n'].
  cbn [length]. now rewrite IH.
Qed.

Lemma syntheticPaper_title (random : nat -> Q) (topic : jsstring) (i n : nat) :
  title (fst (syntheticPaper random topic i n))
  = nth (i mod 25) (paperTemplates topic) [].
Proof.
  unfold syntheticPaper. cbv zeta.
  destruct (pickAuthors random _ (n + 2) []) as [authors n'].
  reflexivity.
Qed.

Lemma syntheticFrom_titles (random : nat -> Q) (topic : jsstring) (todo : nat) :
  forall i n,
    Forall (fun p => In (title p) (paperTemplates topic))
           (syntheticFrom random topic todo i n).
Proof.
  induction todo as [|todo IH]; intros i n; cbn [syntheticFrom]; [constructor|].
  pose proof (syntheticPaper_title random topic i n) as Ht.
  destruct (syntheticPaper random topic i n) as [paper n'].
  cbn [fst] in Ht. constructor; [|apply IH].
  rewrite Ht. apply nth_In.
  change (length (paperTemplates topic)) with 25%nat.
  apply Nat.mod_upper_bound. discriminate.
Qed.

Lemma nodup_app_length {A} (dec : forall x y : A, {x = y} + {x <> y})
      (l1 l2 : list A) :
  (length (nodup dec (l1 ++ l2)) <= length l1 + length (nodup dec l2))%nat.
Proof.
  induction l1 as [|x l1 IH]; cbn [app nodup length]; [lia|].
  destruct (in_dec dec x (l1 ++ l2)); cbn [length]; lia.
Qed.

Context {host : Host}.

Lemma synthetic_keys_bound (random : nat -> Q) (topic : jsstring)
      (count : nat) :
  (length (nodup (list_eq_dec Z.eq_dec)
             (map (fun p => titleKey (title p))
                  (generateFallbackPapers random topic count))) <= 25)%nat.
Proof.
  change 25%nat with (length (map titleKey (paperTemplates topic))).
  apply NoDup_incl_length; [apply NoDup_nodup|].
  intros k Hk. apply nodup_In in Hk. apply in_map_iff in Hk.
  destruct Hk as (p & <- & Hp). apply in_map.
  pose proof (syntheticFrom_titles random topic count 0 0) as Ht.
  rewrite Forall_forall in Ht. now apply Ht.
Qed.

(** X26.  [generateFallbackPapers] builds [count] papers, but their titles are
    the 25 templates in turn, so [removeDuplicatePapers] never leaves
    more than 25 of them, however many were generated and whatever the
    random source returns. *)
Theorem synthetic_papers_collapse (random : nat -> Q) (topic : jsstring)
        (count : nat) :
  length (generateFallbackPapers random topic count) = count /\
  Forall (fun p => In (title p) (paperTemplates topic))
         (generateFallbackPapers random topic count) /\
  (length (removeDuplicatePapers (generateFallbackPapers random topic count))
   <= 25)%nat.
Proof.
  split; [apply syntheticFrom_length|]. split; [apply syntheticFrom_titles|].
  destruct (removeDuplicatePapers_one_per_key
              (generateFallbackPapers random topic count)) as (_ & _ & _ & Hlen).
  cbv zeta in Hlen. rewrite Hlen. apply synthetic_keys_bound.
Qed.

(** X27.  [searchRealPapers] announces 500 papers, but it removes duplicates
    after topping the list up with synthetic papers: it returns no more
    papers than the two searches found plus 25, and between 1 and 25
    papers when both searches fail or find nothing. *)
Theorem searchRealPapers_count (sources : PaperSources) (random : nat -> Q)
        (topic : jsstring) :
  let found := fun outcome : Result (list RealPaper) =>
                 match outcome with Return l => l | Throw _ => [] end in
  let arxivPapers := found (searchArxivEnhanced sources topic 400) in
  let semanticPapers := found (searchSemanticScholar sources topic 200) in
  let result := searchRealPapers sources random topic in
  totalFound result = length (papers result) /\
  (length (papers result)
   <= length arxivPapers + length semanticPapers + 25)%nat /\
  (arxivPapers = [] -> semanticPapers = [] ->
   (1 <= length (papers result) <= 25)%nat).
Proof.
  intros found arxivPapers semanticPapers result.
  split; [reflexivity|].
  assert (Hpapers :
            papers result
            = removeDuplicatePapers
                (if (length (arxivPapers ++ semanticPapers) <? 500)%nat
                 then (arxivPapers ++ semanticPapers)
                      ++ generateFallbackPapers random topic
                           (500 - length (arxivPapers ++ semanticPapers))
                 else arxivPapers ++ semanticPapers)) by reflexivity.
  assert (Hlen : forall l, length (removeDuplicatePapers l)
                           = length (nodup (list_eq_dec Z.eq_dec)
                                       (map (fun p => titleKey (title p)) l))).
  { intros l. now destruct (removeDuplicatePapers_one_per_key l) as (_ & _ & _ & H). }
  split.
  - rewrite Hpapers, Hlen.
    destruct (length (arxivPapers ++ semanticPapers) <? 500)%nat.
    + rewrite map_app.
      etransitivity; [apply nodup_app_length|].
      rewrite length_map, length_app.
      pose proof (synthetic_keys_bound random topic
                    (500 - length (arxivPapers ++ semanticPapers))) as H.
      rewrite length_app in H. lia.
    + pose proof (nodup_app_length (list_eq_dec Z.eq_dec)
                    (map (fun p => titleKey (title p))
                         (arxivPapers ++ semanticPapers)) []) as H.
      rewrite app_nil_r, length_map, length_app in H.
      cbn [nodup length] in H. lia.
  - intros Ha Hs. rewrite Hpapers, Ha, Hs. cbn [app length Nat.ltb Nat.leb Nat.sub].
    rewrite Hlen. split; [|apply synthetic_keys_bound].
    destruct (nodup _ _) as [|k ks] eqn:E; [|cbn; lia].
    apply nodup_nil_iff in E. apply map_eq_nil in E.
    pose proof (syntheticFrom_length random topic 500 0 0) as H500.
    unfold generateFallbackPapers in E. rewrite E in H500. discriminate.
Qed.

End SyntheticFacts.

Section DuplicateExamples.
Import JS PaperSearch Fixtures Samples.

Lemma removeDuplicatePapers_merges_blank_keys_witness :
  exists paper,
    removeDuplicatePapers [deepLearningPaper; graphTheoryPaper] = [paper] /\
    In paper [deepLearningPaper; graphTheoryPaper].
Proof.
  apply (removeDuplicatePapers_merges_blank_keys
           [deepLearningPaper; graphTheoryPaper]).
  - discriminate.
  - repeat constructor; vm_compute; reflexivity.
Defined.

End DuplicateExamples.
(** ** relationshipService: duplicate links *)

Section LinkFacts.
Import JS Relationships RelationSpec.

Lemma seenHas_false (seen : list jsstring) (key : jsstring) :
  seenHas seen key = false <-> ~ In key seen.
Proof.
  unfold seenHas. rewrite <- existsb_eqb_In.
  destruct (existsb (jsstring_eqb key) seen); split; congruence.
Qed.

Lemma seenHas_true (seen : list jsstring) (key : jsstring) :
  seenHas seen key = true <-> In key seen.
Proof. apply existsb_eqb_In. Qed.

Lemma keepUnseenLink_fold (relationships : list PaperRelationship) :
  let state := fold_left keepUnseenLink relationships ([], []) in
  fst state = map key1 (snd state) /\
  (forall rel, In rel (snd state) -> In rel relationships) /\
  (forall before rel after,
      snd state = before ++ rel :: after ->
      ~ In (key1 rel) (map key1 before) /\
      ~ In (key2 rel) (map key1 before)) /\
  (forall rel, In rel relationships ->
               In (key1 rel) (fst state) \/ In (key2 rel) (fst state)).
Proof.
  induction relationships as [|x l IH] using rev_ind; cbv zeta.
  - cbn. split; [reflexivity|]. split; [tauto|]. split; [|tauto].
    intros [|y before] rel after H; discriminate.
  - rewrite fold_left_app. cbn [fold_left]. cbv zeta in IH.
    destruct (fold_left keepUnseenLink l ([], [])) as [seen unique].
    cbn [fst snd] in IH. destruct IH as (Hseen & Hin & Hfresh & Hcov).
    unfold keepUnseenLink.
    destruct (seenHas seen (key1 x)) eqn:E1; cbn [negb andb].
    { cbn [fst snd]. split; [exact Hseen|]. split.
      - intros rel H. apply in_or_app. left. auto.
      - split; [exact Hfresh|]. intros rel H. apply in_app_or in H.
        destruct H as [H|[<-|[]]]; [auto|]. left. now apply seenHas_true. }
    destruct (seenHas seen (key2 x)) eqn:E2; cbn [negb].
    { cbn [fst snd]. split; [exact Hseen|]. split.
      - intros rel H. apply in_or_app. left. auto.
      - split; [exact Hfresh|]. intros rel H. apply in_app_or in H.
        destruct H as [H|[<-|[]]]; [auto|]. right. now apply seenHas_true. }
    cbn [fst snd]. split; [rewrite map_app; cbn [map]; now rewrite Hseen|].
    split.
    { intros rel H. apply in_app_or in H. apply in_or_app.
      destruct H as [H|[<-|[]]]; [left; auto|right; now left]. }
    split.
    + intros before rel after H.
      induction after as [|y after' _] using rev_ind.
      * apply app_inj_tail in H. destruct H as [-> ->].
        rewrite <- Hseen. split; now apply seenHas_false.
      * rewrite app_comm_cons, app_assoc in H. apply app_inj_tail in H.
        destruct H as [H _]. now apply (Hfresh before rel after').
    + intros rel H. apply in_app_or in H.
      destruct H as [H|[<-|[]]].
      * destruct (Hcov rel H); [left|right]; apply in_or_app; now left.
      * left. apply in_or_app. right. now left.
Qed.

Lemma keepUnseenLink_fresh (unique : list PaperRelationship) :
  (forall before rel after,
      unique = before ++ rel :: after ->
      ~ In (key1 rel) (map key1 before) /\
      ~ In (key2 rel) (map key1 before)) ->
  fold_left keepUnseenLink unique ([], []) = (map key1 unique, unique).
Proof.
  induction unique as [|x l IH] using rev_ind; intros Hfresh; [reflexivity|].
  rewrite fold_left_app, IH.
  - cbn [fold_left]. unfold keepUnseenLink.
    destruct (Hfresh l x [] eq_refl) as [H1 H2].
    apply seenHas_false in H1, H2. rewrite H1, H2. cbn [negb andb].
    now rewrite map_app.
  - intros before rel after H. apply (Hfresh before rel (after ++ [x])).
    rewrite H, <- app_assoc. reflexivity.
Qed.

Lemma sameLink_key (rel other : PaperRelationship) :
  sameLink rel other -> key1 rel = key1 other \/ key2 rel = key1 other.
Proof.
  unfold sameLink, key1, key2.
  intros (Ht & [[Hs Hd]|[Hs Hd]]); [left|right]; now rewrite Ht, Hs, Hd.
Qed.

Lemma split_at_hyphen (a a' rest rest' : jsstring) :
  ~ In 45%Z a -> ~ In 45%Z a' ->
  a ++ 45%Z :: rest = a' ++ 45%Z :: rest' -> a = a' /\ rest = rest'.
Proof.
  revert a'. induction a as [|c a IH]; intros [|c' a'] Ha Ha' H;
    cbn [app] in H.
  - injection H as Hr. now subst.
  - injection H as Hc Hr. exfalso. apply Ha'. now left.
  - injection H as Hc Hr. exfalso. apply Ha. now left.
  - injection H as Hc Hr. destruct (IH a') as [-> ->]; [| |exact Hr|now subst].
    + intros Hin. apply Ha. now right.
    + intros Hin. apply Ha'. now right.
Qed.

Lemma typeName_inj (t t' : RelationshipType) :
  typeName t = typeName t' -> t = t'.
Proof. destruct t, t'; intros H; try reflexivity; vm_compute in H; discriminate. Qed.

Lemma relationKey_plain (a b a' b' : jsstring) (t t' : RelationshipType) :
  plainId a -> plainId b -> plainId a' -> plainId b' ->
  relationKey a b t = relationKey a' b' t' -> a = a' /\ b = b' /\ t = t'.
Proof.
  unfold relationKey, plainId. change (lit "-") with [45%Z].
  cbn [app]. intros Ha Hb Ha' Hb' H.
  apply split_at_hyphen in H; [|assumption|assumption].
  destruct H as [-> H].
  apply split_at_hyphen in H; [|assumption|assumption].
  destruct H as [-> H]. now apply typeName_inj in H.
Qed.

(** X28.  [deduplicateRelationships] only keeps relationships of its input, and
    never two that link the same two papers (in either direction) with
    the same type; a second call changes nothing.  When no id holds a
    hyphen every dropped relationship is such a repetition of a kept one.
    With hyphens in the ids the keys of different links can coincide,
    and the later relationship is dropped although its two papers are
    not linked by any kept one: the link from [a] to [b-c] hides the link
    from [a-b] to [c]. *)
Theorem deduplicateRelationships_one_per_link
        (relationships : list PaperRelationship) :
  let unique := deduplicateRelationships relationships in
  (forall rel, In rel unique -> In rel relationships) /\
  (forall before rel after,
      unique = before ++ rel :: after ->
      forall earlier, In earlier before -> ~ sameLink rel earlier) /\
  deduplicateRelationships unique = unique /\
  (Forall plainIds relationships ->
   forall rel, In rel relationships ->
               exists kept, In kept unique /\ sameLink rel kept) /\
  (forall a b c t s m s' m',
      deduplicateRelationships
        [mkRelationship a (b ++ lit "-" ++ c) t s m;
         mkRelationship (a ++ lit "-" ++ b) c t s' m']
      = [mkRelationship a (b ++ lit "-" ++ c) t s m]).
Proof.
  intros unique.
  destruct (keepUnseenLink_fold relationships) as (Hseen & Hin & Hfresh & Hcov).
  cbv zeta in Hseen, Hin, Hfresh, Hcov.
  fold (deduplicateRelationships relationships) in Hseen, Hin, Hfresh.
  fold unique in Hseen, Hin, Hfresh.
  split; [exact Hin|]. split; [|split; [|split]].
  - intros before rel after H earlier Hearlier Hsame.
    destruct (Hfresh before rel after H) as [H1 H2].
    destruct (sameLink_key rel earlier Hsame) as [E|E].
    + apply H1. rewrite E. now apply in_map.
    + apply H2. rewrite E. now apply in_map.
  - unfold deduplicateRelationships at 1.
    now rewrite (keepUnseenLink_fresh unique Hfresh).
  - intros Hplain rel Hrel. rewrite Forall_forall in Hplain.
    destruct (Hplain rel Hrel) as [Hs Ht].
    assert (Hkept : exists kept,
               In kept unique /\
               (key1 kept = key1 rel \/ key1 kept = key2 rel)).
    { destruct (Hcov rel Hrel) as [H|H]; rewrite Hseen in H;
        apply in_map_iff in H; destruct H as (kept & E & Hk);
        exists kept; auto. }
    destruct Hkept as (kept & Hk & E). exists kept. split; [exact Hk|].
    destruct (Hplain kept (Hin kept Hk)) as [Hs' Ht'].
    unfold key1, key2 in E. destruct E as [E|E];
      apply relationKey_plain in E; try assumption;
      destruct E as (E1 & E2 & E3); split; auto.
  - intros a b c t s m s' m'.
    unfold deduplicateRelationships. cbn [fold_left].
    unfold keepUnseenLink at 2. cbn [seenHas existsb negb andb app].
    unfold keepUnseenLink.
    assert (E : key1 (mkRelationship (a ++ lit "-" ++ b) c t s' m')
                = key1 (mkRelationship a (b ++ lit "-" ++ c) t s m)).
    { unfold key1, relationKey. cbn [sourceId targetId relationshipType].
      now rewrite <- !app_assoc. }
    rewrite E. cbn [seenHas existsb]. rewrite jsstring_eqb_refl.
    reflexivity.
Qed.

End LinkFacts.

(** ** relationshipService: citation links *)

Section CitationFacts.
Import JS Relationships.

Lemma hasId_true (papers : list Paper) (refId : jsstring) :
  hasId papers refId = true <-> exists p, In p papers /\ id p = refId.
Proof.
  unfold hasId. rewrite existsb_exists.
  split; intros (p & Hp & E); exists p; split; auto; now apply jsstring_eqb_eq.
Qed.

Lemma citationLinks_In (papers : list Paper) (paper : Paper)
      (rel : PaperRelationship) :
  In rel (citationLinks papers paper) <->
  (exists refId,
      In refId (listed (references paper)) /\ hasId papers refId = true /\
      rel = mkRelationship (id paper) refId Citation (9 # 10)
                           (CitationCount (citationCount paper))) \/
  (exists citId,
      In citId (listed (citations paper)) /\ hasId papers citId = true /\
      rel = mkRelationship citId (id paper) Citation (9 # 10)
                           (CitationCount (citationCount paper))).
Proof.
  unfold citationLinks. rewrite in_app_iff, !in_map_iff. split.
  - intros [(r & <- & H)|(r & <- & H)]; apply filter_In in H;
      [left|right]; exists r; tauto.
  - intros [(r & H1 & H2 & ->)|(r & H1 & H2 & ->)]; [left|right];
      exists r; (split; [reflexivity|]); apply filter_In; tauto.
Qed.

(** X29.  [findCitationRelationships] never links to a paper outside the given
    list: both ends of every relationship are ids of given papers, the
    type is 'citation' and the strength 0.9.  Every reference of a given
    paper to a given paper gives the link from the paper to the
    reference, and every entry of its citations that is a given paper
    gives the link from that entry to the paper. *)
Theorem findCitationRelationships_links (papers : list Paper) :
  let found := findCitationRelationships papers in
  (forall rel,
      In rel found ->
      relationshipType rel = Citation /\ strength rel = 9 # 10 /\
      (exists p, In p papers /\ id p = sourceId rel) /\
      (exists p, In p papers /\ id p = targetId rel)) /\
  (forall paper refIds refId,
      In paper papers -> references paper = Some refIds -> In refId refIds ->
      (exists cited, In cited papers /\ id cited = refId) ->
      In (mkRelationship (id paper) refId Citation (9 # 10)
                         (CitationCount (citationCount paper))) found) /\
  (forall paper citIds citId,
      In paper papers -> citations paper = Some citIds -> In citId citIds ->
      (exists citing, In citing papers /\ id citing = citId) ->
      In (mkRelationship citId (id paper) Citation (9 # 10)
                         (CitationCount (citationCount paper))) found).
Proof.
  intros found. unfold found, findCitationRelationships.
  split; [|split].
  - intros rel H. apply in_flat_map in H. destruct H as (paper & Hp & H).
    apply citationLinks_In in H.
    destruct H as [(r & H1 & H2 & ->)|(r & H1 & H2 & ->)];
      cbn [relationshipType strength sourceId targetId];
      (split; [reflexivity|]); (split; [reflexivity|]);
      apply hasId_true in H2; split; eauto.
  - intros paper refIds refId Hp Hrefs Hin Hcited.
    apply in_flat_map. exists paper. split; [exact Hp|].
    apply citationLinks_In. left. exists refId.
    rewrite Hrefs. cbn [listed]. split; [exact Hin|].
    split; [now apply hasId_true|reflexivity].
  - intros paper citIds citId Hp Hcits Hin Hciting.
    apply in_flat_map. exists paper. split; [exact Hp|].
    apply citationLinks_In. right. exists citId.
    rewrite Hcits. cbn [listed]. split; [exact Hin|].
    split; [now apply hasId_true|reflexivity].
Qed.

End CitationFacts.

(** ** relationshipService: author links *)

Section AuthorFacts.
Import JS Relationships RelationSpec.

Lemma trimStart_idem (s : jsstring) : trimStart (trimStart s) = trimStart s.
Proof.
  induction s as [|c s IH]; [reflexivity|]. cbn [trimStart].
  destruct (isWhiteSpace c) eqn:E; [exact IH|]. cbn [trimStart]. now rewrite E.
Qed.

Lemma trimStart_head (s : jsstring) :
  match trimStart s with
  | [] => True
  | c :: _ => isWhiteSpace c = false
  end.
Proof.
  induction s as [|c s IH]; [exact I|]. cbn [trimStart].
  destruct (isWhiteSpace c) eqn:E; [exact IH|exact E].
Qed.

Lemma trimStart_suffix (s : jsstring) : exists w, s = w ++ trimStart s.
Proof.
  induction s as [|c s [w IH]]; [now exists []|]. cbn [trimStart].
  destruct (isWhiteSpace c).
  - exists (c :: w). cbn [app]. now rewrite <- IH.
  - now exists [].
Qed.

Lemma trimStart_fixed (s : jsstring) :
  match s with
  | [] => True
  | c :: _ => isWhiteSpace c = false
  end ->
  trimStart s = s.
Proof. destruct s as [|c s]; [reflexivity|]. cbn [trimStart]. now intros ->. Qed.

Lemma trim_idem (s : jsstring) : trim (trim s) = trim s.
Proof.
  unfold trim.
  set (t := trimStart s). set (u := trimStart (rev t)).
  assert (Hu : trimStart (rev u) = rev u).
  { apply trimStart_fixed.
    destruct (trimStart_suffix (rev t)) as [w Hw]. fold u in Hw.
    assert (Ht : t = rev u ++ rev w).
    { rewrite <- rev_app_distr, <- Hw. now rewrite rev_involutive. }
    pose proof (trimStart_head s) as Hh. fold t in Hh.
    destruct (rev u) as [|c r]; [exact I|].
    rewrite Ht in Hh. exact Hh. }
  rewrite Hu, rev_involutive. unfold u. now rewrite trimStart_idem.
Qed.

Lemma indexGet_In (index : Index) (key : jsstring) (found : list Paper) :
  indexGet index key = Some found -> In (key, found) index.
Proof.
  induction index as [|[k ps] rest IH]; cbn [indexGet]; [discriminate|].
  destruct (jsstring_eqb k key) eqn:E.
  - apply jsstring_eqb_eq in E. intros [= <-]. left. now subst.
  - intros H. right. now apply IH.
Qed.

Lemma indexPush_In (index : Index) (key : jsstring) (paper : Paper)
      (k : jsstring) (found : list Paper) :
  In (k, found) (indexPush index key paper) ->
  (k = key \/ In k (map fst index)) /\
  (forall p, In p found ->
             p = paper \/ exists old, In (k, old) index /\ In p old).
Proof.
  induction index as [|[k0 ps] rest IH]; cbn [indexPush].
  - intros [[= <- <-]|[]]. split; [now left|].
    intros p [<-|[]]. now left.
  - destruct (jsstring_eqb k0 key) eqn:E.
    + apply jsstring_eqb_eq in E. subst k0.
      intros [[= <- <-]|H].
      * split; [now left|]. intros p Hp. apply in_app_or in Hp.
        destruct Hp as [Hp|[<-|[]]]; [right|now left].
        exists ps. split; [now left|exact Hp].
      * split; [right; right; now apply (in_map fst) in H|].
        intros p Hp. right. exists found. split; [now right|exact Hp].
    + intros [[= <- <-]|H].
      * split; [right; now left|]. intros p Hp. right.
        exists ps. split; [now left|exact Hp].
      * destruct (IH H) as [Hk Hv]. split.
        -- destruct Hk as [Hk|Hk]; [now left|right; now right].
        -- intros p Hp. destruct (Hv p Hp) as [->|(old & Ho & Hpo)];
             [now left|right]. exists old. split; [now right|exact Hpo].
Qed.

Context {host : Host}.

Lemma indexPush_indexed (known : list Paper) (index : Index)
      (author : jsstring) (paper : Paper) :
  indexed known index -> In paper known ->
  indexed known (indexPush index (trim (toLowerCase author)) paper).
Proof.
  intros Hidx Hp k found H.
  destruct (indexPush_In _ _ _ _ _ H) as [Hk Hv]. split.
  - destruct Hk as [->|Hk]; [apply trim_idem|].
    apply in_map_iff in Hk. destruct Hk as ([k' old] & <- & Hk).
    now destruct (Hidx _ _ Hk).
  - intros p Hpf. destruct (Hv p Hpf) as [->|(old & Ho & Hpo)]; [exact Hp|].
    destruct (Hidx _ _ Ho) as [_ Hknown]. now apply Hknown.
Qed.

Lemma buildAuthorIndex_indexed (papers : list Paper) :
  indexed papers (buildAuthorIndex papers).
Proof.
  unfold buildAuthorIndex.
  assert (H : forall todo index,
             incl todo papers -> indexed papers index ->
             indexed papers
               (fold_left
                  (fun authorIndex paper =>
                     fold_left
                       (fun authorIndex author =>
                          indexPush authorIndex (trim (toLowerCase author))
                                    paper)
                       (authors paper) authorIndex)
                  todo index)).
  { induction todo as [|paper todo IH]; intros index Hincl Hidx;
      cbn [fold_left]; [exact Hidx|].
    apply IH; [intros p Hp; apply Hincl; now right|].
    assert (Hp : In paper papers) by (apply Hincl; now left).
    clear IH Hincl. revert index Hidx.
    induction (authors paper) as [|author rest IHa]; intros index Hidx;
      cbn [fold_left]; [exact Hidx|].
    apply IHa. now apply indexPush_indexed. }
  apply H; [apply incl_refl|]. intros k found [].
Qed.

Lemma flat_map_all_nil {A B} (f : A -> list B) (l : list A) :
  (forall x, In x l -> f x = []) -> flat_map f l = [].
Proof.
  induction l as [|x l IH]; intros H; cbn [flat_map]; [reflexivity|].
  rewrite (H x) by now left. apply IH. intros y Hy. apply H. now right.
Qed.

Lemma authorLinks_In (authorIndex : Index) (paper : Paper) (author : jsstring)
      (rel : PaperRelationship) :
  In rel (authorLinks authorIndex paper author) ->
  exists found otherPaper,
    indexGet authorIndex (toLowerCase author) = Some found /\
    In otherPaper found /\
    id paper <> id otherPaper /\
    sharedAuthorsOf paper otherPaper <> [] /\
    rel = mkRelationship (id paper) (id otherPaper) Author
            (Qmin (9 # 10)
                  (inject_Z (Z.of_nat (length (sharedAuthorsOf paper otherPaper)))
                   * (3 # 10)))
            (AuthorOverlap (sharedAuthorsOf paper otherPaper)).
Proof.
  unfold authorLinks. cbv zeta.
  destruct (indexGet authorIndex (toLowerCase author)) as [found|];
    [|intros []].
  intros H. apply in_flat_map in H. destruct H as (otherPaper & Ho & H).
  destruct (jsstring_eqb (id paper) (id otherPaper)) eqn:E;
    cbn [negb] in H; [destruct H|].
  apply jsstring_eqb_neq in E.
  destruct (sharedAuthorsOf paper otherPaper) as [|a shared] eqn:Es;
    cbn [length Nat.ltb Nat.leb] in H; [destruct H|].
  destruct H as [<-|[]]. exists found, otherPaper.
  split; [reflexivity|]. split; [exact Ho|]. split; [exact E|].
  rewrite Es. split; [discriminate|reflexivity].
Qed.

(** X30.  Every relationship of [findAuthorRelationships] is of type 'author',
    links a sampled paper to an indexed paper with a different id, has
    a strength between 0.3 and 0.9 and a non-empty author overlap.  The
    index is built under the trimmed lower-cased names but read under
    the lower-cased name only: when that name of every author of the
    sampled papers begins or ends with white space, no relationship is
    found at all. *)
Theorem findAuthorRelationships_links (papers sampledPapers : list Paper) :
  let found := findAuthorRelationships sampledPapers (buildAuthorIndex papers) in
  (forall rel,
      In rel found ->
      relationshipType rel = Author /\
      sourceId rel <> targetId rel /\
      (exists p, In p sampledPapers /\ id p = sourceId rel) /\
      (exists p, In p papers /\ id p = targetId rel) /\
      (3 # 10 <= strength rel <= 9 # 10)%Q /\
      exists sharedAuthors,
        metadata rel = AuthorOverlap sharedAuthors /\ sharedAuthors <> []) /\
  ((forall p author,
       In p sampledPapers -> In author (authors p) ->
       trim (toLowerCase author) <> toLowerCase author) ->
   found = []).
Proof.
  intros found. unfold found, findAuthorRelationships.
  pose proof (buildAuthorIndex_indexed papers) as Hidx.
  split.
  - intros rel H. apply in_flat_map in H. destruct H as (paper & Hp & H).
    apply in_flat_map in H. destruct H as (author & Ha & H).
    apply authorLinks_In in H.
    destruct H as (ps & otherPaper & Hget & Ho & Hne & Hshared & ->).
    cbn [relationshipType sourceId targetId strength metadata].
    split; [reflexivity|]. split; [exact Hne|].
    split; [now exists paper|]. split.
    { exists otherPaper. split; [|reflexivity].
      apply indexGet_In in Hget. destruct (Hidx _ _ Hget) as [_ Hknown].
      now apply Hknown. }
    split; [|now exists (sharedAuthorsOf paper otherPaper)].
    assert (Hlen : (1 <= Z.of_nat (length (sharedAuthorsOf paper otherPaper)))%Z).
    { destruct (sharedAuthorsOf paper otherPaper); [contradiction|cbn [length]; lia]. }
    set (n := Z.of_nat (length (sharedAuthorsOf paper otherPaper))) in *.
    assert (Hq : (1 <= inject_Z n)%Q)
      by (change 1%Q with (inject_Z 1); now rewrite <- Zle_Qle).
    split.
    + apply Q.min_glb; Lqa.lra.
    + apply Q.le_min_l.
  - intros Huntrimmed.
    apply flat_map_all_nil. intros paper Hp.
    apply flat_map_all_nil. intros author Ha.
    unfold authorLinks. cbv zeta.
    destruct (indexGet (buildAuthorIndex papers) (toLowerCase author))
      as [ps|] eqn:Hget; [|reflexivity].
    apply indexGet_In in Hget. destruct (Hidx _ _ Hget) as [Htrim _].
    now destruct (Huntrimmed paper author Hp Ha).
Qed.

End AuthorFacts.
